(** * The runtime manager of Pydio Cells (common/runtime/manager/manager.go)

    A shallow embedding of the manager's methods and of the broker command
    handler, followed by the properties that its specification states about
    them.

    The manager is glue code: every interesting step is a call into a
    collaborator (registry, server, service, broker, configuration store,
    runtime).  The embedding therefore writes each method as a program over
    those calls, and runs programs against an arbitrary environment that
    answers them.

    - A call that only observes (Registry.List, Server.Is, ...) is a [Query]:
      the environment answers it from its current state and the state is left
      as it is.
    - A call that acts (Server.Serve, Service.Stop, Registry.Register, ...) is
      an [Action]: the environment returns a response and a new state, and the
      call is appended to the log of the run.
    - [go f(x)] is recorded in the log; the body of the goroutine is not
      interleaved with the caller.
    - An [errgroup.Group] whose tasks are submitted with [Go] and joined with
      [Wait] is a node of the program that holds its tasks.  [run] runs the
      tasks to completion in submission order, which is one of the schedules
      the Go runtime allows; [exec] runs them one call at a time in the order
      that a schedule chooses, and [run] is [exec] under the schedule
      [leftmost].  [Wait] returns once every task has returned, and yields
      the first non-nil error: the first in submission order for [run], any
      of the errors under a schedule.  A panic in a task ends the process.
      What the specification says of the methods that use an errgroup is
      stated for every schedule.
    - A method call on a nil interface value is a [Panic].
    - Console output ([fmt.Println], [fmt.Printf]) is left out.
    - Go ranges over a map in an unspecified order; the embedding ranges in
      the order of [map_to_list]. *)

From Stdlib Require Import ZArith DecimalString.
From stdpp Require Import base option list strings gmap fin_maps.

Set Default Proof Using "Type".
#[local] Set Warnings "-register-all".

(** ** Data model *)

(** Go's [error] values.  [os.ErrNotExist] is a sentinel compared with [==];
    every other error is known by its message.  The nil error is [None]. *)
Inductive errval : Type :=
| os_ErrNotExist
| fmt_Errorf (msg : string).

Abbreviation error := (option errval).

#[global] Instance errval_eq_dec : EqDecision errval.
Proof. solve_decision. Defined.

(** A Go pair [(T, error)] as returned by the collaborators: the value when
    the error is nil, the error otherwise (the value is then the zero value,
    nil for a slice). *)
Inductive Result (T : Type) : Type :=
| Ok (x : T)
| Err (e : errval).
Arguments Ok {T} x.
Arguments Err {T} e.

(** [registry.Status] is a string type. *)
Definition Status := string.

(** [pb.ItemType] *)
Inductive ItemType : Type :=
| ItemType_NODE
| ItemType_SERVER
| ItemType_SERVICE.

(** [pb.ActionType] *)
Inductive ActionType : Type :=
| ActionType_ANY.

(** [registry.Option] values used as filters of List, Get and Watch *)
Inductive Filter : Type :=
| WithType (t : ItemType)
| WithName (n : string)
| WithAction (a : ActionType).

(** [registry.RegisterOption] *)
Inductive RegisterOption : Type :=
| WithEdgeTo (id label : string) (meta : gmap string string)
| WithDeregisterFull
| WithRegisterFailFast.

(** A handle on a registry (the shared one, or the source one). *)
Inductive Registry : Type :=
| RegistryAt (url : string).

#[global] Instance Registry_eq_dec : EqDecision Registry.
Proof. solve_decision. Defined.

(** The two registries that Init installs into the propagated context. *)
Record Context : Type := mkContext {
  ctx_server_registry : option Registry;
  ctx_service_registry : option Registry
}.

Definition servercontext_WithRegistry (ctx : Context) (r : Registry) : Context :=
  {| ctx_server_registry := Some r;
     ctx_service_registry := ctx_service_registry ctx |}.

Definition servicecontext_WithRegistry (ctx : Context) (r : Registry) : Context :=
  {| ctx_server_registry := ctx_server_registry ctx;
     ctx_service_registry := Some r |}.

(** [server.Server]: an in-memory server object.  [==] on two servers compares
    the objects, so a handle carries the object's address next to its ID. *)
Record Server : Type := mkServer {
  srv_addr : positive;
  srv_ID : string
}.

#[global] Instance Server_eq_dec : EqDecision Server.
Proof. solve_decision. Defined.

(** [service.ServiceOptions] *)
Record ServiceOptions : Type := mkServiceOptions {
  opt_Context : Context;
  opt_Server : option Server;
  opt_Tags : list string;
  opt_Fork : bool;
  opt_AutoStart : bool;
  opt_ForceRegister : bool;
  opt_Unique : bool;
  opt_AutoRestart : bool
}.

(** [service.Service]: an in-memory service with its options. *)
Record Service : Type := mkService {
  svc_ID : string;
  svc_Name : string;
  svc_ServerScheme : string;
  svc_Options : ServiceOptions
}.

(** Modelled from the spec: [Service.Server()] is not part of this file; the
    spec's data model has one attachment per service, the [Server] field of
    its options. *)
Definition svc_Server (s : Service) : option Server := opt_Server (svc_Options s).

(** [opts.Context = ...] and [opts.Server = ...] on the options of a service *)
Definition set_Context (s : Service) (ctx : Context) : Service :=
  let o := svc_Options s in
  {| svc_ID := svc_ID s; svc_Name := svc_Name s;
     svc_ServerScheme := svc_ServerScheme s;
     svc_Options :=
       {| opt_Context := ctx; opt_Server := opt_Server o;
          opt_Tags := opt_Tags o; opt_Fork := opt_Fork o;
          opt_AutoStart := opt_AutoStart o;
          opt_ForceRegister := opt_ForceRegister o;
          opt_Unique := opt_Unique o;
          opt_AutoRestart := opt_AutoRestart o |} |}.

Definition set_Server (s : Service) (srv : Server) : Service :=
  let o := svc_Options s in
  {| svc_ID := svc_ID s; svc_Name := svc_Name s;
     svc_ServerScheme := svc_ServerScheme s;
     svc_Options :=
       {| opt_Context := opt_Context o; opt_Server := Some srv;
          opt_Tags := opt_Tags o; opt_Fork := opt_Fork o;
          opt_AutoStart := opt_AutoStart o;
          opt_ForceRegister := opt_ForceRegister o;
          opt_Unique := opt_Unique o;
          opt_AutoRestart := opt_AutoRestart o |} |}.

(** [registry.Item] as the registry hands it out: identity, metadata, and the
    outcome of each downcast [As(&target)] the manager tries on it. *)
Record Item : Type := mkItem {
  item_ID : string;
  item_Name : string;
  item_Metadata : gmap string string;
  item_As_service : option Service;          (* As(&svc), svc service.Service  *)
  item_As_server : option Server;            (* As(&srv), srv server.Server    *)
  item_As_registry_Service : bool;           (* As(&rsrc), rsrc registry.Service *)
  item_As_registry_Server : bool             (* As(&rsrv), rsrv registry.Server  *)
}.

(** What the manager passes to [Registry.Register]: a service, or a plain
    item (the node made by [util.CreateNode]). *)
Inductive Registrable : Type :=
| ServiceItem (s : Service)
| PlainItem (i : Item).

(** The method values [svc.Start] and [svc.OnServe] *)
Inductive Hook : Type :=
| Service_Start_fn (s : Service)
| Service_OnServe_fn (s : Service).

(** [server.ServeOption]: the two hooks the manager builds, and whatever the
    caller of ServeAll or SetServeOptions supplied. *)
Inductive ServeOption : Type :=
| WithBeforeServe (f : Hook)
| WithAfterServe (f : Hook)
| CallerOption (tag : string).

(** [broker.Message]: what [RawData()] returns *)
Record Message : Type := mkMessage {
  RawData : gmap string string * error
}.

(** [configx.KV] *)
Record KV : Type := mkKV {
  Key : string;
  Value : string
}.

(** A missing key of a Go [map[string]string] reads as the empty string. *)
Definition index (m : gmap string string) (k : string) : string :=
  default EmptyString (m !! k).

(** [strconv.Itoa] *)
Definition strconv_Itoa (n : Z) : string := NilZero.string_of_int (Z.to_int n).

(** ** Calls into the collaborators *)

Inductive Query : Type :=
| Registry_List (r : Registry) (ff : list Filter)
| Registry_Get (r : Registry) (name : string) (ff : list Filter)
| Server_Is (s : Server) (st : Status)
| Server_NeedsRestart (s : Server)
| Service_Is (s : Service) (st : Status)
| runtime_IsFork
| runtime_IsRequired (name : string) (tags : list string)
| os_Getpid
| os_Getppid.

Definition Ans (q : Query) : Type :=
  match q with
  | Registry_List _ _ => Result (list Item)
  | Registry_Get _ _ _ => Result Item
  | Server_Is _ _ => bool
  | Server_NeedsRestart _ => bool
  | Service_Is _ _ => bool
  | runtime_IsFork => bool
  | runtime_IsRequired _ _ => bool
  | os_Getpid => Z
  | os_Getppid => Z
  end.

Inductive Action : Type :=
| registry_OpenRegistry (ctx : Context) (url : string)
| runtime_Init (ctx : Context) (ns : string)
| server_OpenServer (ctx : Context) (scheme : string)
| util_CreateNode
| Registry_Register (r : Registry) (i : Registrable) (oo : list RegisterOption)
| Registry_Deregister (r : Registry) (i : option Item) (oo : list RegisterOption)
| Registry_RegisterEdge (r : Registry) (from to label : string)
    (meta : gmap string string)
| Server_Serve (s : Server) (oo : list ServeOption)
| Server_Stop (s : Server) (oo : list RegisterOption)
| Service_Start (s : Service)
| Service_OnServe (s : Service)
| Service_Stop (s : Service) (oo : list RegisterOption)
| config_WatchMap (path : string)
| Broker_Subscribe (topic : string).

Definition Resp (a : Action) : Type :=
  match a with
  | registry_OpenRegistry _ _ => Result Registry
  | runtime_Init _ _ => unit
  | server_OpenServer _ _ => Result Server
  | util_CreateNode => Item
  | Registry_Register _ _ _ => error
  | Registry_Deregister _ _ _ => error
  | Registry_RegisterEdge _ _ _ _ _ => error
  | Server_Serve _ _ => error
  | Server_Stop _ _ => error
  | Service_Start _ => error
  | Service_OnServe _ => error
  | Service_Stop _ _ => error
  | config_WatchMap _ => Result (list KV)
  | Broker_Subscribe _ => error
  end.

(** The goroutines the manager starts with a [go] statement *)
Inductive Goroutine : Type :=
| go_WatchUniqueNeedsStart (svc : Service).

(** What a run leaves in its log *)
Inductive Event : Type :=
| Call (a : Action)
| Spawn (g : Goroutine).

(** ** Programs *)

Inductive Prog (R : Type) : Type :=
| Ret (r : R)
| Panic (msg : string)
| Ask (q : Query) (k : Ans q -> Prog R)
| Do (a : Action) (k : Resp a -> Prog R)
| Go (g : Goroutine) (k : Prog R)
| Wait (tasks : list (Prog error)) (k : error -> Prog R).

Arguments Ret {R} r.
Arguments Panic {R} msg.
Arguments Ask {R} q k.
Arguments Do {R} a k.
Arguments Go {R} g k.
Arguments Wait {R} tasks k.

Fixpoint bind {A B : Type} (p : Prog A) (f : A -> Prog B) : Prog B :=
  match p with
  | Ret r => f r
  | Panic msg => Panic msg
  | Ask q k => Ask q (fun x => bind (k x) f)
  | Do a k => Do a (fun x => bind (k x) f)
  | Go g k => Go g (bind k f)
  | Wait tasks k => Wait tasks (fun e => bind (k e) f)
  end.

Declare Scope prog_scope.
Delimit Scope prog_scope with prog.
Bind Scope prog_scope with Prog.
Notation "'let*' x ':=' p 'in' q" := (bind p (fun x => q))
  (at level 10, x name, p at level 100, q at level 200) : prog_scope.
Open Scope prog_scope.

Definition ask (q : Query) : Prog (Ans q) := Ask q Ret.
Definition call (a : Action) : Prog (Resp a) := Do a Ret.
Definition go (g : Goroutine) : Prog unit := Go g (Ret tt).

(** [eg := &errgroup.Group{}; eg.Go(t1); ...; eg.Go(tn); eg.Wait()] *)
Definition errgroup (tasks : list (Prog error)) : Prog error := Wait tasks Ret.

Definition nil_dereference : string :=
  "invalid memory address or nil pointer dereference".

(** A [for ... range] loop whose body may [continue] (or fall through) with an
    updated loop state, or [return] from the enclosing function. *)
Inductive Flow (S V : Type) : Type :=
| Continue (s : S)
| Return (v : V).
Arguments Continue {S V} s.
Arguments Return {S V} v.

Fixpoint range {A S V : Type} (l : list A) (body : A -> S -> Prog (Flow S V))
    (s : S) : Prog (Flow S V) :=
  match l with
  | [] => Ret (Continue s)
  | x :: l' =>
      let* f := body x s in
      match f with
      | Continue s' => range l' body s'
      | Return v => Ret (Return v)
      end
  end.

(** A range loop without [return] *)
Fixpoint range_ {A S : Type} (l : list A) (body : A -> S -> Prog S) (s : S)
    : Prog S :=
  match l with
  | [] => Ret s
  | x :: l' => let* s' := body x s in range_ l' body s'
  end.

(** ** Running a program against an environment *)

Record Env (W : Type) : Type := mkEnv {
  answer : forall q : Query, W -> Ans q;
  perform : forall a : Action, W -> Resp a * W
}.
Arguments answer {W} e q w.
Arguments perform {W} e a w.

Inductive Outcome (R : Type) : Type :=
| Done (r : R)
| Panicked (msg : string).
Arguments Done {R} r.
Arguments Panicked {R} msg.

Definition Log := list Event.

(** Sequencing of runs: the second run starts in the state the first one left
    and its log comes after; a panic ends the run. *)
Definition andThen {W A B : Type} (r : Outcome A * W * Log)
    (f : A -> W -> Outcome B * W * Log) : Outcome B * W * Log :=
  match r with
  | (Done a, w1, l1) => let '(o, w2, l2) := f a w1 in (o, w2, l1 ++ l2)
  | (Panicked msg, w1, l1) => (Panicked msg, w1, l1)
  end.

(** The first non-nil error, as [errgroup.Group] keeps it *)
Definition first_error (e1 e2 : error) : error :=
  match e1 with
  | Some _ => e1
  | None => e2
  end.

Fixpoint run {W : Type} (E : Env W) {R : Type} (p : Prog R) (w : W)
    : Outcome R * W * Log :=
  match p with
  | Ret r => (Done r, w, [])
  | Panic msg => (Panicked msg, w, [])
  | Ask q k => run E (k (answer E q w)) w
  | Do a k =>
      let '(x, w1) := perform E a w in
      let '(o, w2, l) := run E (k x) w1 in
      (o, w2, Call a :: l)
  | Go g k =>
      let '(o, w1, l) := run E k w in
      (o, w1, Spawn g :: l)
  | Wait tasks k =>
      let fix join (ts : list (Prog error)) (first : error) (w : W)
          : Outcome error * W * Log :=
        match ts with
        | [] => (Done first, w, [])
        | t :: ts' =>
            andThen (run E t w) (fun e w1 => join ts' (first_error first e) w1)
        end in
      andThen (join tasks None w) (fun e w1 => run E (k e) w1)
  end.

(** The tasks of an errgroup, as [run] joins them *)
Fixpoint run_tasks {W : Type} (E : Env W) (ts : list (Prog error))
    (first : error) (w : W) : Outcome error * W * Log :=
  match ts with
  | [] => (Done first, w, [])
  | t :: ts' =>
      andThen (run E t w) (fun e w1 => run_tasks E ts' (first_error first e) w1)
  end.

(** ** Running a program under a schedule

    [run] joins an errgroup by running its tasks one after the other.  The Go
    runtime may interleave them in any way.  [step] makes one call of a
    program; at an errgroup it lets one unfinished task make one call, and
    the task is chosen by the scheduler.  [exec] iterates [step] under a
    schedule, which gives the scheduler's choices for every step. *)

(** The result of one step: the program has ended, or it goes on as [p] in
    state [w] after having logged [evs]. *)
Inductive Step (W R : Type) : Type :=
| Final (o : Outcome R)
| Next (p : Prog R) (w : W) (evs : Log).
Arguments Final {W R} o.
Arguments Next {W R} p w evs.

(** The result of one step of the tasks of an errgroup: every task has
    returned, a task has panicked, or one task has moved. *)
Inductive GroupStep (W : Type) : Type :=
| AllDone
| Crashed (msg : string)
| Stepped (ts : list (Prog error)) (w : W) (evs : Log).
Arguments AllDone {W}.
Arguments Crashed {W} msg.
Arguments Stepped {W} ts w evs.

Definition is_Ret {R : Type} (p : Prog R) : bool :=
  match p with Ret _ => true | _ => false end.

(** The error a finished task has returned, nil when there is none *)
Definition returned (p : Prog error) : error :=
  match p with Ret e => e | _ => None end.

Definition keep {W} (t : Prog error) (g : GroupStep W) : GroupStep W :=
  match g with
  | Stepped ts w evs => Stepped (t :: ts) w evs
  | g => g
  end.

(** A task whose step ends it stays in the group as its returned error; a
    panic in a goroutine ends the process. *)
Definition stepped {W} (s : Step W error) (w : W) (rest : list (Prog error))
    : GroupStep W :=
  match s with
  | Final (Done e) => Stepped (Ret e :: rest) w []
  | Final (Panicked msg) => Crashed msg
  | Next t' w' evs => Stepped (t' :: rest) w' evs
  end.

Fixpoint nth_or_last {A} (i : nat) (l : list A) {struct l} : option A :=
  match l with
  | [] => None
  | x :: l' =>
      match i, l' with
      | 0, _ => Some x
      | _, [] => Some x
      | S i', _ => nth_or_last i' l'
      end
  end.

(** [Wait] returns the first non-nil error that a task returned, first in
    time: which one it is among the errors of the tasks is the scheduler's
    choice. *)
Definition first_done (c : list nat) (ts : list (Prog error)) : error :=
  nth_or_last (hd 0 c) (omap returned ts).

(** One step under the choices [c]: the head of [c] names the task of the
    group that moves (counted among the unfinished ones, the last one when
    there are fewer), the tail of [c] is for the groups nested in that task. *)
Fixpoint step {W : Type} (E : Env W) {R : Type} (c : list nat) (p : Prog R) (w : W)
    : Step W R :=
  match p with
  | Ret r => Final (Done r)
  | Panic msg => Final (Panicked msg)
  | Ask q k => Next (k (answer E q w)) w []
  | Do a k => let '(x, w1) := perform E a w in Next (k x) w1 [Call a]
  | Go g k => Next k w [Spawn g]
  | Wait ts k =>
      let fix pick (i : nat) (ts : list (Prog error)) : GroupStep W :=
        match ts with
        | [] => AllDone
        | t :: ts' =>
            if is_Ret t then keep t (pick i ts')
            else
              match i with
              | 0 => stepped (step E (tail c) t w) w ts'
              | S i' =>
                  match pick i' ts' with
                  | AllDone => stepped (step E (tail c) t w) w ts'
                  | g => keep t g
                  end
              end
        end in
      match pick (hd 0 c) ts with
      | AllDone => Next (k (first_done c ts)) w []
      | Crashed msg => Final (Panicked msg)
      | Stepped ts' w' evs => Next (Wait ts' k) w' evs
      end
  end.

(** The choice of the task that moves, as a function of its own *)
Fixpoint pick {W : Type} (E : Env W) (c : list nat) (w : W) (i : nat)
    (ts : list (Prog error)) : GroupStep W :=
  match ts with
  | [] => AllDone
  | t :: ts' =>
      if is_Ret t then keep t (pick E c w i ts')
      else
        match i with
        | 0 => stepped (step E (tail c) t w) w ts'
        | S i' =>
            match pick E c w i' ts' with
            | AllDone => stepped (step E (tail c) t w) w ts'
            | g => keep t g
            end
        end
  end.

(** [exec E fuel sched n p w] runs [p] from state [w] for at most [fuel]
    steps, the [i]-th of them under the choices [sched (n + i)]. *)
Fixpoint exec {W : Type} (E : Env W) {R : Type} (fuel : nat) (sched : nat -> list nat)
    (n : nat) (p : Prog R) (w : W) : option (Outcome R * W * Log) :=
  match fuel with
  | 0 => None
  | S fuel' =>
      match step E (sched n) p w with
      | Final o => Some (o, w, [])
      | Next p' w' evs =>
          match exec E fuel' sched (S n) p' w' with
          | Some (o, w2, l) => Some (o, w2, evs ++ l)
          | None => None
          end
      end
  end.

(** The schedule that always runs the first unfinished task *)
Definition leftmost : nat -> list nat := fun _ => [].

(** ** The behaviours of a program over all schedules *)

(** [interleave ls l]: [l] is a merge of the lists [ls] that keeps the order
    of each of them. *)
Inductive interleave {A : Type} : list (list A) -> list A -> Prop :=
| interleave_done ls : Forall (fun l => l = []) ls -> interleave ls []
| interleave_step ls i x l' l :
    ls !! i = Some (x :: l') ->
    interleave (<[i := l']> ls) l ->
    interleave ls (x :: l).

(** [joined es e]: [e] may be what [Wait] returns when the tasks returned
    [es]: nil when all are nil, one of the errors otherwise. *)
Definition joined (es : list error) (e : error) : Prop :=
  match e with
  | None => Forall (fun e' => e' = None) es
  | Some x => Some x ∈ es
  end.

(** Programs without errgroup *)
Fixpoint wait_free {R : Type} (p : Prog R) : Prop :=
  match p with
  | Ret _ => True
  | Panic _ => True
  | Ask q k => forall x, wait_free (k x)
  | Do a k => forall x, wait_free (k x)
  | Go g k => wait_free k
  | Wait _ _ => False
  end.

Section Behaviours.
Context {W : Type} (E : Env W).

(** [any p l o]: [p] may log [l] and end with [o] when every query and call
    is answered in some state of the environment.  Under an errgroup the
    state a task sees depends on what the other tasks have done, so the
    relation does not follow the state. *)
Fixpoint any {R : Type} (p : Prog R) (l : Log) (o : Outcome R) : Prop :=
  match p with
  | Ret r => l = [] /\ o = Done r
  | Panic msg => l = [] /\ o = Panicked msg
  | Ask q k => exists w, any (k (answer E q w)) l o
  | Do a k => exists w l', l = Call a :: l' /\ any (k (perform E a w).1) l' o
  | Go g k => exists l', l = Spawn g :: l' /\ any k l' o
  | Wait ts k =>
      (exists ls es l1 e l2,
         l = l1 ++ l2
         /\ (fix all (ts : list (Prog error)) (ls : list Log) (es : list error) : Prop :=
              match ts, ls, es with
              | [], [], [] => True
              | t :: ts', l :: ls', e :: es' => any t l (Done e) /\ all ts' ls' es'
              | _, _, _ => False
              end) ts ls es
         /\ interleave ls l1 /\ joined es e /\ any (k e) l2 o)
      \/ ((fix some (ts : list (Prog error)) : Prop :=
             match ts with
             | [] => False
             | t :: ts' => (exists l' msg, any t l' (Panicked msg)) \/ some ts'
             end) ts
          /\ exists msg, o = Panicked msg)
  end.

(** Every task of [ts] returns: the logs and the errors, task by task *)
Definition all_done (ts : list (Prog error)) (ls : list Log) (es : list error) : Prop :=
  Forall3 (fun t l e => any t l (Done e)) ts ls es.

Definition may_crash (ts : list (Prog error)) : Prop :=
  Exists (fun t => exists l msg, any t l (Panicked msg)) ts.

(** One step of a program is a step of its behaviours. *)
Definition step_ok {R : Type} (p : Prog R) : Prop :=
  forall c w,
    match step E c p w with
    | Final o => any p [] o
    | Next p' w' evs =>
        (evs = [] \/ exists ev, evs = [ev])
        /\ forall l o, any p' l o -> any p (evs ++ l) o
    end.

(** The behaviours of a program started in state [w]: until its first
    errgroup the program sees the state as its own calls leave it. *)
Fixpoint sees {R : Type} (p : Prog R) (w : W) (l : Log) (o : Outcome R) : Prop :=
  match p with
  | Ret r => l = [] /\ o = Done r
  | Panic msg => l = [] /\ o = Panicked msg
  | Ask q k => sees (k (answer E q w)) w l o
  | Do a k =>
      exists l', l = Call a :: l'
                 /\ sees (k (perform E a w).1) (perform E a w).2 l' o
  | Go g k => exists l', l = Spawn g :: l' /\ sees k w l' o
  | Wait ts k => any (Wait ts k) l o
  end.

(** [halts p]: no sequence of steps from [p] is infinite. *)
Inductive halts {R : Type} (p : Prog R) : Prop :=
| halts_intro :
    (forall c w p' w' evs, step E c p w = Next p' w' evs -> halts p') -> halts p.

Inductive halt_all (ts : list (Prog error)) : Prop :=
| halt_all_intro :
    (forall j t c w t' w' evs,
       ts !! j = Some t -> step E c t w = Next t' w' evs ->
       halt_all (<[j := t']> ts)) ->
    halt_all ts.

(** [every_schedule p w Q]: under every schedule the program [p], started
    in state [w], ends, and its outcome and its log satisfy [Q]. *)
Definition every_schedule {R : Type} (p : Prog R) (w : W)
    (Q : Outcome R -> Log -> Prop) : Prop :=
  forall sched : nat -> list nat,
    (exists fuel r, exec E fuel sched 0 p w = Some r)
    /\ forall fuel o w' log,
         exec E fuel sched 0 p w = Some (o, w', log) -> Q o log.

End Behaviours.

(** Induction on programs, the tasks of an errgroup included *)
Section Prog_nested_ind.
Variable P : forall R : Type, Prog R -> Prop.
Hypothesis HRet : forall R (r : R), P R (Ret r).
Hypothesis HPanic : forall R msg, P R (Panic msg).
Hypothesis HAsk : forall R q (k : Ans q -> Prog R), (forall x, P R (k x)) -> P R (Ask q k).
Hypothesis HDo : forall R a (k : Resp a -> Prog R), (forall x, P R (k x)) -> P R (Do a k).
Hypothesis HGo : forall R g (k : Prog R), P R k -> P R (Go g k).
Hypothesis HWait : forall R ts (k : error -> Prog R),
  Forall (P error) ts -> (forall e, P R (k e)) -> P R (Wait ts k).

Fixpoint Prog_nested_ind {R : Type} (p : Prog R) : P R p :=
  match p with
  | Ret r => HRet _ r
  | Panic msg => HPanic _ msg
  | Ask q k => HAsk _ q k (fun x => Prog_nested_ind (k x))
  | Do a k => HDo _ a k (fun x => Prog_nested_ind (k x))
  | Go g k => HGo _ g k (Prog_nested_ind k)
  | Wait ts k =>
      HWait _ ts k
        ((fix all (ts : list (Prog error)) : Forall (P error) ts :=
            match ts with
            | [] => List.Forall_nil _
            | t :: ts' => List.Forall_cons _ t ts' (Prog_nested_ind t) (all ts')
            end) ts)
        (fun e => Prog_nested_ind (k e))
  end.
End Prog_nested_ind.

(** ** The manager *)

Record manager : Type := mkManager {
  ns : string;
  srcUrl : string;
  reg : Registry;
  root : option Item;
  rootIsFork : bool;
  serveOptions : list ServeOption;
  servers : gmap string Server;
  services : gmap string Service
}.

Definition set_root (m : manager) (r : option Item) (isFork : bool) : manager :=
  {| ns := ns m; srcUrl := srcUrl m; reg := reg m; root := r;
     rootIsFork := isFork; serveOptions := serveOptions m;
     servers := servers m; services := services m |}.

Definition set_serveOptions (m : manager) (oo : list ServeOption) : manager :=
  {| ns := ns m; srcUrl := srcUrl m; reg := reg m; root := root m;
     rootIsFork := rootIsFork m; serveOptions := oo;
     servers := servers m; services := services m |}.

Definition set_servers (m : manager) (ss : gmap string Server) : manager :=
  {| ns := ns m; srcUrl := srcUrl m; reg := reg m; root := root m;
     rootIsFork := rootIsFork m; serveOptions := serveOptions m;
     servers := ss; services := services m |}.

Definition set_services (m : manager) (ss : gmap string Service) : manager :=
  {| ns := ns m; srcUrl := srcUrl m; reg := reg m; root := root m;
     rootIsFork := rootIsFork m; serveOptions := serveOptions m;
     servers := servers m; services := ss |}.

(** [for _, v := range m] over a Go map *)
Definition values {V : Type} (m : gmap string V) : list V :=
  (map_to_list m).*2.

Definition CommandStart : string := "start".
Definition CommandStop : string := "stop".
Definition CommandRestart : string := "restart".

(** [m.root.ID()]: a method call on the interface value held by [m.root] *)
Definition root_ID (m : manager) : Prog string :=
  match root m with
  | Some r => Ret (item_ID r)
  | None => Panic nil_dereference
  end.

Section Manager.

(** Constants of other packages of the repository; their literals are not
    part of this file, and nothing below depends on them. *)
Variable MetaStatusKey : string.           (* registry.MetaStatusKey *)
Variable StatusStopped : Status.           (* registry.StatusStopped *)
Variable StatusReady : Status.             (* registry.StatusReady *)
Variable NodeMetaPID : string.             (* runtime.NodeMetaPID *)
Variable TopicRegistryCommand : string.    (* common.TopicRegistryCommand *)

(** The loop of NewManager over the NODE items: the state is
    [(current, parent)]. *)
Definition NewManager_detect (rt : Item) (cp : option Item * option Item)
    : Prog (option Item * option Item) :=
  let rPID := index (item_Metadata rt) NodeMetaPID in
  let* ppid := ask os_Getppid in
  if String.eqb rPID (strconv_Itoa ppid) then Ret (cp.1, Some rt)
  else
    let* pid := ask os_Getpid in
    if String.eqb rPID (strconv_Itoa pid) then Ret (Some rt, cp.2)
    else Ret cp.

Definition NewManager (rg : Registry) (url : string) (namespace : string)
    : Prog manager :=
  let m := {| ns := namespace; srcUrl := url; reg := rg; root := None;
              rootIsFork := false; serveOptions := [];
              servers := ∅; services := ∅ |} in
  (* Detect a parent root *)
  let* r := ask (Registry_List rg [WithType ItemType_NODE]) in
  let* cp := match r with
       | Ok ii => range_ ii NewManager_detect (None, None)
       | Err _ => Ret (None, None)
       end in
  let '(current, parent) := cp in
  match current with
  | Some c => Ret (set_root m (Some c) false)
  | None =>
      let* node := call util_CreateNode in
      let* er := call (Registry_Register rg (PlainItem node) []) in
      match er with
      | None =>
          match parent with
          | Some p =>
              let* _ := call (Registry_RegisterEdge rg (item_ID p) (item_ID node)
                          "Fork" ∅) in
              Ret (set_root m (Some node) true)
          | None => Ret (set_root m (Some node) false)
          end
      | Some _ => Ret m
      end
  end.

(** The state of Init's loop over the candidates: the scheme cache and the
    manager's own service map.  A [return] inside the loop leaves the loop
    with the error and the service map as it is by then. *)
Definition Init_state : Type := gmap string Server * gmap string Service.

Definition Init_candidate (m : manager) (ss : Item) (st : Init_state)
    : Prog (Flow Init_state (error * gmap string Service)) :=
  let '(byScheme, svcs) := st in
  match item_As_service ss with
  | None => Ret (Continue st)
  | Some s =>
      let opts := svc_Options s in
      let* mustFork := (if opt_Fork opts
                  then let* b := ask runtime_IsFork in Ret (negb b)
                  else Ret false) in
      (* Replace service context with target registry *)
      let s := set_Context s (servicecontext_WithRegistry (opt_Context opts) (reg m)) in
      let opts := svc_Options s in
      let* required := ask (runtime_IsRequired (svc_Name s) (opt_Tags opts)) in
      if negb required && negb (opt_ForceRegister opts) then Ret (Continue st)
      else if mustFork && negb (opt_AutoStart opts) then Ret (Continue st)
      else
        let scheme := svc_ServerScheme s in
        let* opened := match byScheme !! scheme with
                 | Some sr => Ret (Ok (byScheme, set_Server s sr))
                 | None =>
                     let* r := call (server_OpenServer (opt_Context opts) scheme) in
                     match r with
                     | Ok srv => Ret (Ok (<[scheme := srv]> byScheme, set_Server s srv))
                     | Err er => Ret (Err er)
                     end
                 end in
        match opened with
        | Err er => Ret (Return (Some er, svcs))
        | Ok (byScheme, s) =>
            if mustFork then Ret (Continue (byScheme, svcs)) (* Do not register here *)
            else
              let* rid := root_ID m in
              let* er := call (Registry_Register (reg m) (ServiceItem s)
                           [WithEdgeTo rid "Node" ∅]) in
              match er with
              | Some e => Ret (Return (Some e, svcs))
              | None => Ret (Continue (byScheme, <[svc_ID s := s]> svcs))
              end
        end
  end.

(** [m.servers[sr.ID()] = sr] and the edge from the root, for one cached
    server; the loop state is [m.servers]. *)
Definition Init_server (m : manager) (sr : Server) (srvs : gmap string Server)
    : Prog (gmap string Server) :=
  let srvs := <[srv_ID sr := sr]> srvs in (* Keep a ref to the actual object *)
  let* rid := root_ID m in
  let* _ := call (Registry_RegisterEdge (reg m) rid (srv_ID sr) "Node" ∅) in
  Ret srvs.

(** Init returns its error together with the manager as the call left it. *)
Definition Init (m : manager) (ctx : Context) : Prog (error * manager) :=
  let* r := call (registry_OpenRegistry ctx (srcUrl m)) in
  match r with
  | Err err => Ret (Some err, m)
  | Ok srcReg =>
      let ctx := servercontext_WithRegistry ctx (reg m) in
      let ctx := servicecontext_WithRegistry ctx srcReg in
      let* _ := call (runtime_Init ctx (ns m)) in
      let* r := ask (Registry_List srcReg [WithType ItemType_SERVICE]) in
      match r with
      | Err err => Ret (Some err, m)
      | Ok candidates =>
          let* f := range candidates (Init_candidate m) (∅, services m) in
          match f with
          | Return (er, svcs) => Ret (er, set_services m svcs)
          | Continue (byScheme, svcs) =>
              let m := set_services m svcs in
              match root m with
              | Some _ =>
                  let* srvs := range_ (values byScheme) (Init_server m) (servers m) in
                  Ret (None, set_servers m srvs)
              | None => Ret (None, m)
              end
          end
      end
  end.

Definition SetServeOptions (m : manager) (oo : list ServeOption) : manager :=
  set_serveOptions m oo.

Definition serviceServeOptions (svc : Service) : list ServeOption :=
  [WithBeforeServe (Service_Start_fn svc); WithAfterServe (Service_OnServe_fn svc)].

Definition serversWithStatus (m : manager) (status : Status) : Prog (list Server) :=
  range_ (values (servers m))
    (fun srv ss =>
       let* b := ask (Server_Is srv status) in
       if b then Ret (ss ++ [srv]) else Ret ss)
    [].

Definition servicesRunningOn (m : manager) (server : option Server)
    : Prog (list Service) :=
  range_ (values (services m))
    (fun svc ss =>
       if decide (svc_Server svc = server) then
         let* b := ask (Service_Is svc StatusReady) in
         if b then Ret (ss ++ [svc]) else Ret ss
       else Ret ss)
    [].

Definition regRunningService (m : manager) (name : string) : Prog bool :=
  let* r := ask (Registry_List (reg m) [WithType ItemType_SERVICE; WithName name]) in
  let ll := match r with Ok ll => ll | Err _ => [] end in
  Ret (existsb
         (fun l => negb (String.eqb (index (item_Metadata l) MetaStatusKey)
                           StatusStopped))
         ll).

Definition stopService (m : manager) (svc : Service) (oo : list RegisterOption)
    : Prog error :=
  call (Service_Stop svc oo).

Definition startServer (m : manager) (srv : option Server)
    (oo : list ServeOption) : Prog error :=
  let* opts := range_ (values (services m))
    (fun svc opts =>
       if decide (opt_Server (svc_Options svc) = srv) then
         let* running := (if opt_Unique (svc_Options svc)
                    then regRunningService m (svc_Name svc)
                    else Ret false) in
         if running then
           (* There is already a running service here. Do not start now,
              watch registry and postpone start *)
           let* _ := go (go_WatchUniqueNeedsStart svc) in
           Ret opts
         else Ret (opts ++ serviceServeOptions svc)
       else Ret opts)
    oo in
  match srv with
  | Some s => call (Server_Serve s opts)
  | None => Panic nil_dereference
  end.

Definition stopServer (m : manager) (srv : option Server)
    (oo : list RegisterOption) : Prog error :=
  (* Stop all running services on this server *)
  let* ss := servicesRunningOn m srv in
  let* er := errgroup (map (fun sv => stopService m sv oo) ss) in
  match er with
  | Some e => Ret (Some e)
  | None =>
      (* Stop server now *)
      match srv with
      | Some s => call (Server_Stop s oo)
      | None => Panic nil_dereference
      end
  end.

Definition startService (m : manager) (svc : Service) : Prog error :=
  (* Look up for corresponding server *)
  let srv := opt_Server (svc_Options svc) in
  let serveOptions := serveOptions m ++ serviceServeOptions svc in
  match srv with
  | None => Panic nil_dereference
  | Some s =>
      let* stopped := ask (Server_Is s StatusStopped) in
      if stopped then call (Server_Serve s serveOptions)
      else
        let* needs := ask (Server_NeedsRestart s) in
        if needs then
          let* ss := servicesRunningOn m srv in
          let serveOptions := serveOptions ++ flat_map serviceServeOptions ss in
          let* er := stopServer m srv [] in
          match er with
          | Some e => Ret (Some e)
          | None => call (Server_Serve s serveOptions)
          end
        else
          let* er := call (Service_Start svc) in
          match er with
          | Some e => Ret (Some e)
          | None =>
              let* er := call (Service_OnServe svc) in
              match er with
              | Some e => Ret (Some e)
              | None => Ret None
              end
          end
  end.

Definition StopAll (m : manager) : Prog unit :=
  let* ss := serversWithStatus m StatusReady in
  let* _ := errgroup (map (fun sr => stopServer m (Some sr) [WithDeregisterFull]) ss) in
  let* _ := call (Registry_Deregister (reg m) (root m) [WithRegisterFailFast]) in
  Ret tt.

(** The body of the loop of WatchServicesConfigs, for one received [kv] *)
Definition WatchServicesConfigs_event (m : manager) (kv : KV) : Prog unit :=
  let* r := ask (Registry_List (reg m) [WithName (Key kv)]) in
  match r with
  | Err _ => Ret tt
  | Ok [] => Ret tt
  | Ok (ss0 :: _) =>
      match item_As_service ss0 with
      | Some svc =>
          if opt_AutoRestart (svc_Options svc) then
            let* er := stopService m svc [] in
            match er with
            | None => let* _ := startService m svc in Ret tt
            | Some _ => Ret tt
            end
          else Ret tt
      | None => Ret tt
      end
  end.

(** [config.WatchMap] answers with the key-value pairs its channel delivers
    until it is closed. *)
Definition WatchServicesConfigs (m : manager) : Prog unit :=
  let* r := call (config_WatchMap "services") in
  match r with
  | Err _ => Ret tt
  | Ok ch => range_ ch (fun kv _ => WatchServicesConfigs_event m kv) tt
  end.

(** The downcasts at the head of the broker handler: the pair [(svc, srv)]
    they leave. *)
Definition WatchBroker_resolve (m : manager) (s : Item)
    : option Service * option Server :=
  match item_As_service s with
  | Some svc => (Some svc, None)         (* In-memory object found *)
  | None =>
      match item_As_server s with
      | Some srv => (None, Some srv)     (* In-memory object found *)
      | None =>
          if item_As_registry_Service s then (services m !! item_ID s, None)
          else if item_As_registry_Server s then (None, servers m !! item_ID s)
          else (None, None)
      end
  end.

(** The function WatchBroker subscribes to the command topic *)
Definition WatchBroker_handler (m : manager) (message : Message) : Prog error :=
  let hh := (RawData message).1 in
  let cmd := index hh "command" in
  let itemName := index hh "itemName" in
  let* r := ask (Registry_Get (reg m) itemName
             [WithType ItemType_SERVER; WithType ItemType_SERVICE]) in
  match r with
  | Err err => if decide (err = os_ErrNotExist) then Ret None else Ret (Some err)
  | Ok s =>
      let '(svc, srv) := WatchBroker_resolve m s in
      match svc, srv with
      | None, None => Ret None
      | Some svc, _ =>
          (* Service Commands *)
          if String.eqb cmd CommandStart then startService m svc
          else if String.eqb cmd CommandStop then stopService m svc []
          else if String.eqb cmd CommandRestart then
            let* er := stopService m svc [] in
            match er with
            | Some e => Ret (Some e)
            | None => startService m svc
            end
          else Ret (Some (fmt_Errorf ("unsupported command " ++ cmd)))
      | None, srv =>
          if decide (srv = None) then
            (* Server Commands *)
            if String.eqb cmd CommandStart then startServer m srv (serveOptions m)
            else if String.eqb cmd CommandStop then stopServer m srv []
            else if String.eqb cmd CommandRestart then
              let* er := stopServer m srv [] in
              match er with
              | Some e => Ret (Some e)
              | None => startServer m srv (serveOptions m)
              end
            else Ret (Some (fmt_Errorf ("unsupported command " ++ cmd)))
          else Ret None
      end
  end.

(** The command and the item name of a message, and the registry lookup the
    handler starts with *)
Definition command_of (message : Message) : string :=
  index (RawData message).1 "command".

Definition itemName_of (message : Message) : string :=
  index (RawData message).1 "itemName".

Definition lookup_of (m : manager) (message : Message) : Query :=
  Registry_Get (reg m) (itemName_of message)
    [WithType ItemType_SERVER; WithType ItemType_SERVICE].

Definition WatchBroker (m : manager) : Prog error :=
  call (Broker_Subscribe TopicRegistryCommand).

(** ServeAll returns at once.  What it leaves behind is the errgroup of
    the goroutines it has submitted, one startServer per server that
    reported Stopped, and a goroutine that waits for the group and hands
    its error, when it is not nil, to the ErrorCallback of the options, when
    they set one.  The embedding returns the manager with its new serve
    options together with the submitted goroutines. *)
Definition ServeAll (m : manager) (oo : list ServeOption)
    : Prog (manager * list (Prog error)) :=
  let m := set_serveOptions m oo in
  let* ss := serversWithStatus m StatusStopped in
  Ret (m, map (fun srv => startServer m (Some srv) oo) ss).

(** ServeAll together with the goroutines it leaves behind, up to the error
    that [eg.Wait()] yields in the waiting goroutine *)
Definition ServeAll_group (m : manager) (oo : list ServeOption)
    : Prog (manager * error) :=
  let* r := ServeAll m oo in
  let* er := errgroup r.2 in
  Ret (r.1, er).

End Manager.

(** ** Laws of [run] *)

Section Run.
Context {W : Type} (E : Env W).

Lemma andThen_assoc {A B C : Type} (r : Outcome A * W * Log)
    (f : A -> W -> Outcome B * W * Log) (g : B -> W -> Outcome C * W * Log) :
  andThen (andThen r f) g = andThen r (fun a w => andThen (f a w) g).
Proof.
  destruct r as [[[a|msg] w] l]; simpl; [|done].
  destruct (f a w) as [[[b|msg] w'] l']; simpl; [|done].
  destruct (g b w') as [[o w''] l'']. by rewrite app_assoc.
Qed.

Lemma andThen_ret {A : Type} (r : Outcome A * W * Log) :
  andThen r (fun a w => (Done a, w, [])) = r.
Proof. destruct r as [[[a|msg] w] l]; simpl; by rewrite ?app_nil_r. Qed.

Lemma run_Wait {R : Type} (ts : list (Prog error)) (k : error -> Prog R) w :
  run E (Wait ts k) w
  = andThen (run_tasks E ts None w) (fun e w1 => run E (k e) w1).
Proof.
  simpl. f_equal. generalize (@None errval). revert w.
  induction ts as [|t ts IH]; intros w first; simpl; [done|].
  destruct (run E t w) as [[[e|msg] w1] l1]; simpl; [|done].
  by rewrite IH.
Qed.

Lemma run_bind {A B : Type} (p : Prog A) (f : A -> Prog B) w :
  run E (bind p f) w = andThen (run E p w) (fun a w1 => run E (f a) w1).
Proof.
  revert B f w.
  induction p as [A r|A msg|A q k IH|A a k IH|A g k IH|A ts k IH]; intros B f w.
  - simpl. by destruct (run E (f r) w) as [[o w'] l].
  - done.
  - simpl. apply IH.
  - simpl. destruct (perform E a w) as [x w1]. rewrite IH.
    destruct (run E (k x) w1) as [[[r|msg] w2] l]; simpl; [|done].
    by destruct (run E (f r) w2) as [[o w3] l'].
  - simpl. rewrite IH.
    destruct (run E k w) as [[[r|msg] w2] l]; simpl; [|done].
    by destruct (run E (f r) w2) as [[o w3] l'].
  - change (bind (Wait ts k) f) with (Wait ts (fun e => bind (k e) f)).
    rewrite !run_Wait, andThen_assoc.
    destruct (run_tasks E ts None w) as [[[e|msg] w1] l1]; simpl; [|done].
    by rewrite IH.
Qed.

Lemma run_ask {B : Type} (q : Query) (f : Ans q -> Prog B) w :
  run E (bind (ask q) f) w = run E (f (answer E q w)) w.
Proof. done. Qed.

Lemma run_call {B : Type} (a : Action) (f : Resp a -> Prog B) w :
  run E (bind (call a) f) w
  = andThen (Done (perform E a w).1, (perform E a w).2, [Call a])
      (fun x w1 => run E (f x) w1).
Proof.
  simpl. destruct (perform E a w) as [x w1]; simpl.
  by destruct (run E (f x) w1) as [[o w2] l].
Qed.

Lemma run_call_ret (a : Action) w :
  run E (call a) w = (Done (perform E a w).1, (perform E a w).2, [Call a]).
Proof. simpl. by destruct (perform E a w) as [x w1]. Qed.

Lemma run_errgroup (ts : list (Prog error)) w :
  run E (errgroup ts) w = run_tasks E ts None w.
Proof. unfold errgroup. rewrite run_Wait. apply andThen_ret. Qed.

End Run.

(** ** Laws of [exec]

    Every run of [exec] is one of the behaviours [sees], whatever the
    schedule; under every schedule [exec] ends; and [run] is [exec] under
    the schedule [leftmost]. *)

Section Soundness.
Context {W : Type} (E : Env W).

Local Abbreviation all_done := (all_done E).
Local Abbreviation may_crash := (may_crash E).
Local Abbreviation step_ok := (step_ok E).

Lemma any_Wait {R : Type} ts (k : error -> Prog R) l o :
  any E (Wait ts k) l o
  <-> (exists ls es l1 e l2,
         l = l1 ++ l2 /\ all_done ts ls es /\ interleave ls l1
         /\ joined es e /\ any E (k e) l2 o)
      \/ (may_crash ts /\ exists msg, o = Panicked msg).
Proof.
  cbn [any].
  assert (forall ts ls es,
    (fix all (ts : list (Prog error)) (ls : list Log) (es : list error) : Prop :=
       match ts, ls, es with
       | [], [], [] => True
       | t :: ts', l :: ls', e :: es' => any E t l (Done e) /\ all ts' ls' es'
       | _, _, _ => False
       end) ts ls es <-> all_done ts ls es) as Hall.
  { clear. induction ts as [|t ts IH]; intros [|l ls] [|e es]; split;
      try done; try (by inversion 1); try (by constructor).
    - intros [Ht Hts]. constructor; [done|]. by apply IH.
    - inversion 1; subst. split; [done|]. by apply IH. }
  assert ((fix some (ts : list (Prog error)) : Prop :=
             match ts with
             | [] => False
             | t :: ts' => (exists l' msg, any E t l' (Panicked msg)) \/ some ts'
             end) ts <-> may_crash ts) as Hsome.
  { clear. unfold may_crash. induction ts as [|t ts IH].
    - split; [done|]. by inversion 1.
    - rewrite Exists_cons, IH. done. }
  rewrite Hsome. split.
  - intros [(ls & es & l1 & e & l2 & -> & Ha & Hrest)|H]; [left|by right].
    exists ls, es, l1, e, l2. split; [done|]. split; [by apply Hall|done].
  - intros [(ls & es & l1 & e & l2 & -> & Ha & Hrest)|H]; [left|by right].
    exists ls, es, l1, e, l2. split; [done|]. split; [by apply Hall|done].
Qed.

Lemma step_Wait {R : Type} c ts (k : error -> Prog R) w :
  step E c (Wait ts k) w
  = match pick E c w (hd 0 c) ts with
    | AllDone => Next (k (first_done c ts)) w []
    | Crashed msg => Final (Panicked msg)
    | Stepped ts' w' evs => Next (Wait ts' k) w' evs
    end.
Proof.
  cbn [step]. 
  match goal with |- match ?f _ _ with _ => _ end = _ =>
    assert (forall ts i, f i ts = pick E c w i ts) as ->; [|done] end.
  induction ts0 as [|t ts0 IH]; intros i; [done|]. cbn [pick].
  destruct (is_Ret t); [by rewrite IH|]. destruct i; [done|]. by rewrite IH.
Qed.

Lemma all_done_step ts ls es j t t' evs :
  ts !! j = Some t ->
  all_done (<[j := t']> ts) ls es ->
  (forall l o, any E t' l o -> any E t (evs ++ l) o) ->
  exists lj, ls !! j = Some lj /\ all_done ts (<[j := evs ++ lj]> ls) es.
Proof.
  intros Hj Hall Hstep. revert j ts Hj Hall.
  unfold all_done.
  intros j ts. revert j ls es.
  induction ts as [|t0 ts IH]; intros j ls es Hj Hall; [done|].
  destruct j as [|j]; cbn in *.
  - injection Hj as ->.
    apply Forall3_cons_inv_l in Hall as (l0 & ls0 & e0 & es0 & -> & -> & Ht & Hts).
    exists l0. split; [done|]. constructor; [by apply Hstep|done].
  - apply Forall3_cons_inv_l in Hall as (l0 & ls0 & e0 & es0 & -> & -> & Ht & Hts).
    destruct (IH j ls0 _ Hj Hts) as (lj & Hlj & Hall').
    exists lj. split; [done|]. by constructor.
Qed.

Lemma interleave_push {A : Type} (ls : list (list A)) j lj ev l1 :
  ls !! j = Some lj ->
  interleave ls l1 ->
  interleave (<[j := ev :: lj]> ls) (ev :: l1).
Proof.
  intros Hj Hi. apply (interleave_step _ j ev lj).
  - rewrite list_lookup_insert_eq; [done|]. by eapply lookup_lt_Some.
  - rewrite list_insert_insert_eq. by rewrite list_insert_id.
Qed.

Lemma pick_ok c w ts :
  Forall step_ok ts ->
  forall i,
    match pick E c w i ts with
    | AllDone => Forall (fun t => is_Ret t = true) ts
    | Crashed msg => may_crash ts
    | Stepped ts' w' evs =>
        (evs = [] \/ exists ev, evs = [ev])
        /\ exists j t t',
             ts !! j = Some t /\ ts' = <[j := t']> ts
             /\ forall l o, any E t' l o -> any E t (evs ++ l) o
    end.
Proof.
  induction 1 as [|t ts Ht Hts IH]; intros i; cbn [pick]; [constructor|].
  assert (match stepped (step E (tail c) t w) w ts with
          | AllDone => Forall (fun t => is_Ret t = true) (t :: ts)
          | Crashed msg => may_crash (t :: ts)
          | Stepped ts' w' evs =>
              (evs = [] \/ exists ev, evs = [ev])
              /\ exists j t0 t',
                   (t :: ts) !! j = Some t0 /\ ts' = <[j := t']> (t :: ts)
                   /\ forall l o, any E t' l o -> any E t0 (evs ++ l) o
          end) as Hhere.
  { specialize (Ht (tail c) w).
    destruct (step E (tail c) t w) as [[e|msg]|t' w' evs]; cbn [stepped].
    - split; [by left|]. exists 0, t, (Ret e). split; [done|]. split; [done|].
      intros l o [-> ->]. done.
    - left. by exists [], msg.
    - destruct Ht as [Hevs Ht]. split; [done|]. by exists 0, t, t'. }
  assert (forall g : GroupStep W,
    match g with
    | AllDone => Forall (fun t => is_Ret t = true) ts
    | Crashed msg => may_crash ts
    | Stepped ts' w' evs =>
        (evs = [] \/ exists ev, evs = [ev])
        /\ exists j t0 t',
             ts !! j = Some t0 /\ ts' = <[j := t']> ts
             /\ forall l o, any E t' l o -> any E t0 (evs ++ l) o
    end ->
    g <> AllDone \/ is_Ret t = true ->
    match keep t g with
    | AllDone => Forall (fun t => is_Ret t = true) (t :: ts)
    | Crashed msg => may_crash (t :: ts)
    | Stepped ts' w' evs =>
        (evs = [] \/ exists ev, evs = [ev])
        /\ exists j t0 t',
             (t :: ts) !! j = Some t0 /\ ts' = <[j := t']> (t :: ts)
             /\ forall l o, any E t' l o -> any E t0 (evs ++ l) o
    end) as Hkeep.
  { intros [|msg|ts' w' evs] Hg Hne; cbn [keep].
    - destruct Hne as [?|Hr]; [done|]. by constructor.
    - by right.
    - destruct Hg as (Hevs & j & t0 & t' & Hj & -> & Hstep).
      split; [done|]. by exists (S j), t0, t'. }
  destruct (is_Ret t) eqn:Hr.
  - apply Hkeep; [apply IH|by right].
  - destruct i as [|i]; [done|].
    specialize (IH i). destruct (pick E c w i ts) as [|msg|ts' w' evs] eqn:Hp.
    + done.
    + apply (Hkeep (Crashed msg)); [done|by left].
    + apply (Hkeep (Stepped ts' w' evs)); [done|by left].
Qed.

Lemma nth_or_last_elem {A : Type} i (l : list A) x :
  nth_or_last i l = Some x -> x ∈ l.
Proof.
  revert i. induction l as [|y l IH]; intros i H; cbn in H; [done|].
  destruct i, l; try (injection H as ->; by left).
  right. by eapply IH.
Qed.

Lemma nth_or_last_None {A : Type} i (l : list A) :
  nth_or_last i l = None -> l = [].
Proof.
  revert i. induction l as [|y l IH]; intros i H; cbn in H; [done|].
  destruct i, l; try done. by apply IH in H.
Qed.

Lemma first_done_joined c ts :
  joined (returned <$> ts) (first_done c ts).
Proof.
  unfold first_done, joined.
  destruct (nth_or_last _ _) as [x|] eqn:Hn.
  - apply nth_or_last_elem in Hn. apply list_elem_of_omap in Hn as (t & Ht & Hx).
    apply list_elem_of_fmap. by exists t.
  - apply nth_or_last_None in Hn. clear c.
    induction ts as [|t ts IH]; [constructor|]. cbn in Hn.
    destruct (returned t) eqn:Hr; [done|]. constructor; [done|]. by apply IH.
Qed.

Lemma all_done_Ret ts :
  Forall (fun t => is_Ret t = true) ts ->
  all_done ts ((fun _ => []) <$> ts) (returned <$> ts).
Proof.
  induction 1 as [|t ts Ht Hts IH]; [constructor|].
  constructor; [|done]. by destruct t.
Qed.

Lemma any_step {R : Type} (p : Prog R) : step_ok p.
Proof.
  induction p as [R r|R msg|R q k IH|R a k IH|R g k IH|R ts k IHts IH]
    using Prog_nested_ind; intros c w.
  - done.
  - done.
  - cbn [step]. split; [by left|]. intros l o H. by exists w.
  - cbn [step]. destruct (perform E a w) as [x w1] eqn:Hp.
    split; [right; by eexists|]. intros l o H. exists w, l. by rewrite Hp.
  - cbn [step]. split; [right; by eexists|]. intros l o H. by exists l.
  - rewrite step_Wait. pose proof (pick_ok c w ts IHts (hd 0 c)) as Hpick.
    destruct (pick E c w (hd 0 c) ts) as [|msg|ts' w' evs].
    + split; [by left|]. intros l o H. apply any_Wait. left.
      exists ((fun _ => []) <$> ts), (returned <$> ts), [], (first_done c ts), l.
      split; [done|]. split; [by apply all_done_Ret|]. split.
      * constructor. clear. induction ts; by constructor.
      * split; [apply first_done_joined|done].
    + apply any_Wait. right. split; [done|by eexists].
    + destruct Hpick as (Hevs & j & t & t' & Hj & -> & Hstep).
      split; [done|]. intros l o H. apply any_Wait in H. apply any_Wait.
      destruct H as [(ls & es & l1 & e & l2 & -> & Hall & Hint & Hjoin & Hk)|[Hc Ho]].
      * left.
        destruct (all_done_step ts ls es j t t' evs Hj Hall Hstep)
          as (lj & Hlj & Hall').
        exists (<[j := evs ++ lj]> ls), es, (evs ++ l1), e, l2.
        split; [by rewrite app_assoc|]. split; [done|]. split; [|done].
        destruct Hevs as [->|[ev ->]].
        -- cbn [app]. by rewrite list_insert_id.
        -- by apply interleave_push.
      * right. split; [|done]. unfold may_crash in *.
        apply Exists_exists in Hc as (t0 & Hin & l' & msg & Ht0).
        apply list_elem_of_lookup in Hin as [i Hi].
        destruct (decide (i = j)) as [->|Hne].
        -- rewrite list_lookup_insert_eq in Hi by (by eapply lookup_lt_Some).
           injection Hi as <-. apply Exists_exists. exists t.
           split; [by eapply list_elem_of_lookup_2|].
           exists (evs ++ l'), msg. by apply Hstep.
        -- rewrite list_lookup_insert_ne in Hi by done.
           apply Exists_exists. exists t0.
           split; [by eapply list_elem_of_lookup_2|]. by exists l', msg.
Qed.

End Soundness.

Section Sees.
Context {W : Type} (E : Env W).

Local Abbreviation sees := (sees E).
Local Abbreviation halts := (halts E).
Local Abbreviation halt_all := (halt_all E).

Lemma sees_any {R : Type} (p : Prog R) w l o : sees p w l o -> any E p l o.
Proof.
  revert w l o. induction p as [R r|R msg|R q k IH|R a k IH|R g k IH|R ts k IH];
    intros w l o; cbn [sees any]; try done.
  - intros H. exists w. by eapply IH.
  - intros (l' & -> & H). exists w, l'. split; [done|]. by eapply IH.
  - intros (l' & -> & H). exists l'. split; [done|]. by eapply IH.
Qed.

Lemma sees_step {R : Type} (p : Prog R) c w :
  match step E c p w with
  | Final o => sees p w [] o
  | Next p' w' evs => forall l o, sees p' w' l o -> sees p w (evs ++ l) o
  end.
Proof.
  destruct p as [r|msg|q k|a k|g k|ts k].
  - done.
  - done.
  - cbn [step sees]. by intros.
  - cbn [step sees]. destruct (perform E a w) as [x w1]. intros l o H.
    by exists l.
  - cbn [step sees]. intros l o H. by exists l.
  - pose proof (any_step E (Wait ts k) c w) as H.
    destruct (step E c (Wait ts k) w) as [o|p' w' evs]; [done|].
    destruct H as [_ H]. intros l o Hs. apply H. by eapply sees_any.
Qed.

(** Every run, under every schedule, is a behaviour. *)
Lemma exec_sees {R : Type} fuel sched n (p : Prog R) w o w' l :
  exec E fuel sched n p w = Some (o, w', l) -> sees p w l o.
Proof.
  revert n p w l. induction fuel as [|fuel IH]; intros n p w l; [done|].
  cbn [exec]. pose proof (sees_step p (sched n) w) as Hstep.
  destruct (step E (sched n) p w) as [o1|p' w1 evs].
  - by intros [= -> -> <-].
  - destruct (exec E fuel sched (S n) p' w1) as [[[o2 w2] l2]|] eqn:Hex; [|done].
    intros [= -> -> <-]. apply Hstep. by eapply IH.
Qed.

(** *** Every schedule ends *)

Lemma step_Final_Done {R : Type} c (p : Prog R) w r :
  step E c p w = Final (Done r) -> is_Ret p = true.
Proof.
  destruct p as [r'|msg|q k|a k|g k|ts k]; try done.
  - cbn [step]. by destruct (perform E a w).
  - rewrite step_Wait. by destruct (pick E c w (hd 0 c) ts).
Qed.

Lemma halt_all_cons t ts : halts t -> halt_all ts -> halt_all (t :: ts).
Proof.
  intros Ht. revert ts. induction Ht as [t _ IHt]. intros ts Hts.
  induction Hts as [ts Hts IHts]. constructor.
  intros [|j] t0 c w t' w' evs Hj Hstep; cbn in *.
  - injection Hj as <-. eapply IHt; [done|]. by constructor.
  - by eapply IHts.
Qed.

Lemma halt_all_Forall ts : Forall halts ts -> halt_all ts.
Proof.
  induction 1 as [|t ts Ht Hts IH].
  - constructor. by intros [|j].
  - by apply halt_all_cons.
Qed.

Lemma pick_Stepped c w i ts ts' w' evs :
  pick E c w i ts = Stepped ts' w' evs ->
  exists j t t' c',
    ts !! j = Some t /\ ts' = <[j := t']> ts
    /\ step E c' t w = Next t' w' evs.
Proof.
  revert i ts'. induction ts as [|t ts IH]; intros i ts'; cbn [pick]; [done|].
  assert (stepped (step E (tail c) t w) w ts = Stepped ts' w' evs ->
          is_Ret t = false ->
          exists j t0 t' c',
            (t :: ts) !! j = Some t0 /\ ts' = <[j := t']> (t :: ts)
            /\ step E c' t0 w = Next t' w' evs) as Hhere.
  { destruct (step E (tail c) t w) as [[e|msg]|t' w1 evs1] eqn:Hs; cbn [stepped].
    - apply step_Final_Done in Hs. congruence.
    - done.
    - intros [= <- <- <-] _. by exists 0, t, t', (tail c). }
  assert (forall g, keep t g = Stepped ts' w' evs ->
          (forall ts'', g = Stepped ts'' w' evs ->
             exists j t0 t' c',
               ts !! j = Some t0 /\ ts'' = <[j := t']> ts
               /\ step E c' t0 w = Next t' w' evs) ->
          exists j t0 t' c',
            (t :: ts) !! j = Some t0 /\ ts' = <[j := t']> (t :: ts)
            /\ step E c' t0 w = Next t' w' evs) as Hkeep.
  { intros [|msg|ts'' w'' evs''] Hg Hrec; cbn [keep] in Hg; try done.
    injection Hg as <- <- <-.
    destruct (Hrec ts'' eq_refl) as (j & t0 & t' & c' & Hj & -> & Hs).
    by exists (S j), t0, t', c'. }
  destruct (is_Ret t) eqn:Hr.
  - intros H. eapply Hkeep; [done|]. intros ts'' Hts''. by eapply IH.
  - destruct i as [|i]; [by intros; apply Hhere|].
    destruct (pick E c w i ts) as [|msg|ts'' w'' evs''] eqn:Hp.
    + by intros; apply Hhere.
    + done.
    + intros H. eapply (Hkeep (Stepped ts'' w'' evs'')); [done|].
      intros ts3 [= <-]. injection H as <- <- <-. by eapply IH.
Qed.

Lemma halts_Wait {R : Type} ts (k : error -> Prog R) :
  halt_all ts -> (forall e, halts (k e)) -> halts (Wait ts k).
Proof.
  intros Hts Hk. induction Hts as [ts Hts IH]. constructor.
  intros c w p' w' evs. rewrite step_Wait.
  destruct (pick E c w (hd 0 c) ts) as [|msg|ts' w1 evs1] eqn:Hp.
  - intros [= <- <- <-]. apply Hk.
  - done.
  - intros [= <- <- <-].
    apply pick_Stepped in Hp as (j & t & t' & c' & Hj & -> & Hs).
    by eapply IH.
Qed.

Lemma halts_all_programs {R : Type} (p : Prog R) : halts p.
Proof.
  induction p as [R r|R msg|R q k IH|R a k IH|R g k IH|R ts k IHts IH]
    using Prog_nested_ind.
  - constructor. by intros.
  - constructor. by intros.
  - constructor. cbn [step]. intros c w p' w' evs [= <- <- <-]. apply IH.
  - constructor. cbn [step]. intros c w p' w' evs.
    destruct (perform E a w). intros [= <- <- <-]. apply IH.
  - constructor. cbn [step]. by intros c w p' w' evs [= <- <- <-].
  - apply halts_Wait; [by apply halt_all_Forall|done].
Qed.

(** With enough fuel every schedule runs a program to its end. *)
Lemma exec_halts {R : Type} (p : Prog R) sched n w :
  exists fuel r, exec E fuel sched n p w = Some r.
Proof.
  revert n w. induction (halts_all_programs p) as [p _ IH]. intros n w.
  destruct (step E (sched n) p w) as [o|p' w' evs] eqn:Hs.
  - exists 1, (o, w, []). cbn [exec]. by rewrite Hs.
  - destruct (IH _ _ _ _ _ Hs (S n) w') as (fuel & [[o w2] l] & Hex).
    exists (S fuel), (o, w2, evs ++ l). cbn [exec]. by rewrite Hs, Hex.
Qed.

Lemma every_schedule_sees {R : Type} (p : Prog R) w
    (Q : Outcome R -> Log -> Prop) :
  (forall l o, sees p w l o -> Q o l) -> every_schedule E p w Q.
Proof.
  intros HQ sched. split; [apply exec_halts|].
  intros fuel o w' log Hex. by eapply HQ, exec_sees.
Qed.

End Sees.

Section Sequencing.
Context {W : Type} (E : Env W).

Lemma any_bind_inv {A B : Type} (p : Prog A) (f : A -> Prog B) l o :
  any E (bind p f) l o ->
  (exists r l1 l2, l = l1 ++ l2 /\ any E p l1 (Done r) /\ any E (f r) l2 o)
  \/ (exists msg, o = Panicked msg /\ any E p l (Panicked msg)).
Proof.
  revert B f l o.
  induction p as [A r|A msg|A q k IH|A a k IH|A g k IH|A ts k IH];
    intros B f l o.
  - cbn [bind]. intros H. left. by exists r, [], l.
  - cbn [bind any]. intros [-> ->]. right. by exists msg.
  - cbn [bind any]. intros [w H].
    apply IH in H as [(r & l1 & l2 & -> & H1 & H2)|(msg & -> & H)].
    + left. exists r, l1, l2. split; [done|]. split; [by exists w|done].
    + right. exists msg. split; [done|]. by exists w.
  - cbn [bind any]. intros (w & l' & -> & H).
    apply IH in H as [(r & l1 & l2 & -> & H1 & H2)|(msg & -> & H)].
    + left. exists r, (Call a :: l1), l2. split; [done|].
      split; [by exists w, l1|done].
    + right. exists msg. split; [done|]. by exists w, l'.
  - cbn [bind any]. intros (l' & -> & H).
    apply IH in H as [(r & l1 & l2 & -> & H1 & H2)|(msg & -> & H)].
    + left. exists r, (Spawn g :: l1), l2. split; [done|].
      split; [by exists l1|done].
    + right. exists msg. split; [done|]. by exists l'.
  - change (bind (Wait ts k) f) with (Wait ts (fun e => bind (k e) f)).
    rewrite !any_Wait.
    intros [(ls & es & l1 & e & l2 & -> & Hall & Hint & Hjoin & Hk)|[Hc [msg ->]]].
    + apply IH in Hk as [(r & l21 & l22 & -> & H1 & H2)|(msg & -> & H)].
      * left. exists r, (l1 ++ l21), l22. split; [by rewrite app_assoc|].
        split; [|done]. apply any_Wait. left. by exists ls, es, l1, e, l21.
      * right. exists msg. split; [done|]. apply any_Wait. left.
        by exists ls, es, l1, e, l2.
    + right. exists msg. split; [done|]. apply any_Wait. right.
      split; [done|by exists msg].
Qed.

Lemma wait_free_bind {A B : Type} (p : Prog A) (f : A -> Prog B) :
  wait_free p -> (forall r, wait_free (f r)) -> wait_free (bind p f).
Proof.
  revert B f. induction p as [A r|A msg|A q k IH|A a k IH|A g k IH|A ts k IH];
    intros B f Hp Hf; cbn [bind wait_free] in *; try done.
  - intros x. by apply IH.
  - intros x. by apply IH.
  - by apply IH.
Qed.

Lemma wait_free_range_ {A S : Type} (body : A -> S -> Prog S) (l : list A) s :
  (forall x s, wait_free (body x s)) -> wait_free (range_ l body s).
Proof.
  intros Hb. revert s. induction l as [|x l IH]; intros s; cbn [range_]; [done|].
  by apply wait_free_bind.
Qed.


(** A behaviour of [bind p f], for [p] without errgroup, is the run of [p]
    followed by a behaviour of [f] from the state that run reached. *)
Lemma sees_bind_wait_free {A B : Type} (p : Prog A) (f : A -> Prog B) w l o :
  wait_free p -> sees E (bind p f) w l o ->
  match run E p w with
  | (Done r, w1, l1) => exists l2, l = l1 ++ l2 /\ sees E (f r) w1 l2 o
  | (Panicked msg, w1, l1) => l = l1 /\ o = Panicked msg
  end.
Proof.
  revert B f w l o.
  induction p as [A r|A msg|A q k IH|A a k IH|A g k IH|A ts k IH];
    intros B f w l o Hwf; cbn [bind sees run wait_free] in *.
  - intros H. by exists l.
  - done.
  - intros H. by apply IH.
  - intros (l' & -> & H). destruct (perform E a w) as [x w1]. cbn [fst snd] in H.
    apply IH in H; [|done].
    destruct (run E (k x) w1) as [[[r|msg] w2] l2].
    + destruct H as (l3 & -> & H). by exists l3.
    + by destruct H as [-> ->].
  - intros (l' & -> & H). apply IH in H; [|done].
    destruct (run E k w) as [[[r|msg] w2] l2].
    + destruct H as (l3 & -> & H). by exists l3.
    + by destruct H as [-> ->].
  - done.
Qed.

(** An interleaving of logs is a permutation of their concatenation. *)
Lemma interleave_Permutation {A : Type} (ls : list (list A)) (l : list A) :
  interleave ls l -> l ≡ₚ concat ls.
Proof.
  induction 1 as [ls Hnil|ls i x l' l Hi Hint IH].
  - induction Hnil as [|l0 ls -> _ IH]; [done|]. done.
  - rewrite IH. clear IH Hint. revert i Hi.
    induction ls as [|l0 ls IHls]; intros i Hi; [done|].
    destruct i as [|i]; cbn in *.
    + by injection Hi as ->.
    + rewrite <- (IHls i Hi). by rewrite Permutation_middle.
Qed.

Lemma sees_bind_inv {A B : Type} (p : Prog A) (f : A -> Prog B) w l o :
  sees E (bind p f) w l o ->
  (exists r l1 l2, l = l1 ++ l2 /\ sees E p w l1 (Done r) /\ any E (f r) l2 o)
  \/ (exists msg, o = Panicked msg /\ sees E p w l (Panicked msg)).
Proof.
  revert B f w l o.
  induction p as [A r|A msg|A q k IH|A a k IH|A g k IH|A ts k IH];
    intros B f w l o.
  - cbn [bind]. intros H. left. exists r, [], l.
    split; [done|]. split; [done|]. by eapply sees_any.
  - cbn [bind sees]. intros [-> ->]. right. by exists msg.
  - cbn [bind sees]. intros H. by apply IH in H.
  - cbn [bind sees]. intros (l' & -> & H).
    apply IH in H as [(r & l1 & l2 & -> & H1 & H2)|(msg & -> & H)].
    + left. exists r, (Call a :: l1), l2. split; [done|].
      split; [by exists l1|done].
    + right. exists msg. split; [done|]. by exists l'.
  - cbn [bind sees]. intros (l' & -> & H).
    apply IH in H as [(r & l1 & l2 & -> & H1 & H2)|(msg & -> & H)].
    + left. exists r, (Spawn g :: l1), l2. split; [done|].
      split; [by exists l1|done].
    + right. exists msg. split; [done|]. by exists l'.
  - change (sees E (bind (Wait ts k) f) w l o) with (any E (bind (Wait ts k) f) l o).
    change (sees E (Wait ts k) w) with (any E (Wait ts k)).
    apply any_bind_inv.
Qed.

End Sequencing.

Section Leftmost.
Context {W : Type} (E : Env W).

(** A program without errgroup has one run, whatever the schedule. *)
Lemma exec_wait_free {R : Type} (p : Prog R) fuel sched n w r :
  wait_free p -> exec E fuel sched n p w = Some r -> r = run E p w.
Proof.
  revert fuel n w r.
  induction p as [R r0|R msg|R q k IH|R a k IH|R g k IH|R ts k IH];
    intros [|fuel] n w r Hwf; try done; cbn [exec step run wait_free] in *.
  - by intros [= <-].
  - by intros [= <-].
  - destruct (exec E fuel sched (S n) (k (answer E q w)) w)
      as [[[o w2] l]|] eqn:Hex; [|done].
    intros [= <-]. by apply IH in Hex as <-.
  - destruct (perform E a w) as [x w1].
    destruct (exec E fuel sched (S n) (k x) w1) as [[[o w2] l]|] eqn:Hex; [|done].
    intros [= <-]. by apply IH in Hex as <-.
  - destruct (exec E fuel sched (S n) k w) as [[[o w2] l]|] eqn:Hex; [|done].
    intros [= <-]. by apply IH in Hex as <-.
Qed.

Lemma exec_leftmost_shift {R : Type} fuel n n' (p : Prog R) w :
  exec E fuel leftmost n p w = exec E fuel leftmost n' p w.
Proof.
  revert n n' p w. induction fuel as [|fuel IH]; intros n n' p w; [done|].
  cbn [exec]. unfold leftmost at 1 3.
  destruct (step E [] p w) as [o|p' w' evs]; [done|].
  by rewrite (IH (S n) (S n')).
Qed.

Lemma exec_leftmost_S {R : Type} fuel n (p : Prog R) w :
  exec E (S fuel) leftmost n p w
  = match step E [] p w with
    | Final o => Some (o, w, [])
    | Next p' w' evs =>
        match exec E fuel leftmost 0 p' w' with
        | Some (o, w2, l) => Some (o, w2, evs ++ l)
        | None => None
        end
    end.
Proof.
  cbn [exec]. change (leftmost n) with (@nil nat).
  destruct (step E [] p w) as [o|p' w' evs]; [done|].
  by rewrite (exec_leftmost_shift fuel (S n) 0).
Qed.

Lemma pick_leftmost w done t rest :
  Forall (fun t => is_Ret t = true) done -> is_Ret t = false ->
  pick E [] w 0 (done ++ t :: rest)
  = match stepped (step E [] t w) w rest with
    | Stepped ts w' evs => Stepped (done ++ ts) w' evs
    | g => g
    end.
Proof.
  intros Hdone Ht. induction Hdone as [|d done Hd _ IH]; cbn [app pick].
  - rewrite Ht. cbn [tail]. by destruct (stepped _ _ _).
  - rewrite Hd, IH. by destruct (stepped _ _ _).
Qed.

Lemma pick_leftmost_done w done :
  Forall (fun t => is_Ret t = true) done -> pick E [] w 0 done = AllDone.
Proof.
  induction 1 as [|d done Hd _ IH]; cbn [pick]; [done|]. by rewrite Hd, IH.
Qed.

Lemma exec_more_fuel {R : Type} fuel1 fuel2 sched n (p : Prog R) w r :
  exec E fuel2 sched n p w = Some r ->
  exec E (fuel1 + fuel2) sched n p w = Some r.
Proof.
  assert (forall fuel n (p : Prog R) w r,
            exec E fuel sched n p w = Some r ->
            exec E (S fuel) sched n p w = Some r) as Hone.
  { induction fuel as [|fuel IH]; intros n0 p0 w0 r0; [done|].
    intros H. cbn [exec] in H. change (exec E (S (S fuel)) sched n0 p0 w0)
      with (match step E (sched n0) p0 w0 with
            | Final o => Some (o, w0, [])
            | Next p' w' evs =>
                match exec E (S fuel) sched (S n0) p' w' with
                | Some (o, w2, l) => Some (o, w2, evs ++ l)
                | None => None
                end
            end).
    destruct (step E (sched n0) p0 w0) as [o|p' w' evs]; [done|].
    destruct (exec E fuel sched (S n0) p' w') as [[[o2 w2] l2]|] eqn:Hex; [|done].
    by rewrite (IH _ _ _ _ Hex). }
  induction fuel1 as [|fuel1 IH]; intros H; [done|]. by apply Hone, IH.
Qed.

(** Running the first unfinished task of a group to its end *)
Lemma exec_leftmost_task {R : Type} fuel t w o w1 l done rest (k : error -> Prog R) :
  Forall (fun t => is_Ret t = true) done ->
  exec E fuel leftmost 0 t w = Some (o, w1, l) ->
  match o with
  | Done e =>
      forall fuel2 o2 w2 l2,
        exec E fuel2 leftmost 0 (Wait (done ++ Ret e :: rest) k) w1
        = Some (o2, w2, l2) ->
        exec E (fuel + fuel2) leftmost 0 (Wait (done ++ t :: rest) k) w
        = Some (o2, w2, l ++ l2)
  | Panicked msg =>
      exec E (S fuel) leftmost 0 (Wait (done ++ t :: rest) k) w
      = Some (Panicked msg, w1, l)
  end.
Proof.
  intros Hdone. revert t w l.
  induction fuel as [|fuel IH]; intros t w l; [done|].
  rewrite exec_leftmost_S.
  destruct (step E [] t w) as [[e|msg]|t' w' evs] eqn:Hs.
  - intros [= <- <- <-]. intros fuel2 o2 w2 l2 Hex.
    apply step_Final_Done in Hs as Hr. destruct t; try done.
    cbn in Hs. injection Hs as ->. by apply exec_more_fuel.
  - intros [= <- <- <-].
    assert (is_Ret t = false) as Ht by (by destruct t).
    rewrite exec_leftmost_S, step_Wait. cbn [hd].
    by rewrite (pick_leftmost w done t rest Hdone Ht), Hs.
  - assert (is_Ret t = false) as Ht by (by destruct t).
    destruct (exec E fuel leftmost 0 t' w') as [[[o3 w3] l3]|] eqn:Hex; [|done].
    intros [= <- <- <-]. specialize (IH _ _ _ Hex).
    destruct o3 as [e|msg].
    + intros fuel2 o2 w2 l2 Hex2. specialize (IH _ _ _ _ Hex2).
      change (S fuel + fuel2) with (S (fuel + fuel2)).
      rewrite exec_leftmost_S, step_Wait. cbn [hd].
      rewrite (pick_leftmost w done t rest Hdone Ht), Hs. cbn [stepped].
      rewrite IH. by rewrite app_assoc.
    + rewrite exec_leftmost_S, step_Wait. cbn [hd].
      rewrite (pick_leftmost w done t rest Hdone Ht), Hs. cbn [stepped].
      by rewrite IH.
Qed.

Lemma first_done_leftmost done first :
  Forall (fun t => is_Ret t = true) done ->
  first = foldl (fun f t => first_error f (returned t)) None done ->
  first_done [] done = first.
Proof.
  intros Hdone ->. unfold first_done. cbn [hd].
  assert (forall f : error,
    foldl (fun f t => first_error f (returned t)) f done
    = first_error f (nth_or_last 0 (omap returned done))) as ->; [|done].
  clear Hdone. induction done as [|d done IH]; intros f; cbn [foldl omap].
  - by destruct f.
  - rewrite IH. cbn [omap list_omap].
    by destruct (returned d) as [x|]; destruct f as [y|].
Qed.

(** The run of a group is its behaviour under the leftmost schedule. *)
Lemma exec_leftmost_group {R : Type} ts (k : error -> Prog R) :
  Forall (fun t => forall w, exists fuel,
            exec E fuel leftmost 0 t w = Some (run E t w)) ts ->
  (forall e w, exists fuel, exec E fuel leftmost 0 (k e) w = Some (run E (k e) w)) ->
  forall done first w,
    Forall (fun t => is_Ret t = true) done ->
    first = foldl (fun f t => first_error f (returned t)) None done ->
    exists fuel,
      exec E fuel leftmost 0 (Wait (done ++ ts) k) w
      = Some (andThen (run_tasks E ts first w) (fun e w1 => run E (k e) w1)).
Proof.
  intros Hts Hk. induction Hts as [|t ts Ht _ IH]; intros done first w Hdone Hfirst.
  - rewrite app_nil_r. cbn [run_tasks andThen].
    destruct (Hk first w) as [fuel Hex]. exists (S fuel).
    rewrite exec_leftmost_S, step_Wait. cbn [hd].
    rewrite (pick_leftmost_done w done Hdone).
    rewrite (first_done_leftmost done first Hdone Hfirst), Hex.
    by destruct (run E (k first) w) as [[o w2] l].
  - cbn [run_tasks]. destruct (Ht w) as [fuel Hex].
    destruct (run E t w) as [[[e|msg] w1] l1] eqn:Hrun.
    + pose proof (exec_leftmost_task fuel t w (Done e) w1 l1 done ts k Hdone Hex)
        as Htask. cbv beta iota in Htask.
      destruct (IH (done ++ [Ret e]) (first_error first e) w1) as [fuel2 Hex2].
      { apply Forall_app. split; [done|]. by constructor. }
      { rewrite foldl_app. cbn. by rewrite <- Hfirst. }
      rewrite <- app_assoc in Hex2. cbn [app] in Hex2.
      exists (fuel + fuel2). cbn [andThen].
      destruct (andThen (run_tasks E ts (first_error first e) w1)
                  (fun e w1 => run E (k e) w1)) as [[o2 w2] l2] eqn:Hand.
      rewrite (Htask fuel2 o2 w2 l2 Hex2).
      clear -Hand. revert Hand.
      destruct (run_tasks E ts (first_error first e) w1) as [[[e'|msg] w3] l3];
        cbn [andThen].
      * destruct (run E (k e') w3) as [[o4 w4] l4]. intros [= <- <- <-].
        by rewrite app_assoc.
      * by intros [= <- <- <-].
    + pose proof (exec_leftmost_task fuel t w (Panicked msg) w1 l1 done ts k
                    Hdone Hex) as Htask. cbv beta iota in Htask.
      exists (S fuel). cbn [andThen]. by rewrite Htask.
Qed.

(** The run of a program is its behaviour under the leftmost schedule. *)
Theorem run_leftmost {R : Type} (p : Prog R) w :
  exists fuel, exec E fuel leftmost 0 p w = Some (run E p w).
Proof.
  revert w.
  induction p as [R r|R msg|R q k IH|R a k IH|R g k IH|R ts k IHts IH]
    using Prog_nested_ind; intros w.
  - by exists 1.
  - by exists 1.
  - destruct (IH (answer E q w) w) as [fuel Hex]. exists (S fuel).
    rewrite exec_leftmost_S. cbn [step run]. rewrite Hex.
    by destruct (run E _ w) as [[o w2] l].
  - cbn [run]. destruct (perform E a w) as [x w1] eqn:Hp.
    destruct (IH x w1) as [fuel Hex]. exists (S fuel).
    rewrite exec_leftmost_S. cbn [step]. rewrite Hp, Hex.
    by destruct (run E _ w1) as [[o w2] l].
  - destruct (IH w) as [fuel Hex]. exists (S fuel).
    rewrite exec_leftmost_S. cbn [step run]. rewrite Hex.
    by destruct (run E _ w) as [[o w2] l].
  - rewrite run_Wait.
    apply (exec_leftmost_group ts k IHts (fun e w => IH e w) [] None w);
      [constructor|done].
Qed.

End Leftmost.

(** ** A scripted environment, for running the manager on concrete inputs *)

(** What the collaborators do in a scripted run: the content of each
    registry, the status every server and service reports, and which actions
    fail.  The state of the run is the number of actions performed so far. *)
Record Script : Type := mkScript {
  sc_registry : Registry -> list (ItemType * Item);
  sc_registry_error : error;             (* List and Get fail with it *)
  sc_status : string -> Status;          (* by the ID of a server or service *)
  sc_needs_restart : bool;
  sc_is_fork : bool;
  sc_required : string -> bool;          (* by the name of a service *)
  sc_pid : Z;
  sc_ppid : Z;
  sc_fails : Action -> error;
  sc_config : list KV
}.

Definition ItemType_eqb (a b : ItemType) : bool :=
  match a, b with
  | ItemType_NODE, ItemType_NODE => true
  | ItemType_SERVER, ItemType_SERVER => true
  | ItemType_SERVICE, ItemType_SERVICE => true
  | _, _ => false
  end.

(** An item passes the filters when its type is one of the [WithType]s (if
    there is any) and its name is the [WithName] (if there is one). *)
Definition passes (ff : list Filter) (ti : ItemType * Item) : bool :=
  let types := flat_map (fun f => match f with WithType t => [t] | _ => [] end) ff in
  let names := flat_map (fun f => match f with WithName n => [n] | _ => [] end) ff in
  (match types with [] => true | _ => existsb (ItemType_eqb ti.1) types end)
  && forallb (String.eqb (item_Name ti.2)) names.

Definition scripted_answer (sc : Script) (q : Query) (w : nat) : Ans q :=
  match q return Ans q with
  | Registry_List r ff =>
      match sc_registry_error sc with
      | Some e => Err e
      | None => Ok (filter (fun ti => passes ff ti) (sc_registry sc r)).*2
      end
  | Registry_Get r name ff =>
      match sc_registry_error sc with
      | Some e => Err e
      | None =>
          match filter (fun ti => passes (WithName name :: ff) ti)
                  (sc_registry sc r) with
          | ti :: _ => Ok ti.2
          | [] => Err os_ErrNotExist
          end
      end
  | Server_Is s st => String.eqb (sc_status sc (srv_ID s)) st
  | Server_NeedsRestart _ => sc_needs_restart sc
  | Service_Is s st => String.eqb (sc_status sc (svc_ID s)) st
  | runtime_IsFork => sc_is_fork sc
  | runtime_IsRequired name _ => sc_required sc name
  | os_Getpid => sc_pid sc
  | os_Getppid => sc_ppid sc
  end.

Definition scripted_perform (sc : Script) (a : Action) (w : nat) : Resp a * nat :=
  (match a return Resp a with
   | registry_OpenRegistry _ url => Ok (RegistryAt url)
   | runtime_Init _ _ => tt
   | server_OpenServer _ scheme =>
       match sc_fails sc a with
       | Some e => Err e
       | None => Ok {| srv_addr := 1; srv_ID := scheme |}
       end
   | util_CreateNode =>
       {| item_ID := "node"; item_Name := "node";
          item_Metadata := ∅;
          item_As_service := None; item_As_server := None;
          item_As_registry_Service := false;
          item_As_registry_Server := false |}
   | Registry_Register _ _ _ => sc_fails sc a
   | Registry_Deregister _ _ _ => sc_fails sc a
   | Registry_RegisterEdge _ _ _ _ _ => sc_fails sc a
   | Server_Serve _ _ => sc_fails sc a
   | Server_Stop _ _ => sc_fails sc a
   | Service_Start _ => sc_fails sc a
   | Service_OnServe _ => sc_fails sc a
   | Service_Stop _ _ => sc_fails sc a
   | config_WatchMap _ => Ok (sc_config sc)
   | Broker_Subscribe _ => sc_fails sc a
   end, S w).

Definition scripted (sc : Script) : Env nat :=
  {| answer := scripted_answer sc; perform := scripted_perform sc |}.

(** *** Concrete inputs *)

Definition ex_MetaStatusKey : string := "status".
Definition ex_Stopped : Status := "Stopped".
Definition ex_Ready : Status := "Ready".
Definition ex_NodeMetaPID : string := "pid".

Definition ex_ctx : Context :=
  {| ctx_server_registry := None; ctx_service_registry := None |}.

Definition ex_shared : Registry := RegistryAt "mem://shared".
Definition ex_source : Registry := RegistryAt "mem://source".

Definition ex_grpc : Server := {| srv_addr := 1; srv_ID := "grpc" |}.

Definition ex_service (name : string) (srv : option Server)
    (fork autoStart unique autoRestart : bool) : Service :=
  {| svc_ID := name; svc_Name := name; svc_ServerScheme := "grpc";
     svc_Options :=
       {| opt_Context := ex_ctx; opt_Server := srv; opt_Tags := [];
          opt_Fork := fork; opt_AutoStart := autoStart;
          opt_ForceRegister := false; opt_Unique := unique;
          opt_AutoRestart := autoRestart |} |}.

(** Services attached to the server grpc: A restarts on configuration
    changes, B does not, D is unique. *)
Definition ex_A : Service := ex_service "A" (Some ex_grpc) false false false true.
Definition ex_B : Service := ex_service "B" (Some ex_grpc) false false false false.
Definition ex_D : Service := ex_service "D" (Some ex_grpc) false false true false.

(** Candidates of the source registry, not attached yet: A0 is plain, C0 is
    fork-only. *)
Definition ex_A0 : Service := ex_service "A" None false false false false.
Definition ex_C0 : Service := ex_service "C" None true false false false.

(** The registry item of an in-memory service, of an in-memory server, and
    of a service that runs in another process. *)
Definition ex_service_item (s : Service) (status : Status) : ItemType * Item :=
  (ItemType_SERVICE,
   {| item_ID := svc_ID s; item_Name := svc_Name s;
      item_Metadata := {[ ex_MetaStatusKey := status ]};
      item_As_service := Some s; item_As_server := None;
      item_As_registry_Service := true; item_As_registry_Server := false |}).

Definition ex_server_item (s : Server) (status : Status) : ItemType * Item :=
  (ItemType_SERVER,
   {| item_ID := srv_ID s; item_Name := srv_ID s;
      item_Metadata := {[ ex_MetaStatusKey := status ]};
      item_As_service := None; item_As_server := Some s;
      item_As_registry_Service := false; item_As_registry_Server := true |}).

Definition ex_remote_item (id name : string) (status : Status)
    : ItemType * Item :=
  (ItemType_SERVICE,
   {| item_ID := id; item_Name := name;
      item_Metadata := {[ ex_MetaStatusKey := status ]};
      item_As_service := None; item_As_server := None;
      item_As_registry_Service := true; item_As_registry_Server := false |}).

Definition ex_root : Item :=
  {| item_ID := "root"; item_Name := "root"; item_Metadata := ∅;
     item_As_service := None; item_As_server := None;
     item_As_registry_Service := false; item_As_registry_Server := false |}.

Definition ex_manager (rt : option Item) (svcs : list Service)
    (srvs : list Server) : manager :=
  {| ns := "main"; srcUrl := "mem://source"; reg := ex_shared; root := rt;
     rootIsFork := false; serveOptions := [CallerOption "ambient"];
     servers := list_to_map (map (fun s => (srv_ID s, s)) srvs);
     services := list_to_map (map (fun s => (svc_ID s, s)) svcs) |}.

Definition ex_message (cmd itemName : string) : Message :=
  {| RawData := (<["command" := cmd]> {["itemName" := itemName]}, None) |}.

(** A quiet run: the shared registry holds [shared], the source registry
    [source]; every server and service reports [status]; nothing fails. *)
Definition ex_script (shared source : list (ItemType * Item))
    (status : string -> Status) (needs_restart : bool)
    (fails : Action -> error) : Script :=
  {| sc_registry := fun r => if decide (r = ex_shared) then shared else source;
     sc_registry_error := None;
     sc_status := status;
     sc_needs_restart := needs_restart;
     sc_is_fork := false;
     sc_required := fun _ => true;
     sc_pid := 4242;
     sc_ppid := 1;
     sc_fails := fails;
     sc_config := [{| Key := "A"; Value := "changed" |}] |}.

Definition ex_no_failure (a : Action) : error := None.

(** The manager of a process serving A, B and D on grpc, all Ready *)
Definition ex_m : manager := ex_manager (Some ex_root) [ex_A; ex_B; ex_D] [ex_grpc].

Definition ex_running : Script :=
  ex_script [ex_server_item ex_grpc ex_Ready; ex_service_item ex_A ex_Ready;
             ex_service_item ex_B ex_Ready; ex_service_item ex_D ex_Stopped]
    [] (fun _ => ex_Ready) false ex_no_failure.

(** The same process when [Service.Start] fails *)
Definition ex_start_fails : Script :=
  ex_script [ex_server_item ex_grpc ex_Ready; ex_service_item ex_A ex_Ready]
    [] (fun _ => ex_Ready) false
    (fun a => match a with
              | Service_Start _ => Some (fmt_Errorf "start failed")
              | _ => None
              end).

(** The same process when [Service.Stop] fails *)
Definition ex_stop_fails : Script :=
  ex_script [ex_server_item ex_grpc ex_Ready; ex_service_item ex_A ex_Ready]
    [] (fun _ => ex_Ready) false
    (fun a => match a with
              | Service_Stop _ _ => Some (fmt_Errorf "stop failed")
              | _ => None
              end).


Definition ex_stopped_needs_restart : Script :=
  ex_script [ex_server_item ex_grpc ex_Stopped] [] (fun _ => ex_Stopped) true
    ex_no_failure.

(** Before the servers are started: everything is Stopped here, and another
    process shows an instance of D that is Starting. *)
Definition ex_D_starting_elsewhere : Script :=
  ex_script [ex_service_item ex_D ex_Stopped;
             ex_remote_item "D@other" "D" "Starting"]
    [] (fun _ => ex_Stopped) false ex_no_failure.

(** The registry is unreachable. *)
Definition ex_registry_down : Script :=
  {| sc_registry := fun _ => [];
     sc_registry_error := Some (fmt_Errorf "registry unreachable");
     sc_status := fun _ => ex_Stopped;
     sc_needs_restart := false;
     sc_is_fork := false;
     sc_required := fun _ => true;
     sc_pid := 4242;
     sc_ppid := 1;
     sc_fails := ex_no_failure;
     sc_config := [] |}.

(** Planning: the source registry offers A0 and the fork-only C0. *)
Definition ex_planning : Script :=
  ex_script [] [ex_service_item ex_C0 ex_Stopped; ex_service_item ex_A0 ex_Stopped]
    (fun _ => ex_Stopped) false ex_no_failure.

(** Planning after the registration of the root node failed *)
Definition ex_planning_no_root : Script :=
  ex_script [] [ex_service_item ex_A0 ex_Stopped]
    (fun _ => ex_Stopped) false
    (fun a => match a with
              | Registry_Register _ (PlainItem _) _ =>
                  Some (fmt_Errorf "registry unavailable")
              | _ => None
              end).

(** A fresh manager, with and without a root *)
Definition ex_fresh : manager := ex_manager (Some ex_root) [] [].
Definition ex_rootless : manager := ex_manager None [] [].

(** *** More concrete inputs *)

(** Z runs in another process only, and the manager retains no Z; and the
    registry's projection of A, which the manager retains *)
Definition ex_remote_only : Script :=
  ex_script [ex_remote_item "Z@other" "Z" ex_Ready] [] (fun _ => ex_Ready) false
    ex_no_failure.

Definition ex_projection : Script :=
  ex_script [ex_remote_item "A" "A" ex_Ready] [] (fun _ => ex_Ready) false
    ex_no_failure.

(** A service with AutoRestart that was never placed on a server *)
Definition ex_N : Service := ex_service "N" None false false false true.

Definition ex_unplaced : Script :=
  ex_script [ex_service_item ex_N ex_Ready] [] (fun _ => ex_Ready) false
    ex_no_failure.

(** An instance of D in another process that carries no status metadata *)
Definition ex_bare_item : ItemType * Item :=
  (ItemType_SERVICE,
   {| item_ID := "D@other"; item_Name := "D"; item_Metadata := ∅;
      item_As_service := None; item_As_server := None;
      item_As_registry_Service := true; item_As_registry_Server := false |}).

Definition ex_bare : Script :=
  ex_script [ex_bare_item] [] (fun _ => ex_Stopped) false ex_no_failure.

(** Nodes of the registry: the process has pid 4242, its parent pid 1. *)
Definition ex_node (id pid : string) : ItemType * Item :=
  (ItemType_NODE,
   {| item_ID := id; item_Name := id;
      item_Metadata := {[ ex_NodeMetaPID := pid ]};
      item_As_service := None; item_As_server := None;
      item_As_registry_Service := false; item_As_registry_Server := false |}).

Definition ex_own_node : Script :=
  ex_script [ex_node "parent" "1"; ex_node "mine" "4242"] []
    (fun _ => ex_Stopped) false ex_no_failure.

Definition ex_forked : Script :=
  ex_script [ex_node "parent" "1"] [] (fun _ => ex_Stopped) false ex_no_failure.

(** Planning: the source registry offers A0 and B0, both on the scheme grpc. *)
Definition ex_B0 : Service := ex_service "B" None false false false false.

Definition ex_planning_two : Script :=
  ex_script [] [ex_service_item ex_A0 ex_Stopped; ex_service_item ex_B0 ex_Stopped]
    (fun _ => ex_Stopped) false ex_no_failure.

(** The running process when the configuration of B, which has no
    AutoRestart, and of an unknown key change *)
Definition ex_quiet_config : Script :=
  {| sc_registry := sc_registry ex_running;
     sc_registry_error := None;
     sc_status := fun _ => ex_Ready;
     sc_needs_restart := false;
     sc_is_fork := false;
     sc_required := fun _ => true;
     sc_pid := 4242;
     sc_ppid := 1;
     sc_fails := ex_no_failure;
     sc_config := [{| Key := "B"; Value := "changed" |};
                   {| Key := "nope"; Value := "changed" |}] |}.

(** An environment whose source registry does not open, and one whose
    configuration cannot be watched *)
Definition ex_closed : Env nat :=
  {| answer := scripted_answer ex_running;
     perform := fun a w =>
       match a return Resp a * nat with
       | registry_OpenRegistry _ _ => (Err (fmt_Errorf "no such registry"), S w)
       | a' => scripted_perform ex_running a' w
       end |}.

Definition ex_unwatched : Env nat :=
  {| answer := scripted_answer ex_running;
     perform := fun a w =>
       match a return Resp a * nat with
       | config_WatchMap _ => (Err (fmt_Errorf "no configuration"), S w)
       | a' => scripted_perform ex_running a' w
       end |}.

(** Before the servers are started: grpc is Stopped and retained. *)
Definition ex_all_stopped : Script :=
  ex_script [ex_server_item ex_grpc ex_Stopped; ex_service_item ex_D ex_Stopped;
             ex_remote_item "D@other" "D" "Starting"]
    [] (fun _ => ex_Stopped) false ex_no_failure.

(** The server grpc is Ready while none of its services is. *)
Definition ex_idle : Script :=
  ex_script [ex_server_item ex_grpc ex_Ready] []
    (fun id => if String.eqb id "grpc" then ex_Ready else ex_Stopped) false
    ex_no_failure.

(** The registry lists, under the name A, the projection of an instance of
    another process before the in-memory service A. *)
Definition ex_projection_first : Script :=
  ex_script [ex_remote_item "A@other" "A" ex_Ready; ex_service_item ex_A ex_Ready]
    [] (fun _ => ex_Ready) false ex_no_failure.

(** The registry lists two nodes of this process, around one of the
    parent. *)
Definition ex_two_own_nodes : Script :=
  ex_script [ex_node "mine" "4242"; ex_node "parent" "1";
             ex_node "mine too" "4242"] []
    (fun _ => ex_Stopped) false ex_no_failure.

(** Planning when the registration of B0 fails, and the manager that Init
    leaves then *)
Definition ex_register_B_fails : Script :=
  ex_script [] [ex_service_item ex_A0 ex_Stopped; ex_service_item ex_B0 ex_Stopped]
    (fun _ => ex_Stopped) false
    (fun a => match a with
              | Registry_Register _ (ServiceItem s) _ =>
                  if String.eqb (svc_ID s) "B"
                  then Some (fmt_Errorf "registration failed") else None
              | _ => None
              end).

Definition ex_half_planned : manager :=
  (match (run (scripted ex_register_B_fails) (Init ex_fresh ex_ctx) 0).1.1 with
   | Done (_, m') => m'
   | Panicked _ => ex_fresh
   end).

(** The manager after Init has placed A0 and B0 *)
Definition ex_planned : manager :=
  (match (run (scripted ex_planning_two) (Init ex_fresh ex_ctx) 0).1.1 with
   | Done (_, m') => m'
   | Panicked _ => ex_fresh
   end).

(** ** Properties *)

Section Properties.

Context (MetaStatusKey NodeMetaPID : string) (StatusStopped StatusReady : Status).
Context {W : Type} (E : Env W).

Local Abbreviation regRunningService := (regRunningService MetaStatusKey StatusStopped).
Local Abbreviation servicesRunningOn := (servicesRunningOn StatusReady).
Local Abbreviation startServer := (startServer MetaStatusKey StatusStopped).
Local Abbreviation stopServer := (stopServer StatusReady).
Local Abbreviation startService := (startService StatusStopped StatusReady).
Local Abbreviation StopAll := (StopAll StatusReady).
Local Abbreviation NewManager := (NewManager NodeMetaPID).
Local Abbreviation WatchServicesConfigs_event :=
  (WatchServicesConfigs_event StatusStopped StatusReady).
Local Abbreviation WatchBroker_handler :=
  (WatchBroker_handler MetaStatusKey StatusStopped StatusReady).

(** Rewrites the run of a single call into its response, state and log. *)
Ltac run_call a w :=
  let H := fresh in
  pose proof (run_call_ret E a w) as H;
  first [rewrite H | cbv [Resp] in H; rewrite H]; clear H.

(** Rewrites the run of a query followed by a continuation. *)
Ltac run_ask q :=
  let H := fresh in
  pose proof (fun B => @run_ask W E B q) as H;
  first [rewrite H | cbv [Ans] in H; rewrite H]; clear H.

(** *** The broker handler *)

(** Once the item resolves to a service, the handler is the switch over the
    command. *)
Lemma WatchBroker_handler_service m message s svc w :
  answer E (lookup_of m message) w = Ok s ->
  (WatchBroker_resolve m s).1 = Some svc ->
  run E (WatchBroker_handler m message) w
  = run E (let cmd := command_of message in
           if String.eqb cmd CommandStart then startService m svc
           else if String.eqb cmd CommandStop then stopService m svc []
           else if String.eqb cmd CommandRestart then
             let* er := stopService m svc [] in
             match er with
             | Some e => Ret (Some e)
             | None => startService m svc
             end
           else Ret (Some (fmt_Errorf ("unsupported command " ++ cmd)))) w.
Proof.
  intros Hget Hres. unfold WatchBroker_handler.
  rewrite run_ask. fold (itemName_of message). fold (lookup_of m message).
  rewrite Hget. destruct (WatchBroker_resolve m s) as [svc' srv].
  simpl in Hres. subst svc'. reflexivity.
Qed.

(** Once the item resolves to a server and to no service, the handler
    returns nil and calls nothing. *)
Lemma WatchBroker_handler_server m message s srv w :
  answer E (lookup_of m message) w = Ok s ->
  WatchBroker_resolve m s = (None, Some srv) ->
  run E (WatchBroker_handler m message) w = (Done None, w, []).
Proof.
  intros Hget Hres. unfold WatchBroker_handler.
  rewrite run_ask. fold (itemName_of message). fold (lookup_of m message).
  rewrite Hget, Hres. reflexivity.
Qed.

(** The same under every schedule. *)
Lemma WatchBroker_handler_service_sees m message s svc w l o :
  answer E (lookup_of m message) w = Ok s ->
  (WatchBroker_resolve m s).1 = Some svc ->
  sees E (WatchBroker_handler m message) w l o ->
  sees E (let cmd := command_of message in
          if String.eqb cmd CommandStart then startService m svc
          else if String.eqb cmd CommandStop then stopService m svc []
          else if String.eqb cmd CommandRestart then
            let* er := stopService m svc [] in
            match er with
            | Some e => Ret (Some e)
            | None => startService m svc
            end
          else Ret (Some (fmt_Errorf ("unsupported command " ++ cmd)))) w l o.
Proof.
  intros Hget Hres. unfold WatchBroker_handler.
  cbn [bind ask sees]. fold (itemName_of message). fold (lookup_of m message).
  rewrite Hget. destruct (WatchBroker_resolve m s) as [svc' srv].
  simpl in Hres. subst svc'. done.
Qed.

(** C6. A restart command for an item that resolves to a service runs
    stopService and then startService, in that order; when stopService
    returns an error, the handler returns that error and nothing of
    startService runs.  This holds under every schedule: the stop of the
    service is the first call, and what follows it, when it returned no
    error, is a behaviour of startService from the state the stop left. *)
Theorem WatchBroker_service_restart m message s svc w :
  command_of message = CommandRestart ->
  answer E (lookup_of m message) w = Ok s ->
  (WatchBroker_resolve m s).1 = Some svc ->
  run E (WatchBroker_handler m message) w
  = andThen (run E (stopService m svc []) w)
      (fun er w1 =>
         match er with
         | Some e => (Done (Some e), w1, [])
         | None => run E (startService m svc) w1
         end)
  /\ (forall e, (perform E (Service_Stop svc []) w).1 = Some e ->
      run E (WatchBroker_handler m message) w
      = (Done (Some e), (perform E (Service_Stop svc []) w).2,
         [Call (Service_Stop svc [])]))
  /\ every_schedule E (WatchBroker_handler m message) w
       (fun o log =>
          match perform E (Service_Stop svc []) w with
          | (Some e, _) => o = Done (Some e) /\ log = [Call (Service_Stop svc [])]
          | (None, w1) =>
              exists l2, log = Call (Service_Stop svc []) :: l2
                         /\ sees E (startService m svc) w1 l2 o
          end).
Proof.
  intros Hcmd Hget Hres. split; [|split].
  - rewrite (WatchBroker_handler_service _ _ _ _ _ Hget Hres), Hcmd.
    cbn [String.eqb CommandRestart CommandStart CommandStop Ascii.eqb Bool.eqb].
    rewrite run_bind. unfold stopService.
    run_call (Service_Stop svc []) w.
    by destruct (perform E (Service_Stop svc []) w) as [[e|] w1].
  - rewrite (WatchBroker_handler_service _ _ _ _ _ Hget Hres), Hcmd.
    cbn [String.eqb CommandRestart CommandStart CommandStop Ascii.eqb Bool.eqb].
    rewrite run_bind. unfold stopService.
    run_call (Service_Stop svc []) w.
    destruct (perform E (Service_Stop svc []) w) as [er w1]; simpl.
    by intros e ->.
  - apply every_schedule_sees. intros l o H.
    apply (WatchBroker_handler_service_sees _ _ _ _ _ _ _ Hget Hres) in H.
    rewrite Hcmd in H.
    cbn [String.eqb CommandRestart CommandStart CommandStop Ascii.eqb Bool.eqb] in H.
    unfold stopService in H. cbn [bind call sees] in H.
    destruct H as (l' & -> & H).
    destruct (perform E (Service_Stop svc []) w) as [[e|] w1]; cbn [fst snd] in H.
    + by destruct H as [-> ->].
    + by exists l'.
Qed.

(** A command that is none of start, stop and restart, for an item that
    resolves to a service, is answered with the error
    [unsupported command <cmd>]. *)
Lemma WatchBroker_service_unsupported m message s svc w :
  command_of message <> CommandStart ->
  command_of message <> CommandStop ->
  command_of message <> CommandRestart ->
  answer E (lookup_of m message) w = Ok s ->
  (WatchBroker_resolve m s).1 = Some svc ->
  run E (WatchBroker_handler m message) w
  = (Done (Some (fmt_Errorf ("unsupported command " ++ command_of message))), w, []).
Proof.
  intros H1 H2 H3 Hget Hres.
  rewrite (WatchBroker_handler_service _ _ _ _ _ Hget Hres).
  apply String.eqb_neq in H1, H2, H3. cbv zeta. rewrite H1, H2, H3. reflexivity.
Qed.

(** C1. A start, stop or restart command for an item that resolves to a
    server (and to no service) is dropped: the handler returns nil, and
    neither startServer nor stopServer runs, no call reaches the server. *)
Theorem WatchBroker_server_command_dropped m message s srv w :
  command_of message = CommandStart \/ command_of message = CommandStop
    \/ command_of message = CommandRestart ->
  answer E (lookup_of m message) w = Ok s ->
  WatchBroker_resolve m s = (None, Some srv) ->
  run E (WatchBroker_handler m message) w = (Done None, w, []).
Proof. intros _. apply WatchBroker_handler_server. Qed.

(** C5. A command that is none of start, stop and restart, for an item that
    resolves to a server (and to no service), is answered with nil and not
    with the error [unsupported command <cmd>]. *)
Theorem WatchBroker_server_unsupported_nil m message s srv w :
  command_of message <> CommandStart ->
  command_of message <> CommandStop ->
  command_of message <> CommandRestart ->
  answer E (lookup_of m message) w = Ok s ->
  WatchBroker_resolve m s = (None, Some srv) ->
  run E (WatchBroker_handler m message) w = (Done None, w, [])
  /\ run E (WatchBroker_handler m message) w
     <> (Done (Some (fmt_Errorf ("unsupported command " ++ command_of message))), w, []).
Proof.
  intros _ _ _ Hget Hres.
  rewrite (WatchBroker_handler_server _ _ _ _ _ Hget Hres). split; [done|].
  intros [=].
Qed.

(** *** Loops that leave the state of the environment as it is *)

Fixpoint fold_log {A S : Type} (g : A -> S -> S * Log) (l : list A) (s : S)
    : S * Log :=
  match l with
  | [] => (s, [])
  | x :: l' =>
      let '(s1, l1) := g x s in
      let '(s2, l2) := fold_log g l' s1 in
      (s2, l1 ++ l2)
  end.

Lemma run_range_fixed {A S : Type} (body : A -> S -> Prog S)
    (g : A -> S -> S * Log) (l : list A) (s : S) w :
  (forall x s, run E (body x s) w = (Done (g x s).1, w, (g x s).2)) ->
  run E (range_ l body s) w = (Done (fold_log g l s).1, w, (fold_log g l s).2).
Proof.
  intros Hbody. revert s. induction l as [|x l IH]; intros s; simpl; [done|].
  rewrite run_bind, Hbody. simpl. rewrite IH.
  destruct (g x s) as [s1 l1]; simpl.
  by destruct (fold_log g l s1) as [s2 l2].
Qed.

Lemma fold_log_filter {A : Type} (P : A -> Prop) `{!forall x, Decision (P x)}
    (l : list A) (acc : list A) :
  fold_log (fun x ss => (if decide (P x) then ss ++ [x] else ss, [])) l acc
  = (acc ++ filter P l, []).
Proof.
  revert acc. induction l as [|x l IH]; intros acc; simpl.
  - by rewrite app_nil_r.
  - rewrite IH, filter_cons. destruct (decide (P x)); [|done].
    by rewrite <- app_assoc.
Qed.

(** *** servicesRunningOn, serversWithStatus, regRunningService *)

(** The services of the manager attached to [server] that report Ready in
    state [w] *)
Definition running_on (m : manager) (server : option Server) (w : W)
    : list Service :=
  filter (fun svc => svc_Server svc = server
                     /\ answer E (Service_Is svc StatusReady) w = true)
    (values (services m)).

Lemma servicesRunningOn_run m server w :
  run E (servicesRunningOn m server) w = (Done (running_on m server w), w, []).
Proof.
  unfold servicesRunningOn, running_on.
  rewrite (run_range_fixed _
    (fun svc ss =>
       (if decide (svc_Server svc = server
                   /\ answer E (Service_Is svc StatusReady) w = true)
        then ss ++ [svc] else ss, []))).
  - by rewrite (fold_log_filter _ _ []).
  - intros svc ss. simpl. destruct (decide (svc_Server svc = server)) as [Hs|Hs].
    + cbn [run bind ask].
      destruct (answer E (Service_Is svc StatusReady) w) eqn:Hr;
        destruct (decide _) as [[??]|Hn]; try done.
      exfalso. by apply Hn.
    + destruct (decide _) as [[??]|Hn]; done.
Qed.

(** The servers of the manager that report [status] in state [w] *)
Definition with_status (m : manager) (status : Status) (w : W) : list Server :=
  filter (fun srv => answer E (Server_Is srv status) w = true)
    (values (servers m)).

Lemma serversWithStatus_run m status w :
  run E (serversWithStatus m status) w = (Done (with_status m status w), w, []).
Proof.
  unfold serversWithStatus, with_status.
  rewrite (run_range_fixed _
    (fun srv ss =>
       (if decide (answer E (Server_Is srv status) w = true)
        then ss ++ [srv] else ss, []))).
  - by rewrite (fold_log_filter _ _ []).
  - intros srv ss. cbn [run bind ask].
    destruct (answer E (Server_Is srv status) w) eqn:Hr;
      destruct (decide _); done.
Qed.

(** What the registry lists for the services named [name], nil when the
    call fails *)
Definition listed (m : manager) (name : string) (w : W) : list Item :=
  match answer E (Registry_List (reg m)
                    [WithType ItemType_SERVICE; WithName name]) w with
  | Ok ll => ll
  | Err _ => []
  end.

(** Some listed item of that name has a status other than Stopped. *)
Definition incumbent (m : manager) (name : string) (w : W) : bool :=
  existsb (fun l => negb (String.eqb (index (item_Metadata l) MetaStatusKey)
                            StatusStopped))
    (listed m name w).

Lemma regRunningService_run m name w :
  run E (regRunningService m name) w = (Done (incumbent m name w), w, []).
Proof. reflexivity. Qed.

(** *** stopServer *)

(** The calls that stop the services [ss], in the log *)
Definition stops (ss : list Service) (oo : list RegisterOption) : Log :=
  map (fun sv => Call (Service_Stop sv oo)) ss.

(** Stopping the services [ss] one after the other from state [w]: the first
    error and the state reached *)
Fixpoint stop_each (ss : list Service) (oo : list RegisterOption)
    (first : error) (w : W) : error * W :=
  match ss with
  | [] => (first, w)
  | sv :: ss' =>
      let '(e, w1) := perform E (Service_Stop sv oo) w in
      stop_each ss' oo (first_error first e) w1
  end.

Lemma run_tasks_stopService m ss oo first w :
  run_tasks E (map (fun sv => stopService m sv oo) ss) first w
  = (Done (stop_each ss oo first w).1, (stop_each ss oo first w).2, stops ss oo).
Proof.
  revert first w. induction ss as [|sv ss IH]; intros first w; simpl; [done|].
  destruct (perform E (Service_Stop sv oo) w) as [e w1]; simpl.
  by rewrite IH.
Qed.

Lemma stopServer_run m s oo w :
  run E (stopServer m (Some s) oo) w
  = let ss := running_on m (Some s) w in
    let '(er, w1) := stop_each ss oo None w in
    match er with
    | Some e => (Done (Some e), w1, stops ss oo)
    | None =>
        let '(r, w2) := perform E (Server_Stop s oo) w1 in
        (Done r, w2, stops ss oo ++ [Call (Server_Stop s oo)])
    end.
Proof.
  unfold stopServer. rewrite run_bind, servicesRunningOn_run. cbn [andThen].
  rewrite run_bind, run_errgroup, run_tasks_stopService. cbn [andThen app].
  destruct (stop_each _ _ _ _) as [[e|] w1]; cbn [fst snd].
  - cbn [run]. by rewrite app_nil_r.
  - run_call (Server_Stop s oo) w1.
    by destruct (perform E (Server_Stop s oo) w1) as [r w2].
Qed.

(** **** stopServer under every schedule *)

(** The services that one pass of servicesRunningOn keeps, when each
    [Service.Is] is answered in some state of the environment *)
Inductive picked (server : option Server) : list Service -> list Service -> Prop :=
| picked_nil : picked server [] []
| picked_skip sv l ss :
    svc_Server sv <> server
    \/ (exists w, answer E (Service_Is sv StatusReady) w = false) ->
    picked server l ss -> picked server (sv :: l) ss
| picked_take sv l ss :
    svc_Server sv = server ->
    (exists w, answer E (Service_Is sv StatusReady) w = true) ->
    picked server l ss -> picked server (sv :: l) (sv :: ss).

Lemma any_servicesRunningOn m server l o :
  any E (servicesRunningOn m server) l o ->
  l = [] /\ exists ss, o = Done ss /\ picked server (values (services m)) ss.
Proof.
  unfold servicesRunningOn.
  assert (forall svcs acc,
    any E (range_ svcs
             (fun svc ss =>
                if decide (svc_Server svc = server) then
                  let* b := ask (Service_Is svc StatusReady) in
                  if b then Ret (ss ++ [svc]) else Ret ss
                else Ret ss) acc) l o ->
    l = [] /\ exists ss, o = Done (acc ++ ss) /\ picked server svcs ss) as H.
  { induction svcs as [|sv svcs IH]; intros acc; cbn [range_].
    - intros [-> ->]. split; [done|]. exists []. rewrite app_nil_r.
      split; [done|constructor].
    - destruct (decide (svc_Server sv = server)) as [Hs|Hs].
      + cbn [bind ask any]. intros [w H].
        destruct (answer E (Service_Is sv StatusReady) w) eqn:Hr; cbn [bind] in H;
          apply IH in H as (-> & ss & -> & Hp); (split; [done|]).
        * exists (sv :: ss). rewrite <- app_assoc. split; [done|].
          apply picked_take; [done|by exists w|done].
        * exists ss. split; [done|]. apply picked_skip; [|done].
          right. by exists w.
      + cbn [bind]. intros H. apply IH in H as (-> & ss & -> & Hp).
        split; [done|]. exists ss. split; [done|].
        apply picked_skip; [by left|done]. }
  intros Hany. apply H in Hany as (-> & ss & -> & Hp). by eauto.
Qed.

Lemma any_stopService m sv oo l o :
  any E (stopService m sv oo) l o ->
  l = [Call (Service_Stop sv oo)]
  /\ exists w, o = Done (perform E (Service_Stop sv oo) w).1.
Proof.
  cbn. intros (w & l' & -> & -> & ->). split; [done|]. by exists w.
Qed.

Lemma all_done_stopService m ss oo ls es :
  all_done E ((fun sv => stopService m sv oo) <$> ss) ls es ->
  concat ls = stops ss oo
  /\ Forall2 (fun sv e => exists w, e = (perform E (Service_Stop sv oo) w).1) ss es.
Proof.
  unfold all_done. revert ls es. induction ss as [|sv ss IH]; intros ls es H.
  - inversion H. by split; [|constructor].
  - cbn [fmap list_fmap] in H.
    apply Forall3_cons_inv_l in H as (l0 & ls0 & e0 & es0 & -> & -> & Ht & Hts).
    apply any_stopService in Ht as [-> [w [= ->]]].
    destruct (IH _ _ Hts) as [Hlog Hes]. split.
    + cbn. by f_equal.
    + constructor; [by exists w|done].
Qed.

Lemma no_crash_stopService m ss oo :
  ~ may_crash E ((fun sv => stopService m sv oo) <$> ss).
Proof.
  unfold may_crash. rewrite Exists_exists.
  intros (t & Hin & l & msg & Ht).
  apply list_elem_of_fmap in Hin as (sv & -> & _).
  by apply any_stopService in Ht as [_ [w [=]]].
Qed.

(** The log of one stopServer under any schedule: the stops of the services
    [ss], each once and in some order; the server's own Stop follows them,
    and its result is the outcome, unless the Stop of one of these services
    returned an error, in the state it was called in: that error is then the
    outcome and the server is not stopped. *)
Definition stopServer_shape (s : Server) (oo : list RegisterOption)
    (ss : list Service) (l : Log) (o : Outcome error) : Prop :=
  exists l1,
    l1 ≡ₚ stops ss oo
    /\ ((exists sv w e,
           sv ∈ ss
           /\ (perform E (Service_Stop sv oo) w).1 = Some e
           /\ o = Done (Some e) /\ l = l1)
        \/ (exists w,
              o = Done (perform E (Server_Stop s oo) w).1
              /\ l = l1 ++ [Call (Server_Stop s oo)])).

(** The error that the group of the stops yields is the error that the
    Stop of one of the services returned. *)
Definition stop_error (ss : list Service) (oo : list RegisterOption)
    (e : error) : Prop :=
  match e with
  | Some x => exists sv w, sv ∈ ss /\ (perform E (Service_Stop sv oo) w).1 = Some x
  | None => True
  end.

Lemma any_stop_group {R : Type} m ss oo (k : error -> Prog R) l o :
  any E (Wait ((fun sv => stopService m sv oo) <$> ss) k) l o ->
  exists l1 e l2,
    l = l1 ++ l2 /\ l1 ≡ₚ stops ss oo /\ stop_error ss oo e /\ any E (k e) l2 o.
Proof.
  rewrite any_Wait.
  intros [(ls & es & l1 & e & l2 & -> & Hall & Hint & Hjoin & Hk)|[Hc _]].
  - destruct (all_done_stopService m ss oo ls es Hall) as [Hlog Hes].
    exists l1, e, l2. split; [done|]. split; [|split; [|done]].
    + apply interleave_Permutation in Hint. by rewrite <- Hlog.
    + destruct e as [x|]; [|done]. cbn in Hjoin.
      apply list_elem_of_lookup in Hjoin as [i Hi].
      destruct (Forall2_lookup_r _ _ _ _ _ Hes Hi) as (sv & Hsv & w & Hw).
      exists sv, w. split; [by eapply list_elem_of_lookup_2|done].
  - by apply no_crash_stopService in Hc.
Qed.

Lemma stopServer_tail s oo ss (e : error) l1 l o :
  l1 ≡ₚ stops ss oo ->
  stop_error ss oo e ->
  any E (match e with
         | Some e' => Ret (Some e')
         | None => call (Server_Stop s oo)
         end) l o ->
  stopServer_shape s oo ss (l1 ++ l) o.
Proof.
  intros Hperm He H. exists l1. split; [done|]. destruct e as [e'|]; cbn in H.
  - destruct H as [-> ->]. destruct He as (sv & w & Hin & Hw).
    left. exists sv, w, e'. by rewrite app_nil_r.
  - destruct H as (w & l' & -> & -> & ->). right. by exists w.
Qed.

Lemma any_stopServer m s oo l o :
  any E (stopServer m (Some s) oo) l o ->
  exists ss, picked (Some s) (values (services m)) ss
             /\ stopServer_shape s oo ss l o.
Proof.
  unfold stopServer. intros H.
  apply any_bind_inv in H as [(ss & l1 & l2 & -> & H1 & H2)|(msg & -> & H)].
  2:{ by apply any_servicesRunningOn in H as (_ & ss & [=] & _). }
  apply any_servicesRunningOn in H1 as (-> & ss' & [= <-] & Hp).
  exists ss. split; [done|]. cbn [app].
  change (map (fun sv => stopService m sv oo) ss)
    with ((fun sv => stopService m sv oo) <$> ss) in H2.
  cbn [bind errgroup] in H2.
  apply any_stop_group in H2 as (l1 & e & l3 & -> & Hperm & He & Hk).
  by eapply stopServer_tail.
Qed.


(** *** startServer *)

(** The services of the manager whose options name [srv] as their server *)
Definition attached (m : manager) (srv : option Server) : list Service :=
  filter (fun svc => opt_Server (svc_Options svc) = srv) (values (services m)).

(** A service is deferred to the arbiter when it is Unique and some listed
    item of its name has a status other than Stopped. *)
Definition deferred (m : manager) (w : W) (svc : Service) : bool :=
  opt_Unique (svc_Options svc) && incumbent m (svc_Name svc) w.

Definition arbiters (ss : list Service) : Log :=
  map (fun svc => Spawn (go_WatchUniqueNeedsStart svc)) ss.

Lemma fold_log_startServer (P : Service -> Prop) `{!forall x, Decision (P x)}
    (d : Service -> bool) (l : list Service) (opts : list ServeOption) :
  fold_log (fun svc opts =>
              if decide (P svc) then
                if d svc then (opts, [Spawn (go_WatchUniqueNeedsStart svc)])
                else (opts ++ serviceServeOptions svc, [])
              else (opts, [])) l opts
  = (opts ++ flat_map serviceServeOptions
               (filter (fun svc => d svc = false) (filter P l)),
     arbiters (filter (fun svc => d svc = true) (filter P l))).
Proof.
  revert opts. induction l as [|x l IH]; intros opts; cbn [fold_log].
  - by rewrite app_nil_r.
  - rewrite (filter_cons P). destruct (decide (P x)) as [HP|HP].
    + rewrite !filter_cons. destruct (d x) eqn:Hd; rewrite IH.
      * destruct (decide (true = false)); [done|].
        destruct (decide (true = true)); done.
      * destruct (decide (false = false)); [|done].
        destruct (decide (false = true)); [done|].
        cbn [flat_map app]. by rewrite <- app_assoc.
    + by rewrite IH.
Qed.

Lemma startServer_run m s oo w :
  run E (startServer m (Some s) oo) w
  = let opts := oo ++ flat_map serviceServeOptions
                        (filter (fun svc => deferred m w svc = false)
                           (attached m (Some s))) in
    let '(r, w1) := perform E (Server_Serve s opts) w in
    (Done r, w1,
     arbiters (filter (fun svc => deferred m w svc = true) (attached m (Some s)))
     ++ [Call (Server_Serve s opts)]).
Proof.
  unfold startServer. rewrite run_bind.
  rewrite (run_range_fixed _
    (fun svc opts =>
       if decide (opt_Server (svc_Options svc) = Some s) then
         if deferred m w svc then (opts, [Spawn (go_WatchUniqueNeedsStart svc)])
         else (opts ++ serviceServeOptions svc, [])
       else (opts, []))).
  - rewrite (fold_log_startServer _ (deferred m w)). cbn [andThen fst snd].
    fold (attached m (Some s)). cbv zeta.
    match goal with |- context [Server_Serve s ?o] => generalize o end.
    intros opts. run_call (Server_Serve s opts) w.
    by destruct (perform E (Server_Serve s opts) w) as [r w1].
  - intros svc opts. destruct (decide _) as [Ha|Ha]; [|done].
    unfold deferred. rewrite run_bind.
    destruct (opt_Unique (svc_Options svc)); cbn [andb].
    + rewrite regRunningService_run. cbn [andThen].
      by destruct (incumbent m (svc_Name svc) w).
    + done.
Qed.

(** The registry shows, among the services named [name], an item whose
    status satisfies [P]. *)
Definition shows (m : manager) (name : string) (w : W) (P : Status -> Prop)
    : Prop :=
  exists l, l ∈ listed m name w /\ P (index (item_Metadata l) MetaStatusKey).

Lemma incumbent_shows m name w :
  incumbent m name w = true <-> shows m name w (fun st => st <> StatusStopped).
Proof.
  unfold incumbent, shows. rewrite existsb_exists. split.
  - intros (l & Hin & Hst). exists l. split; [by apply list_elem_of_In|].
    apply negb_true_iff, String.eqb_neq in Hst. done.
  - intros (l & Hin & Hst). exists l. split; [by apply list_elem_of_In|].
    by apply negb_true_iff, String.eqb_neq.
Qed.

(** What startServer does with one service [svc], given the condition [cond]
    under which the service is to be deferred: the run ends with the call
    to Serve, whose options are [oo] followed by hooks; an arbiter for [svc]
    is spawned before it exactly when [cond] holds; and the two hooks of
    [svc] are left out of the options exactly when [cond] holds. *)
Definition defers_iff (cond : Prop) (m : manager) (s : Server)
    (oo : list ServeOption) (w : W) (svc : Service) : Prop :=
  exists hooks r w1 log,
    run E (startServer m (Some s) oo) w
    = (Done r, w1, log ++ [Call (Server_Serve s (oo ++ hooks))])
    /\ (Spawn (go_WatchUniqueNeedsStart svc) ∈ log <-> cond)
    /\ (((WithBeforeServe (Service_Start_fn svc) ∉ hooks)
         /\ (WithAfterServe (Service_OnServe_fn svc) ∉ hooks)) <-> cond).

Lemma elem_of_arbiters svc ss :
  Spawn (go_WatchUniqueNeedsStart svc) ∈ arbiters ss <-> svc ∈ ss.
Proof.
  unfold arbiters. rewrite !list_elem_of_In, in_map_iff. split.
  - by intros (x & [= ->] & Hx).
  - intros Hx. by exists svc.
Qed.

Lemma elem_of_hooks_before svc ss :
  WithBeforeServe (Service_Start_fn svc) ∈ flat_map serviceServeOptions ss
  <-> svc ∈ ss.
Proof.
  rewrite !list_elem_of_In, in_flat_map. split.
  - intros (x & Hx & [[= ->]|[[=]|[]]]). done.
  - intros Hx. exists svc. split; [done|]. by left.
Qed.

Lemma elem_of_hooks_after svc ss :
  WithAfterServe (Service_OnServe_fn svc) ∈ flat_map serviceServeOptions ss
  <-> svc ∈ ss.
Proof.
  rewrite !list_elem_of_In, in_flat_map. split.
  - intros (x & Hx & [[=]|[[= ->]|[]]]). done.
  - intros Hx. exists svc. split; [done|]. right. by left.
Qed.

Lemma elem_of_values {V : Type} (mp : gmap string V) (id : string) (v : V) :
  mp !! id = Some v -> v ∈ values mp.
Proof.
  intros H. unfold values. apply list_elem_of_fmap. exists (id, v).
  split; [done|]. by apply elem_of_map_to_list.
Qed.

(** C3 (as the code has it). For every retained service attached to the
    server being started, startServer leaves the service's before/after
    hooks out of the Serve options and spawns an arbiter if and only if the
    service is Unique and the registry lists, under the service's name, an
    item whose status is not Stopped. *)
Theorem startServer_defers_unique m s oo w id svc :
  services m !! id = Some svc ->
  opt_Server (svc_Options svc) = Some s ->
  defers_iff (opt_Unique (svc_Options svc) = true
              /\ shows m (svc_Name svc) w (fun st => st <> StatusStopped))
    m s oo w svc.
Proof.
  intros Hin Hsrv.
  assert (svc ∈ attached m (Some s)) as Hatt.
  { apply list_elem_of_filter. split; [done|]. by eapply elem_of_values. }
  assert (deferred m w svc = true <->
          opt_Unique (svc_Options svc) = true
          /\ shows m (svc_Name svc) w (fun st => st <> StatusStopped)) as Hd.
  { unfold deferred. by rewrite andb_true_iff, incumbent_shows. }
  unfold defers_iff. rewrite startServer_run. cbv zeta.
  destruct (perform E _ w) as [r w1].
  eexists _, r, w1, _. split; [reflexivity|].
  rewrite elem_of_arbiters, elem_of_hooks_before, elem_of_hooks_after.
  rewrite !list_elem_of_filter, <- Hd.
  destruct (deferred m w svc); intuition congruence.
Qed.

(** C3 as the spec words it: the service is deferred if and only if it is
    Unique and the registry shows a Ready instance of that name. *)
Definition startServer_as_stated (m : manager) (s : Server)
    (oo : list ServeOption) (w : W) (svc : Service) : Prop :=
  defers_iff (opt_Unique (svc_Options svc) = true
              /\ shows m (svc_Name svc) w (fun st => st = StatusReady))
    m s oo w svc.

(** C10. When the registry's List call fails, regRunningService reports
    that nothing is running, whatever the name; startServer then defers no
    service: no arbiter is spawned, and the hooks of every attached service,
    Unique or not, are in the options of the one call it makes, Serve. *)
Theorem regRunningService_list_error m w :
  (forall name, exists e,
     answer E (Registry_List (reg m)
                 [WithType ItemType_SERVICE; WithName name]) w = Err e) ->
  (forall name, run E (regRunningService m name) w = (Done false, w, []))
  /\ (forall s oo,
       run E (startServer m (Some s) oo) w
       = let opts := oo ++ flat_map serviceServeOptions (attached m (Some s)) in
         let '(r, w1) := perform E (Server_Serve s opts) w in
         (Done r, w1, [Call (Server_Serve s opts)])).
Proof.
  intros Herr.
  assert (forall name, incumbent m name w = false) as Hinc.
  { intros name. unfold incumbent, listed. by destruct (Herr name) as [e ->]. }
  split.
  - intros name. by rewrite regRunningService_run, Hinc.
  - intros s oo. rewrite startServer_run.
    assert (forall svc, deferred m w svc = false) as Hd.
    { intros svc. unfold deferred. by rewrite Hinc, andb_false_r. }
    assert (forall l : list Service,
              filter (fun svc => deferred m w svc = false) l = l) as ->.
    { induction l as [|x l IH]; [done|].
      rewrite filter_cons_True by apply Hd. by rewrite IH. }
    assert (forall l : list Service,
              filter (fun svc => deferred m w svc = true) l = []) as ->.
    { induction l as [|x l IH]; [done|].
      rewrite filter_cons_False; [done|]. by rewrite Hd. }
    done.
Qed.

(** *** startService *)

(** The first branch: the server is Stopped. *)
Lemma startService_stopped m svc s w :
  opt_Server (svc_Options svc) = Some s ->
  answer E (Server_Is s StatusStopped) w = true ->
  run E (startService m svc) w
  = let opts := serveOptions m ++ serviceServeOptions svc in
    let '(r, w1) := perform E (Server_Serve s opts) w in
    (Done r, w1, [Call (Server_Serve s opts)]).
Proof.
  intros Hs Hst. unfold startService. rewrite Hs.
  run_ask (Server_Is s StatusStopped). rewrite Hst. cbv beta iota zeta. run_call (Server_Serve s (serveOptions m ++ serviceServeOptions svc)) w.
  by destruct (perform E _ w) as [r w1].
Qed.







(** *** StopAll *)

(** The log of one stopServer: the stops of the services [ss], followed by
    the stop of the server unless a service failed to stop. *)
Definition stopServer_log (s : Server) (oo : list RegisterOption)
    (ss : list Service) (w : W) (l : Log) : Prop :=
  match (stop_each ss oo None w).1 with
  | Some _ => l = stops ss oo
  | None => l = stops ss oo ++ [Call (Server_Stop s oo)]
  end.

Lemma run_tasks_stopServer m (srvs : list Server) oo first w :
  exists er w1 logs,
    run_tasks E (map (fun sr => stopServer m (Some sr) oo) srvs) first w
    = (Done er, w1, concat logs)
    /\ Forall2 (fun sr l =>
                  exists w', stopServer_log sr oo (running_on m (Some sr) w') w' l)
         srvs logs.
Proof.
  revert first w. induction srvs as [|sr srvs IH]; intros first w.
  - exists first, w, []. split; [done|]. constructor.
  - cbn [map run_tasks]. rewrite stopServer_run. cbv zeta.
    assert (exists e w1 l,
      (let '(er, w1) := stop_each (running_on m (Some sr) w) oo None w in
       match er with
       | Some e => (Done (Some e), w1, stops (running_on m (Some sr) w) oo)
       | None =>
           let '(r, w2) := perform E (Server_Stop sr oo) w1 in
           (Done r, w2, stops (running_on m (Some sr) w) oo
                        ++ [Call (Server_Stop sr oo)])
       end) = (Done e, w1, l)
      /\ stopServer_log sr oo (running_on m (Some sr) w) w l)
      as (e & w1 & l & -> & Hl).
    { unfold stopServer_log.
      destruct (stop_each _ _ _ _) as [[e|] w1]; cbn [fst].
      - by eexists _, _, _.
      - destruct (perform E (Server_Stop sr oo) w1) as [r w2].
        by eexists _, _, _. }
    cbn [andThen].
    destruct (IH (first_error first e) w1) as (er & w2 & logs & -> & Hlogs).
    exists er, w2, (l :: logs). split; [done|].
    constructor; [by exists w|done].
Qed.

(** StopAll when the goroutines run one after the other: one log segment
    per retained server that reports Ready; within a segment the Ready
    services of that server are stopped first and the server's own Stop
    comes after them (it is left out when a service failed to stop); once
    all of them have returned, whatever their errors, the root node is
    deregistered, and that call ends the run. *)
Lemma StopAll_in_order m w :
  exists logs w1,
    run E (StopAll m) w
    = (Done tt, w1,
       concat logs
       ++ [Call (Registry_Deregister (reg m) (root m) [WithRegisterFailFast])])
    /\ Forall2 (fun sr l =>
                  exists w',
                    stopServer_log sr [WithDeregisterFull]
                      (running_on m (Some sr) w') w' l)
         (with_status m StatusReady w) logs.
Proof.
  unfold StopAll. rewrite run_bind, serversWithStatus_run. cbn [andThen].
  rewrite run_bind, run_errgroup.
  destruct (run_tasks_stopServer m (with_status m StatusReady w)
              [WithDeregisterFull] None w) as (er & w1 & logs & -> & Hlogs).
  cbn [andThen]. rewrite run_bind.
  run_call (Registry_Deregister (reg m) (root m) [WithRegisterFailFast]) w1.
  destruct (perform E _ w1) as [r w2]. cbn [andThen fst snd run].
  exists logs, w2. rewrite app_nil_r. done.
Qed.

(** **** StopAll under every schedule *)

Lemma no_crash_stopServer m (srvs : list Server) oo :
  ~ may_crash E ((fun sr => stopServer m (Some sr) oo) <$> srvs).
Proof.
  unfold may_crash. rewrite Exists_exists.
  intros (t & Hin & l & msg & Ht).
  apply list_elem_of_fmap in Hin as (sr & -> & _).
  apply any_stopServer in Ht
    as (ss & _ & l1 & _ & [(sv & w & e & _ & _ & [=] & _)|(w & [=] & _)]).
Qed.

Lemma all_done_stopServer m (srvs : list Server) oo ls es :
  all_done E ((fun sr => stopServer m (Some sr) oo) <$> srvs) ls es ->
  Forall2 (fun sr l =>
             exists ss o, picked (Some sr) (values (services m)) ss
                          /\ stopServer_shape sr oo ss l o) srvs ls.
Proof.
  unfold all_done. revert ls es. induction srvs as [|sr srvs IH]; intros ls es H.
  - inversion H. constructor.
  - cbn [fmap list_fmap] in H.
    apply Forall3_cons_inv_l in H as (l0 & ls0 & e0 & es0 & -> & -> & Ht & Hts).
    constructor; [|by eapply IH].
    apply any_stopServer in Ht as (ss & Hp & Hshape). by exists ss, (Done e0).
Qed.

(** What StopAll may log and return from state [w], whatever the schedule:
    an interleaving of one log per retained server that reports Ready in
    [w], each of the shape [stopServer_shape] for the services of that
    server that report Ready; then, as the last call, the deregistration of
    the root node. *)
Definition StopAll_shape (m : manager) (w : W) (o : Outcome unit) (log : Log)
    : Prop :=
  o = Done tt
  /\ exists logs l1,
      log = l1 ++ [Call (Registry_Deregister (reg m) (root m)
                          [WithRegisterFailFast])]
      /\ interleave logs l1
      /\ Forall2
           (fun sr l =>
              exists ss o',
                picked (Some sr) (values (services m)) ss
                /\ stopServer_shape sr [WithDeregisterFull] ss l o')
           (with_status m StatusReady w) logs.

Lemma sees_StopAll m w log o : sees E (StopAll m) w log o -> StopAll_shape m w o log.
Proof.
  intros Hex.
  unfold StopAll in Hex. apply sees_bind_wait_free in Hex.
  2:{ apply wait_free_range_. intros sr ss. cbn. intros b. by destruct b. }
  rewrite serversWithStatus_run in Hex. destruct Hex as (l2 & -> & H).
  change (map (fun sr => stopServer m (Some sr) [WithDeregisterFull])
            (with_status m StatusReady w))
    with ((fun sr => stopServer m (Some sr) [WithDeregisterFull])
            <$> with_status m StatusReady w) in H.
  cbn [bind errgroup sees app] in H. apply any_Wait in H.
  destruct H as [(ls & es & l1 & e & l3 & -> & Hall & Hint & Hjoin & Hk)|[Hc _]].
  2:{ by apply no_crash_stopServer in Hc. }
  cbn in Hk. destruct Hk as (w1 & l' & -> & -> & ->).
  split; [done|]. exists ls, l1. split; [done|]. split; [done|].
  by eapply all_done_stopServer.
Qed.

(** When no Stop of a service can fail, the log of a stopServer ends with
    the Stop of its server. *)
Lemma stopServer_shape_stops s oo ss l o :
  (forall sv w, (perform E (Service_Stop sv oo) w).1 = None) ->
  stopServer_shape s oo ss l o ->
  exists l1, l1 ≡ₚ stops ss oo /\ l = l1 ++ [Call (Server_Stop s oo)].
Proof.
  intros Hok (l1 & Hperm & [(sv & w & e & _ & Hfail & _)|(w & _ & ->)]).
  - by rewrite Hok in Hfail.
  - by exists l1.
Qed.

(** C8. StopAll runs stopServer for every retained server that reports
    Ready, waits for all of them, and then deregisters the root node,
    whatever their errors; the deregistration is the last call.
    - When the goroutines run one after the other, the log has one segment
      per such server: the stops of its Ready services, followed by the
      server's own Stop exactly when none of these stops failed.
    - Under every schedule of the goroutines StopAll ends, and its log is an
      interleaving of one log per such server: the stops of its Ready
      services, each once and in some order, and after all of them the
      server's own Stop, which is left out only if the Stop of one of these
      services returned an error (in the state that goroutine saw, which
      depends on what the other goroutines had done).
    - In particular, when no Stop of a service fails, the Stop of every such
      server is in the log, after the stops of its services. *)
Theorem StopAll_every_schedule m w :
  (exists logs w1,
     run E (StopAll m) w
     = (Done tt, w1,
        concat logs
        ++ [Call (Registry_Deregister (reg m) (root m) [WithRegisterFailFast])])
     /\ Forall2 (fun sr l =>
                   exists w',
                     stopServer_log sr [WithDeregisterFull]
                       (running_on m (Some sr) w') w' l)
          (with_status m StatusReady w) logs)
  /\ every_schedule E (StopAll m) w (StopAll_shape m w)
  /\ ((forall sv w', (perform E (Service_Stop sv [WithDeregisterFull]) w').1 = None) ->
      every_schedule E (StopAll m) w
        (fun o log =>
           exists logs l1,
             log = l1 ++ [Call (Registry_Deregister (reg m) (root m)
                                 [WithRegisterFailFast])]
             /\ interleave logs l1
             /\ Forall2
                  (fun sr l =>
                     exists ss l0,
                       picked (Some sr) (values (services m)) ss
                       /\ l0 ≡ₚ stops ss [WithDeregisterFull]
                       /\ l = l0 ++ [Call (Server_Stop sr [WithDeregisterFull])])
                  (with_status m StatusReady w) logs)).
Proof.
  split; [apply StopAll_in_order|]. split.
  - apply every_schedule_sees. intros log o. apply sees_StopAll.
  - intros Hok. apply every_schedule_sees. intros log o Hex.
    apply sees_StopAll in Hex as (_ & logs & l1 & -> & Hint & Hlogs).
    exists logs, l1. split; [done|]. split; [done|].
    eapply Forall2_impl; [exact Hlogs|].
    intros sr l (ss & o' & Hp & Hshape). cbn beta in *.
    destruct (stopServer_shape_stops _ _ _ _ _ Hok Hshape) as (l0 & Hperm & ->).
    by exists ss, l0.
Qed.

(** *** The configuration watch *)

(** C9 (as the code has it).  Of the items that the shared registry lists
    under the key of an event, the manager looks at the first one only.
    For a key-value event of the services watch: when the first item the
    shared registry lists under the key downcasts to a service with
    AutoRestart set, the manager runs stopService and, only if that
    returned no error, startService on it (under every schedule: the stop
    of the service is the first call, and what follows it, when it returned
    no error, is a behaviour of startService from the state the stop left);
    when the registry lists nothing (or fails), or that item is no service,
    or AutoRestart is unset, the event leads to no call. *)
Theorem WatchServicesConfigs_event_restarts m kv w :
  (forall ss0 rest svc,
     answer E (Registry_List (reg m) [WithName (Key kv)]) w = Ok (ss0 :: rest) ->
     item_As_service ss0 = Some svc ->
     opt_AutoRestart (svc_Options svc) = true ->
     run E (WatchServicesConfigs_event m kv) w
     = andThen (run E (stopService m svc []) w)
         (fun er w1 =>
            match er with
            | Some _ => (Done tt, w1, [])
            | None =>
                andThen (run E (startService m svc) w1)
                  (fun _ w2 => (Done tt, w2, []))
            end)
     /\ every_schedule E (WatchServicesConfigs_event m kv) w
          (fun o log =>
             match perform E (Service_Stop svc []) w with
             | (Some _, _) => o = Done tt /\ log = [Call (Service_Stop svc [])]
             | (None, w1) =>
                 exists l2 o',
                   log = Call (Service_Stop svc []) :: l2
                   /\ sees E (startService m svc) w1 l2 o'
                   /\ o = match o' with
                          | Done _ => Done tt
                          | Panicked msg => Panicked msg
                          end
             end))
  /\ ((exists e, answer E (Registry_List (reg m) [WithName (Key kv)]) w = Err e)
      \/ answer E (Registry_List (reg m) [WithName (Key kv)]) w = Ok []
      \/ (exists ss0 rest,
            answer E (Registry_List (reg m) [WithName (Key kv)]) w
            = Ok (ss0 :: rest)
            /\ (item_As_service ss0 = None
                \/ exists svc, item_As_service ss0 = Some svc
                     /\ opt_AutoRestart (svc_Options svc) = false)) ->
      run E (WatchServicesConfigs_event m kv) w = (Done tt, w, [])).
Proof.
  split.
  - intros ss0 rest svc Hlist Hsvc Hauto. split.
    + unfold WatchServicesConfigs_event.
      run_ask (Registry_List (reg m) [WithName (Key kv)]).
      rewrite Hlist, Hsvc, Hauto.
      rewrite run_bind. unfold stopService. run_call (Service_Stop svc []) w.
      destruct (perform E (Service_Stop svc []) w) as [[e|] w1];
        cbn [andThen fst snd]; [done|].
      by rewrite run_bind.
    + apply every_schedule_sees. intros l o.
      unfold WatchServicesConfigs_event. cbn [bind ask sees].
      rewrite Hlist, Hsvc, Hauto. unfold stopService. cbn [bind call sees].
      intros (l' & -> & H).
      destruct (perform E (Service_Stop svc []) w) as [[e|] w1]; cbn [fst snd] in H.
      * by destruct H as [-> ->].
      * apply sees_bind_inv in H as [(r & l1 & l2 & -> & H1 & H2)|(msg & -> & H1)].
        -- cbn in H2. destruct H2 as [-> ->]. exists l1, (Done r).
           by rewrite app_nil_r.
        -- by exists l', (Panicked msg).
  - unfold WatchServicesConfigs_event.
    run_ask (Registry_List (reg m) [WithName (Key kv)]).
    intros [[e ->]|[->|(ss0 & rest & -> & [->|(svc & -> & ->)])]]; done.
Qed.

(** Modelled from the spec: C9 as the spec words it.  If the shared
    registry yields, under the key of the event, an item that downcasts to a
    service with AutoRestart set, the event stops that service: its log
    begins with the Stop of the service. *)
Definition WatchServicesConfigs_as_stated (m : manager) (kv : KV) (w : W)
    : Prop :=
  forall ss it svc,
    answer E (Registry_List (reg m) [WithName (Key kv)]) w = Ok ss ->
    it ∈ ss ->
    item_As_service it = Some svc ->
    opt_AutoRestart (svc_Options svc) = true ->
    exists l,
      (run E (WatchServicesConfigs_event m kv) w).2
      = Call (Service_Stop svc []) :: l.

(** *** Init *)

(** A fork-only service: Fork is set and AutoStart is not. *)
Definition fork_only (s : Service) : Prop :=
  opt_Fork (svc_Options s) = true /\ opt_AutoStart (svc_Options s) = false.

(** An invariant rule for range loops: [I] holds of the loop state, [Q] of
    what a [return] carries, and [L] of every logged event. *)
Definition range_post {S V : Type} (I : S -> Prop) (Q : V -> Prop)
    (L : Event -> Prop) (r : Outcome (Flow S V) * W * Log) : Prop :=
  Forall L r.2
  /\ match r.1.1 with
     | Done (Continue s) => I s
     | Done (Return v) => Q v
     | Panicked _ => True
     end.

Lemma run_range_inv {A S V : Type} (I : S -> Prop) (Q : V -> Prop)
    (L : Event -> Prop) (body : A -> S -> Prog (Flow S V)) (l : list A) :
  (forall x s w, I s -> range_post I Q L (run E (body x s) w)) ->
  forall s w, I s ->
  forall r, run E (range l body s) w = r -> range_post I Q L r.
Proof.
  intros Hbody. intros s w Hs r <-. revert s w Hs.
  induction l as [|x l IH]; intros s w Hs.
  - split; [constructor|done].
  - cbn [range]. rewrite run_bind.
    destruct (Hbody x s w Hs) as [HL HI].
    destruct (run E (body x s) w) as [[[[s'|v]|msg] w1] l1];
      cbn [andThen fst snd] in *.
    + destruct (IH s' w1 HI) as [HL' HI'].
      destruct (run E (range l body s') w1) as [[o w2] l2].
      split; [by apply Forall_app|done].
    + cbn [run]. rewrite app_nil_r. done.
    + done.
Qed.

Lemma run_range__log {A S : Type} (L : Event -> Prop)
    (body : A -> S -> Prog S) (l : list A) :
  (forall x s w, Forall L (run E (body x s) w).2) ->
  forall s w r, run E (range_ l body s) w = r -> Forall L r.2.
Proof.
  intros Hbody. intros s w r <-. revert s w.
  induction l as [|x l IH]; intros s w.
  - constructor.
  - cbn [range_]. rewrite run_bind. specialize (Hbody x s w).
    destruct (run E (body x s) w) as [[[s'|msg] w1] l1];
      cbn [andThen fst snd] in *; [|done].
    specialize (IH s' w1).
    destruct (run E (range_ l body s') w1) as [[o w2] l2].
    by apply Forall_app_2.
Qed.

(** No call of the event registers a service with Fork set. *)
Definition registers_no_fork (ev : Event) : Prop :=
  forall r s oo,
    ev = Call (Registry_Register r (ServiceItem s) oo) ->
    opt_Fork (svc_Options s) = false.

(** Every service of [svcs] was in the manager before, or has Fork unset. *)
Definition places_no_fork (m : manager) (svcs : gmap string Service) : Prop :=
  forall id s,
    svcs !! id = Some s ->
    services m !! id = Some s \/ opt_Fork (svc_Options s) = false.

Lemma Init_candidate_no_fork m ss st w :
  (forall w', answer E runtime_IsFork w' = false) ->
  places_no_fork m st.2 ->
  range_post (fun st => places_no_fork m st.2)
    (fun v => places_no_fork m v.2) registers_no_fork
    (run E (Init_candidate m ss st) w).
Proof.
  intros Hfork Hst. destruct st as [byScheme svcs]. unfold Init_candidate.
  assert (forall l : Log, l = [] -> Forall registers_no_fork l) as Hnil.
  { intros l ->. constructor. }
  destruct (item_As_service ss) as [s|]; [|by split; [apply Hnil|]].
  destruct (opt_Fork (svc_Options s)) eqn:HF.
  - (* Fork is set: mustFork, the candidate is never registered *)
    rewrite run_bind. run_ask runtime_IsFork. rewrite Hfork.
    cbn [run andThen negb]. run_ask (runtime_IsRequired (svc_Name s) (opt_Tags (svc_Options s))).
    cbn [set_Context svc_Options svc_Name opt_Tags opt_ForceRegister
         opt_AutoStart svc_ServerScheme opt_Context].
    destruct (_ && _); [by split; [apply Hnil|]|].
    destruct (_ && _); [by split; [apply Hnil|]|].
    rewrite run_bind.
    destruct (byScheme !! svc_ServerScheme s) as [sr|].
    + cbn [run andThen]. by split; [apply Hnil|].
    + rewrite run_bind.
      match goal with |- context [call ?a] => run_call a w;
        destruct (perform E a w) as [[srv|er] w1] end;
        cbn [andThen fst snd run app].
      * split; [|done]. constructor; [|constructor]. intros r s' oo [=].
      * split; [|done]. constructor; [|constructor]. intros r s' oo [=].
  - (* Fork is unset *)
    cbn [run bind andThen]. run_ask (runtime_IsRequired (svc_Name s) (opt_Tags (svc_Options s))).
    cbn [set_Context svc_Options svc_Name opt_Tags opt_ForceRegister
         opt_AutoStart svc_ServerScheme opt_Context].
    destruct (_ && _); [by split; [apply Hnil|]|].
    cbn [andb]. rewrite run_bind.
    assert (forall (bs : gmap string Server) (s' : Service) w1,
      opt_Fork (svc_Options s') = false ->
      range_post (fun st => places_no_fork m st.2)
        (fun v => places_no_fork m v.2) registers_no_fork
        (run E
           (let* rid := root_ID m in
            let* er := call (Registry_Register (reg m) (ServiceItem s')
                               [WithEdgeTo rid "Node" ∅]) in
            match er with
            | Some e => Ret (Return (Some e, svcs))
            | None => Ret (Continue (bs, <[svc_ID s' := s']> svcs))
            end) w1)) as Hreg.
    { intros bs s' w1 HF'. unfold root_ID. destruct (root m) as [rt|].
      - cbn [bind]. rewrite run_bind.
        run_call (Registry_Register (reg m) (ServiceItem s')
                    [WithEdgeTo (item_ID rt) "Node" ∅]) w1.
        destruct (perform E _ w1) as [[e|] w2]; cbn [andThen fst snd run app].
        + split; [|done]. constructor; [|constructor].
          intros r s0 oo [= _ -> _]. done.
        + split.
          * constructor; [|constructor]. intros r s0 oo [= _ -> _]. done.
          * intros id s0. cbn [snd]. rewrite lookup_insert.
            destruct (decide _); [intros [= <-]; by right|apply Hst].
      - cbn [bind run]. by split; [apply Hnil|]. }
    destruct (byScheme !! svc_ServerScheme s) as [sr|].
    + cbn [run andThen app].
      specialize (Hreg byScheme
                    (set_Server (set_Context s (servicecontext_WithRegistry
                       (opt_Context (svc_Options s)) (reg m))) sr) w HF).
      by destruct (run E _ w) as [[o w2] l2].
    + rewrite run_bind.
      match goal with |- context [call ?a] => run_call a w;
        destruct (perform E a w) as [[srv|er] w1] end;
        cbn [andThen fst snd run app].
      * specialize (Hreg (<[svc_ServerScheme s:=srv]> byScheme)
                      (set_Server (set_Context s (servicecontext_WithRegistry
                         (opt_Context (svc_Options s)) (reg m))) srv) w1 HF).
        destruct (run E _ w1) as [[o w2] l2]. destruct Hreg as [HL HI].
        split; [|done]. constructor; [|done]. intros r s' oo [=].
      * split; [|done]. constructor; [|constructor]. intros r s' oo [=].
Qed.

Lemma Init_server_log m sr srvs w :
  Forall registers_no_fork (run E (Init_server m sr srvs) w).2.
Proof.
  unfold Init_server, root_ID. destruct (root m) as [rt|].
  - cbn [bind]. rewrite run_bind.
    run_call (Registry_RegisterEdge (reg m) (item_ID rt) (srv_ID sr) "Node" ∅) w.
    destruct (perform E _ w) as [e w1]. cbn [andThen fst snd run app].
    constructor; [|constructor]. intros r s oo [=].
  - constructor.
Qed.

Lemma Init_no_fork m ctx w :
  (forall w', answer E runtime_IsFork w' = false) ->
  Forall registers_no_fork (run E (Init m ctx) w).2
  /\ (forall er m', (run E (Init m ctx) w).1.1 = Done (er, m') ->
      places_no_fork m (services m')).
Proof.
  intros Hfork. unfold Init. rewrite run_bind.
  run_call (registry_OpenRegistry ctx (srcUrl m)) w.
  destruct (perform E _ w) as [[srcReg|err] w1]; cbn [andThen fst snd run app].
  2:{ split.
      - constructor; [|constructor]. intros r s oo [=].
      - intros er m' [= _ <-] id s Hs. by left. }
  cbv zeta. rewrite run_bind.
  match goal with |- context [call ?a] => run_call a w1;
    destruct (perform E a w1) as [u w2] end.
  cbn [andThen fst snd app].
  run_ask (Registry_List srcReg [WithType ItemType_SERVICE]).
  destruct (answer E _ w2) as [candidates|err].
  2:{ cbn [run]. split.
      - repeat (constructor; [intros r s oo [=]|]). constructor.
      - intros er m' [= _ <-] id s Hs. by left. }
  rewrite run_bind.
  destruct (run E (range candidates (Init_candidate m) (∅, services m)) w2)
    as [[[[[byScheme svcs]|[er svcs]]|msg] w3] l3] eqn:Hrun;
    destruct (run_range_inv (fun st => places_no_fork m st.2)
                (fun v => places_no_fork m v.2) registers_no_fork
                (Init_candidate m) candidates
                (fun x s w Hs => Init_candidate_no_fork m x s w Hfork Hs)
                (∅, services m) w2 ltac:(intros id s Hs; by left) _ Hrun)
      as [HL HI];
    cbn [andThen fst snd] in *.
  - destruct (root (set_services m svcs)) as [rt|].
    + rewrite run_bind.
      destruct (run E (range_ _ _ _) w3) as [[[srvs|msg] w4] l4] eqn:Hrun';
        pose proof (run_range__log registers_no_fork
                    (Init_server (set_services m svcs)) (values byScheme)
                    (fun x s w => Init_server_log (set_services m svcs) x s w)
                    (servers (set_services m svcs)) w3 _ Hrun') as HL';
        cbn [andThen fst snd run] in *.
      * rewrite app_nil_r. split.
        -- repeat (constructor; [intros r s oo [=]|]). by apply Forall_app_2.
        -- by intros er m' [= _ <-].
      * split; [|done].
        repeat (constructor; [intros r s oo [=]|]). by apply Forall_app_2.
    + cbn [run]. rewrite app_nil_r. split.
      * by repeat (constructor; [intros r s oo [=]|]).
      * by intros er m' [= _ <-].
  - cbn [run]. rewrite app_nil_r. split.
    + by repeat (constructor; [intros r s oo [=]|]).
    + by intros er' m' [= _ <-].
  - split; [|done]. by repeat (constructor; [intros r s oo [=]|]).
Qed.

(** C7. In a process that is not a fork (IsFork() is false), Init never
    registers a service with Fork set and AutoStart unset, and never places
    one in the manager's service map. *)
Theorem Init_drops_fork_only m ctx w :
  (forall w', answer E runtime_IsFork w' = false) ->
  (forall r s oo,
     Call (Registry_Register r (ServiceItem s) oo) ∈ (run E (Init m ctx) w).2 ->
     ~ fork_only s)
  /\ (forall er m' id s,
      (run E (Init m ctx) w).1.1 = Done (er, m') ->
      services m' !! id = Some s ->
      services m !! id = Some s \/ ~ fork_only s).
Proof.
  intros Hfork. destruct (Init_no_fork m ctx w Hfork) as [HL HI]. split.
  - intros r s oo Hin [HF _]. rewrite Forall_forall in HL.
    specialize (HL _ Hin r s oo eq_refl). congruence.
  - intros er m' id s Hrun Hs. destruct (HI er m' Hrun id s Hs) as [?|HF].
    + by left.
    + right. intros [HF' _]. congruence.
Qed.

(** When no node of the registry is this process's (here: the List call
    fails, or lists nothing) and the registration of the fresh node fails,
    NewManager leaves the root unset. *)
Lemma NewManager_register_error rg url namespace w node e w1 w2 :
  (exists e', answer E (Registry_List rg [WithType ItemType_NODE]) w = Err e')
  \/ answer E (Registry_List rg [WithType ItemType_NODE]) w = Ok [] ->
  perform E util_CreateNode w = (node, w1) ->
  perform E (Registry_Register rg (PlainItem node) []) w1 = (Some e, w2) ->
  exists m,
    run E (NewManager rg url namespace) w
    = (Done m, w2,
       [Call util_CreateNode; Call (Registry_Register rg (PlainItem node) [])])
    /\ root m = None /\ reg m = rg /\ srcUrl m = url
    /\ services m = ∅ /\ servers m = ∅.
Proof.
  intros Hlist Hnode Hreg. unfold NewManager. cbv zeta.
  run_ask (Registry_List rg [WithType ItemType_NODE]).
  assert (run E (match answer E (Registry_List rg [WithType ItemType_NODE]) w with
                 | Ok ii => range_ ii (NewManager_detect NodeMetaPID) (None, None)
                 | Err _ => Ret (None, None)
                 end) w = (Done (None, None), w, [])) as Hcp.
  { by destruct Hlist as [[e' ->]| ->]. }
  rewrite run_bind, Hcp. cbn [andThen].
  rewrite run_bind. run_call util_CreateNode w. rewrite Hnode.
  cbn [andThen fst snd]. rewrite run_bind.
  run_call (Registry_Register rg (PlainItem node) []) w1. rewrite Hreg.
  cbn [andThen fst snd run app]. eexists. split; [reflexivity|]. done.
Qed.

(** C2. With the root unset, Init panics on the first candidate it would
    retain: a candidate that is a service, without Fork, required for the
    namespace or with ForceRegister, and whose server opens.  The nil root
    is dereferenced to build the edge of the registration; Init's own guard
    on a nil root only covers the edges of the servers, later. *)
Theorem Init_panics_without_root m ctx w srcReg w1 (u : unit) w2 c rest s srv w3 :
  root m = None ->
  perform E (registry_OpenRegistry ctx (srcUrl m)) w = (Ok srcReg, w1) ->
  perform E (runtime_Init
               (servicecontext_WithRegistry
                  (servercontext_WithRegistry ctx (reg m)) srcReg) (ns m)) w1
  = (u, w2) ->
  answer E (Registry_List srcReg [WithType ItemType_SERVICE]) w2
  = Ok (c :: rest) ->
  item_As_service c = Some s ->
  opt_Fork (svc_Options s) = false ->
  answer E (runtime_IsRequired (svc_Name s) (opt_Tags (svc_Options s))) w2 = true
  \/ opt_ForceRegister (svc_Options s) = true ->
  perform E (server_OpenServer
               (servicecontext_WithRegistry (opt_Context (svc_Options s)) (reg m))
               (svc_ServerScheme s)) w2
  = (Ok srv, w3) ->
  run E (Init m ctx) w
  = (Panicked nil_dereference, w3,
     [Call (registry_OpenRegistry ctx (srcUrl m));
      Call (runtime_Init
              (servicecontext_WithRegistry
                 (servercontext_WithRegistry ctx (reg m)) srcReg) (ns m));
      Call (server_OpenServer
              (servicecontext_WithRegistry (opt_Context (svc_Options s)) (reg m))
              (svc_ServerScheme s))]).
Proof.
  intros Hroot Hopen Hinit Hlist Hsvc HF Hreq Hsrv.
  unfold Init. rewrite run_bind.
  run_call (registry_OpenRegistry ctx (srcUrl m)) w. rewrite Hopen.
  cbn [andThen fst snd]. cbv zeta. rewrite run_bind.
  match goal with |- context [call ?a] => run_call a w1 end. rewrite Hinit.
  cbn [andThen fst snd].
  run_ask (Registry_List srcReg [WithType ItemType_SERVICE]). rewrite Hlist.
  rewrite run_bind. cbn [range]. rewrite run_bind.
  assert (run E (Init_candidate m c (∅, services m)) w2
          = (Panicked nil_dereference, w3,
             [Call (server_OpenServer
                      (servicecontext_WithRegistry (opt_Context (svc_Options s))
                         (reg m)) (svc_ServerScheme s))])) as ->; [|done].
  unfold Init_candidate. rewrite Hsvc, HF. cbn [bind].
  run_ask (runtime_IsRequired (svc_Name s) (opt_Tags (svc_Options s))).
  cbn [set_Context svc_Options svc_Name opt_Tags opt_ForceRegister
       opt_AutoStart svc_ServerScheme opt_Context].
  assert (negb (answer E (runtime_IsRequired (svc_Name s)
                            (opt_Tags (svc_Options s))) w2)
          && negb (opt_ForceRegister (svc_Options s)) = false) as ->.
  { destruct Hreq as [-> | ->]; [done|]. by rewrite andb_false_r. }
  cbn [andb]. rewrite run_bind, lookup_empty, run_bind.
  match goal with |- context [call ?a] => run_call a w2 end. rewrite Hsrv.
  cbn [andThen fst snd run]. unfold root_ID. rewrite Hroot. done.
Qed.

(** *** The broker handler: lookups that fail, items the manager does not hold *)

(** X1. When the registry lookup of the handler fails, nothing is called:
    the error os.ErrNotExist is swallowed and the handler returns nil, any
    other error is returned as it is. *)
Theorem WatchBroker_handler_lookup_error m message err w :
  answer E (lookup_of m message) w = Err err ->
  run E (WatchBroker_handler m message) w
  = (Done (if decide (err = os_ErrNotExist) then None else Some err), w, []).
Proof.
  intros Hget. unfold WatchBroker_handler.
  rewrite run_ask. fold (itemName_of message). fold (lookup_of m message).
  rewrite Hget. by destruct (decide (err = os_ErrNotExist)).
Qed.

(** X2. A command for an item the manager holds no object for is ignored:
    when the item is neither an in-memory service nor an in-memory server,
    and is a registry projection of no retained service (nor, failing that,
    of a retained server), the handler returns nil and calls nothing,
    whatever the command, an unsupported one included. *)
Theorem WatchBroker_handler_unknown_item m message s w :
  answer E (lookup_of m message) w = Ok s ->
  item_As_service s = None ->
  item_As_server s = None ->
  (item_As_registry_Service s = true -> services m !! item_ID s = None) ->
  (item_As_registry_Service s = false -> item_As_registry_Server s = true ->
   servers m !! item_ID s = None) ->
  run E (WatchBroker_handler m message) w = (Done None, w, []).
Proof.
  intros Hget Hsvc Hsrv Hrsrc Hrsrv. unfold WatchBroker_handler.
  rewrite run_ask. fold (itemName_of message). fold (lookup_of m message).
  rewrite Hget. unfold WatchBroker_resolve. rewrite Hsvc, Hsrv.
  destruct (item_As_registry_Service s).
  - by rewrite Hrsrc.
  - destruct (item_As_registry_Server s); [|done]. by rewrite Hrsrv.
Qed.

(** X3. A start or a stop command for an item that resolves to a service:
    start is startService on that service; stop is one call, Stop on that
    service without any option, whose error the handler returns. *)
Theorem WatchBroker_service_start_stop m message s svc w :
  answer E (lookup_of m message) w = Ok s ->
  (WatchBroker_resolve m s).1 = Some svc ->
  (command_of message = CommandStart ->
   run E (WatchBroker_handler m message) w = run E (startService m svc) w)
  /\ (command_of message = CommandStop ->
      run E (WatchBroker_handler m message) w
      = (let '(er, w1) := perform E (Service_Stop svc []) w in
         (Done er, w1, [Call (Service_Stop svc [])]))).
Proof.
  intros Hget Hres.
  rewrite (WatchBroker_handler_service _ _ _ _ _ Hget Hres).
  split; intros ->; [done|].
  cbn [String.eqb CommandRestart CommandStart CommandStop Ascii.eqb Bool.eqb].
  unfold stopService. run_call (Service_Stop svc []) w.
  by destruct (perform E (Service_Stop svc []) w).
Qed.

(** X4. The object of a command is the one the manager retains: for an
    item that is only the registry's projection of a service, the command
    goes to the service retained under the item's ID: stop is one call, Stop
    on that retained service, and start is startService on it. *)
Theorem WatchBroker_handler_projection m message s mem w :
  answer E (lookup_of m message) w = Ok s ->
  item_As_service s = None ->
  item_As_server s = None ->
  item_As_registry_Service s = true ->
  services m !! item_ID s = Some mem ->
  (command_of message = CommandStop ->
   run E (WatchBroker_handler m message) w
   = (let '(er, w1) := perform E (Service_Stop mem []) w in
      (Done er, w1, [Call (Service_Stop mem [])])))
  /\ (command_of message = CommandStart ->
      run E (WatchBroker_handler m message) w = run E (startService m mem) w).
Proof.
  intros Hget Hsvc Hsrv Hrsrc Hmem.
  assert ((WatchBroker_resolve m s).1 = Some mem) as Hres.
  { unfold WatchBroker_resolve. by rewrite Hsvc, Hsrv, Hrsrc. }
  rewrite (WatchBroker_handler_service _ _ _ _ _ Hget Hres).
  split; intros ->; [|done].
  cbn [String.eqb CommandRestart CommandStart CommandStop Ascii.eqb Bool.eqb].
  unfold stopService. run_call (Service_Stop mem []) w.
  by destruct (perform E (Service_Stop mem []) w).
Qed.

(** *** startService: a service without server, a server that is Stopped *)

(** X5. startService on a service whose options hold no server is a method
    call on a nil interface: it panics before any call, under every
    schedule.  A configuration change for such a service with AutoRestart
    therefore stops the service and then panics, leaving it stopped. *)
Theorem startService_nil_server m svc w :
  opt_Server (svc_Options svc) = None ->
  run E (startService m svc) w = (Panicked nil_dereference, w, [])
  /\ every_schedule E (startService m svc) w
       (fun o log => o = Panicked nil_dereference /\ log = [])
  /\ (forall kv ss0 rest,
        answer E (Registry_List (reg m) [WithName (Key kv)]) w = Ok (ss0 :: rest) ->
        item_As_service ss0 = Some svc ->
        opt_AutoRestart (svc_Options svc) = true ->
        (perform E (Service_Stop svc []) w).1 = None ->
        run E (WatchServicesConfigs_event m kv) w
        = (Panicked nil_dereference, (perform E (Service_Stop svc []) w).2,
           [Call (Service_Stop svc [])])).
Proof.
  intros Hs. split; [|split].
  - unfold startService. by rewrite Hs.
  - apply every_schedule_sees. intros l o. unfold startService. rewrite Hs.
    by intros [-> ->].
  - intros kv ss0 rest Hlist Hsvc Hauto Hstop.
    unfold WatchServicesConfigs_event.
    run_ask (Registry_List (reg m) [WithName (Key kv)]).
    rewrite Hlist, Hsvc, Hauto.
    rewrite run_bind. unfold stopService. run_call (Service_Stop svc []) w.
    destruct (perform E (Service_Stop svc []) w) as [er w1].
    cbn [fst snd] in *. subst er. cbn [andThen].
    rewrite run_bind. unfold startService. by rewrite Hs.
Qed.

(** X6. The options given to SetServeOptions are the ones a later
    startService passes on, and they replace whatever was set before: on a
    server that is Stopped, startService makes one call, Serve with exactly
    those options followed by the two hooks of the service (Start before
    serving, OnServe after), and returns what Serve returned; it calls
    neither Start nor OnServe itself. *)
Theorem SetServeOptions_startService m oo svc s w :
  opt_Server (svc_Options svc) = Some s ->
  answer E (Server_Is s StatusStopped) w = true ->
  let opts := oo ++ [WithBeforeServe (Service_Start_fn svc);
                     WithAfterServe (Service_OnServe_fn svc)] in
  run E (startService (SetServeOptions m oo) svc) w
  = (Done (perform E (Server_Serve s opts) w).1,
     (perform E (Server_Serve s opts) w).2,
     [Call (Server_Serve s opts)])
  /\ every_schedule E (startService (SetServeOptions m oo) svc) w
       (fun o log =>
          o = Done (perform E (Server_Serve s opts) w).1
          /\ log = [Call (Server_Serve s opts)]).
Proof.
  intros Hs Hst opts.
  assert (run E (startService (SetServeOptions m oo) svc) w
          = (Done (perform E (Server_Serve s opts) w).1,
             (perform E (Server_Serve s opts) w).2,
             [Call (Server_Serve s opts)])) as Hrun.
  { rewrite (startService_stopped _ _ s _ Hs Hst).
    cbn [SetServeOptions set_serveOptions serveOptions].
    change (oo ++ serviceServeOptions svc) with opts.
    by destruct (perform E (Server_Serve s opts) w). }
  split; [done|].
  apply every_schedule_sees. intros l o. unfold startService. rewrite Hs.
  cbn [bind ask sees]. rewrite Hst. cbv beta iota.
  cbn [SetServeOptions set_serveOptions serveOptions].
  change (oo ++ serviceServeOptions svc) with opts. cbn [call sees].
  by intros (l' & -> & -> & ->).
Qed.

(** *** regRunningService *)

(** X7. regRunningService only reads: it makes no call and leaves the
    state as it is.  It answers true exactly when the registry lists, for
    the SERVICE type and that name, an item whose status metadata differs
    from Stopped; in particular it answers false when nothing is listed. *)
Theorem regRunningService_reads m name w :
  exists b,
    run E (regRunningService m name) w = (Done b, w, [])
    /\ (b = true
        <-> exists ll l,
              answer E (Registry_List (reg m)
                          [WithType ItemType_SERVICE; WithName name]) w = Ok ll
              /\ l ∈ ll
              /\ index (item_Metadata l) MetaStatusKey <> StatusStopped)
    /\ (answer E (Registry_List (reg m)
                    [WithType ItemType_SERVICE; WithName name]) w = Ok [] ->
        b = false).
Proof.
  exists (incumbent m name w). split; [apply regRunningService_run|]. split.
  - rewrite incumbent_shows. unfold shows, listed.
    destruct (answer E _ w) as [ll|e].
    + split.
      * intros (l & Hin & Hst). by exists ll, l.
      * intros (ll' & l & [= <-] & Hin & Hst). by exists l.
    + split.
      * intros (l & Hin & _). by apply elem_of_nil in Hin.
      * by intros (ll' & l & [=] & _).
  - intros Hnil. unfold incumbent, listed. by rewrite Hnil.
Qed.

(** X8. An item that carries no status metadata counts as running: the
    missing key reads as the empty string, which is not the Stopped status. *)
Theorem regRunningService_missing_status m name ll l w :
  StatusStopped <> EmptyString ->
  answer E (Registry_List (reg m) [WithType ItemType_SERVICE; WithName name]) w
  = Ok ll ->
  l ∈ ll ->
  item_Metadata l !! MetaStatusKey = None ->
  run E (regRunningService m name) w = (Done true, w, []).
Proof.
  intros Hne Hlist Hin Hmiss. rewrite regRunningService_run.
  assert (incumbent m name w = true) as ->; [|done].
  apply incumbent_shows. exists l. split.
  - unfold listed. by rewrite Hlist.
  - unfold index. rewrite Hmiss. cbn. congruence.
Qed.

(** *** NewManager *)

(** The NODE items NewManager looks at: none when the List call fails *)
Definition nodes (rg : Registry) (w : W) : list Item :=
  match answer E (Registry_List rg [WithType ItemType_NODE]) w with
  | Ok ii => ii
  | Err _ => []
  end.

(** A node of the parent process, and a node of this process: the PID
    metadata is compared with the parent's pid first. *)
Definition is_parent (w : W) (rt : Item) : bool :=
  String.eqb (index (item_Metadata rt) NodeMetaPID)
    (strconv_Itoa (answer E os_Getppid w)).

Definition is_current (w : W) (rt : Item) : bool :=
  negb (is_parent w rt)
  && String.eqb (index (item_Metadata rt) NodeMetaPID)
       (strconv_Itoa (answer E os_Getpid w)).

(** The last element of [l] that satisfies [P], [d] when there is none *)
Definition latest {A : Type} (P : A -> bool) (l : list A) (d : option A)
    : option A :=
  match last (filter (fun x => P x = true) l) with
  | Some x => Some x
  | None => d
  end.

Lemma latest_cons {A : Type} (P : A -> bool) x (l : list A) d :
  latest P (x :: l) d = latest P l (if P x then Some x else d).
Proof.
  unfold latest. rewrite filter_cons.
  destruct (P x) eqn:HP.
  - destruct (decide (true = true)); [|done]. rewrite last_cons.
    by destruct (last (filter _ l)).
  - by destruct (decide (false = true)).
Qed.

Lemma latest_elem {A : Type} (P : A -> bool) (l : list A) x :
  latest P l None = Some x -> x ∈ l /\ P x = true.
Proof.
  unfold latest. destruct (last (filter _ l)) as [y|] eqn:Hl; [|done].
  intros [= <-]. apply last_Some_elem_of in Hl.
  by apply list_elem_of_filter in Hl as [? ?].
Qed.

Lemma latest_None {A : Type} (P : A -> bool) (l : list A) :
  (forall x, x ∈ l -> P x = false) -> latest P l None = None.
Proof.
  intros H. unfold latest.
  destruct (last (filter _ l)) as [y|] eqn:Hl; [|done].
  apply last_Some_elem_of, list_elem_of_filter in Hl as [Hy Hin].
  rewrite (H y Hin) in Hy. done.
Qed.

(** The loop of NewManager keeps, for the current and for the parent node,
    the last listed node of each kind. *)
Lemma NewManager_detect_run ii cp w :
  run E (range_ ii (NewManager_detect NodeMetaPID) cp) w
  = (Done (latest (is_current w) ii cp.1, latest (is_parent w) ii cp.2), w, []).
Proof.
  revert cp. induction ii as [|rt ii IH]; intros [c p].
  - done.
  - cbn [range_]. rewrite run_bind. unfold NewManager_detect at 1.
    run_ask os_Getppid. rewrite !latest_cons. unfold is_current.
    fold (is_parent w rt). destruct (is_parent w rt) eqn:Hp.
    + cbn [run andThen negb andb fst snd]. by rewrite IH.
    + run_ask os_Getpid. cbn [negb andb].
      destruct (String.eqb _ (strconv_Itoa (answer E os_Getpid w)));
        cbn [run andThen fst snd]; by rewrite IH.
Qed.

Lemma latest_exists {A : Type} (P : A -> bool) (l : list A) x :
  x ∈ l -> P x = true -> exists y, latest P l None = Some y.
Proof.
  intros Hin HP. unfold latest.
  destruct (last (filter _ l)) as [y|] eqn:Hlast; [by exists y|].
  apply last_None in Hlast.
  assert (x ∈ filter (fun x => P x = true) l) as H by by apply list_elem_of_filter.
  rewrite Hlast in H. by apply elem_of_nil in H.
Qed.

Lemma NewManager_run_adopt rg url namespace c w :
  latest (is_current w) (nodes rg w) None = Some c ->
  run E (NewManager rg url namespace) w
  = (Done {| ns := namespace; srcUrl := url; reg := rg; root := Some c;
             rootIsFork := false; serveOptions := [];
             servers := ∅; services := ∅ |}, w, []).
Proof.
  intros Hl. unfold NewManager.
  run_ask (Registry_List rg [WithType ItemType_NODE]). unfold nodes in Hl.
  destruct (answer E (Registry_List rg [WithType ItemType_NODE]) w) as [ii|e].
  - rewrite run_bind, NewManager_detect_run. cbn [andThen fst snd].
    by rewrite Hl.
  - done.
Qed.

Lemma NewManager_run_create rg url namespace w :
  latest (is_current w) (nodes rg w) None = None ->
  let m0 := {| ns := namespace; srcUrl := url; reg := rg; root := None;
               rootIsFork := false; serveOptions := [];
               servers := ∅; services := ∅ |} in
  let node := (perform E util_CreateNode w).1 in
  let w1 := (perform E util_CreateNode w).2 in
  let register := Registry_Register rg (PlainItem node) [] in
  let w2 := (perform E register w1).2 in
  run E (NewManager rg url namespace) w
  = match (perform E register w1).1 with
    | Some _ => (Done m0, w2, [Call util_CreateNode; Call register])
    | None =>
        match latest (is_parent w) (nodes rg w) None with
        | Some p =>
            let edge := Registry_RegisterEdge rg (item_ID p) (item_ID node)
                          "Fork" ∅ in
            (Done (set_root m0 (Some node) true), (perform E edge w2).2,
             [Call util_CreateNode; Call register; Call edge])
        | None =>
            (Done (set_root m0 (Some node) false), w2,
             [Call util_CreateNode; Call register])
        end
    end.
Proof.
  intros Hl m0 node w1 register w2.
  assert (run E (match answer E (Registry_List rg [WithType ItemType_NODE]) w with
                 | Ok ii => range_ ii (NewManager_detect NodeMetaPID) (None, None)
                 | Err _ => Ret (None, None)
                 end) w
          = (Done (None, latest (is_parent w) (nodes rg w) None), w, [])) as Hdet.
  { unfold nodes in *.
    destruct (answer E (Registry_List rg [WithType ItemType_NODE]) w) as [ii|e].
    - rewrite NewManager_detect_run. cbn [fst snd]. by rewrite Hl.
    - done. }
  unfold NewManager. run_ask (Registry_List rg [WithType ItemType_NODE]).
  rewrite run_bind, Hdet. cbn [andThen].
  rewrite run_bind. run_call util_CreateNode w.
  subst node w1 w2 register.
  destruct (perform E util_CreateNode w) as [node w1]. cbn [andThen fst snd].
  rewrite run_bind. run_call (Registry_Register rg (PlainItem node) []) w1.
  destruct (perform E (Registry_Register rg (PlainItem node) []) w1) as [[e|] w2];
    cbn [andThen fst snd]; [done|].
  destruct (latest (is_parent w) (nodes rg w) None) as [p|]; [|done].
  rewrite run_bind.
  run_call (Registry_RegisterEdge rg (item_ID p) (item_ID node) "Fork" ∅) w2.
  by destruct (perform E (Registry_RegisterEdge rg (item_ID p) (item_ID node)
                            "Fork" ∅) w2).
Qed.

Lemma latest_split {A : Type} (P : A -> bool) (l : list A) c :
  latest P l None = Some c ->
  exists before after,
    l = before ++ c :: after
    /\ P c = true
    /\ forall x, x ∈ after -> P x = false.
Proof.
  induction l as [|y l IH] using rev_ind; [done|].
  unfold latest. rewrite filter_app, filter_cons, filter_nil.
  destruct (P y) eqn:Hy.
  - destruct (decide (true = true)); [|done]. rewrite last_snoc.
    intros [= <-]. exists l, []. split; [done|]. split; [done|].
    by intros x ?%elem_of_nil.
  - destruct (decide (false = true)); [done|]. rewrite app_nil_r.
    intros Hl. destruct (IH Hl) as (before & after & -> & Hc & Hafter).
    exists before, (after ++ [y]). split; [by rewrite <- app_assoc|].
    split; [done|]. intros x [Hx|Hx]%elem_of_app; [by apply Hafter|].
    by apply list_elem_of_singleton in Hx as ->.
Qed.

(** X9. A process that finds a node of its own in the registry adopts it:
    when some listed NODE item carries this process's pid (and not its
    parent's), NewManager takes the last such item of the list as root (no
    item listed after it is one of this process), calls nothing (no node is
    created or registered, no edge is drawn) and is not a fork, even when a
    node of the parent is listed too. *)
Theorem NewManager_adopts_current rg url namespace c w :
  c ∈ nodes rg w ->
  is_current w c = true ->
  exists before c' after,
    nodes rg w = before ++ c' :: after
    /\ is_current w c' = true
    /\ (forall x, x ∈ after -> is_current w x = false)
    /\ run E (NewManager rg url namespace) w
       = (Done {| ns := namespace; srcUrl := url; reg := rg; root := Some c';
                  rootIsFork := false; serveOptions := [];
                  servers := ∅; services := ∅ |}, w, []).
Proof.
  intros Hin Hc. destruct (latest_exists _ _ _ Hin Hc) as [c' Hl].
  destruct (latest_split _ _ _ Hl) as (before & after & Hnodes & Hc' & Hafter).
  exists before, c', after. split; [done|]. split; [done|]. split; [done|].
  by apply NewManager_run_adopt.
Qed.

(** X10. A process that finds no node of its own creates one and registers
    it, without options.  When the registration succeeds the node becomes
    the root; if a node of the parent process is listed, the manager is a
    fork and a Fork edge is drawn from the last such node to the new one,
    otherwise no edge is drawn.  When the registration fails the root stays
    nil, the manager is no fork and no edge is drawn, a parent or not.  A
    List call that fails counts as an empty list. *)
Theorem NewManager_creates_root rg url namespace w :
  (forall c, c ∈ nodes rg w -> is_current w c = false) ->
  let m0 := {| ns := namespace; srcUrl := url; reg := rg; root := None;
               rootIsFork := false; serveOptions := [];
               servers := ∅; services := ∅ |} in
  let node := (perform E util_CreateNode w).1 in
  let w1 := (perform E util_CreateNode w).2 in
  let register := Registry_Register rg (PlainItem node) [] in
  let w2 := (perform E register w1).2 in
  run E (NewManager rg url namespace) w
  = match (perform E register w1).1 with
    | Some _ => (Done m0, w2, [Call util_CreateNode; Call register])
    | None =>
        match latest (is_parent w) (nodes rg w) None with
        | Some p =>
            let edge := Registry_RegisterEdge rg (item_ID p) (item_ID node)
                          "Fork" ∅ in
            (Done (set_root m0 (Some node) true), (perform E edge w2).2,
             [Call util_CreateNode; Call register; Call edge])
        | None =>
            (Done (set_root m0 (Some node) false), w2,
             [Call util_CreateNode; Call register])
        end
    end.
Proof.
  intros Hnone. apply NewManager_run_create. by apply latest_None.
Qed.

(** X11. Whatever the registry answers, NewManager returns (it never
    panics) a manager for the given registry, source URL and namespace that
    retains no server and no service and has no serve options; it is a fork
    only if it has a root; and it makes at most three calls. *)
Theorem NewManager_fresh rg url namespace w :
  exists m w' log,
    run E (NewManager rg url namespace) w = (Done m, w', log)
    /\ reg m = rg /\ srcUrl m = url /\ ns m = namespace
    /\ servers m = ∅ /\ services m = ∅ /\ serveOptions m = []
    /\ (rootIsFork m = true -> root m <> None)
    /\ length log <= 3.
Proof.
  destruct (latest (is_current w) (nodes rg w) None) as [c|] eqn:Hl.
  - rewrite (NewManager_run_adopt rg url namespace c w Hl).
    do 3 eexists. split; [done|]. cbn. repeat split; done || lia.
  - rewrite (NewManager_run_create rg url namespace w Hl).
    destruct (perform E (Registry_Register _ _ _) _).1 as [e|].
    + do 3 eexists. split; [done|]. cbn. repeat split; done || lia.
    + destruct (latest (is_parent w) (nodes rg w) None) as [p|];
        do 3 eexists; (split; [done|]); cbn; repeat split; done || lia.
Qed.

(** *** Init: the loop over the candidates *)

(** The end of Init's loop body, once the server [sr] of the candidate is
    known: nothing more for a candidate that must fork, else the
    registration of the service with an edge to the root. *)
Definition Init_place (m : manager) (mustFork : bool)
    (byScheme : gmap string Server) (svcs : gmap string Service) (s : Service)
    (w : W) (l : Log)
    : Outcome (Flow Init_state (error * gmap string Service)) * W * Log :=
  if mustFork then (Done (Continue (byScheme, svcs)), w, l)
  else
    match root m with
    | None => (Panicked nil_dereference, w, l)
    | Some rt =>
        let register := Registry_Register (reg m) (ServiceItem s)
                          [WithEdgeTo (item_ID rt) "Node" ∅] in
        match (perform E register w).1 with
        | Some e =>
            (Done (Return (Some e, svcs)), (perform E register w).2,
             l ++ [Call register])
        | None =>
            (Done (Continue (byScheme, <[svc_ID s := s]> svcs)),
             (perform E register w).2, l ++ [Call register])
        end
    end.

(** The run of Init's loop body for the candidate [ss], as a function of
    what the environment answers *)
Definition Init_candidate_result (m : manager) (ss : Item) (st : Init_state)
    (w : W) : Outcome (Flow Init_state (error * gmap string Service)) * W * Log :=
  match item_As_service ss with
  | None => (Done (Continue st), w, [])
  | Some s0 =>
      let opts := svc_Options s0 in
      let mustFork := opt_Fork opts && negb (answer E runtime_IsFork w) in
      let s := set_Context s0
                 (servicecontext_WithRegistry (opt_Context opts) (reg m)) in
      let required := answer E (runtime_IsRequired (svc_Name s0) (opt_Tags opts)) w in
      if negb required && negb (opt_ForceRegister opts) then
        (Done (Continue st), w, [])
      else if mustFork && negb (opt_AutoStart opts) then
        (Done (Continue st), w, [])
      else
        match st.1 !! svc_ServerScheme s0 with
        | Some sr => Init_place m mustFork st.1 st.2 (set_Server s sr) w []
        | None =>
            let open := server_OpenServer
                          (servicecontext_WithRegistry (opt_Context opts) (reg m))
                          (svc_ServerScheme s0) in
            match (perform E open w).1 with
            | Ok srv =>
                Init_place m mustFork (<[svc_ServerScheme s0 := srv]> st.1) st.2
                  (set_Server s srv) (perform E open w).2 [Call open]
            | Err er =>
                (Done (Return (Some er, st.2)), (perform E open w).2, [Call open])
            end
        end
  end.

Lemma andThen_done {A B : Type} (a : A) w (f : A -> W -> Outcome B * W * Log) :
  andThen (Done a, w, []) f = f a w.
Proof. cbn [andThen]. by destruct (f a w) as [[o w2] l2]. Qed.

Lemma Init_place_run m (mustFork : bool) byScheme svcs s w1 l :
  andThen (Done (Ok (byScheme, s)), w1, l)
    (fun opened w =>
       run E (match opened with
              | Err er => Ret (Return (Some er, svcs))
              | Ok (byScheme, s) =>
                  if mustFork then Ret (Continue (byScheme, svcs))
                  else
                    let* rid := root_ID m in
                    let* er := call (Registry_Register (reg m) (ServiceItem s)
                                       [WithEdgeTo rid "Node" ∅]) in
                    match er with
                    | Some e => Ret (Return (Some e, svcs))
                    | None => Ret (Continue (byScheme, <[svc_ID s := s]> svcs))
                    end
              end) w)
  = Init_place m mustFork byScheme svcs s w1 l.
Proof.
  cbn [andThen]. unfold Init_place. destruct mustFork.
  - cbn [run]. by rewrite app_nil_r.
  - unfold root_ID. destruct (root m) as [rt|].
    + cbn [bind]. rewrite run_bind.
      run_call (Registry_Register (reg m) (ServiceItem s)
                  [WithEdgeTo (item_ID rt) "Node" ∅]) w1.
      destruct (perform E _ w1) as [[e|] w2]; cbn [andThen fst snd run];
        by rewrite app_nil_r.
    + cbn [bind run]. by rewrite app_nil_r.
Qed.

Lemma Init_candidate_run m ss st w :
  run E (Init_candidate m ss st) w = Init_candidate_result m ss st w.
Proof.
  destruct st as [byScheme svcs]. unfold Init_candidate, Init_candidate_result.
  destruct (item_As_service ss) as [s0|]; [|done].
  rewrite run_bind.
  assert (run E (if opt_Fork (svc_Options s0)
                 then let* b := ask runtime_IsFork in Ret (negb b)
                 else Ret false) w
          = (Done (opt_Fork (svc_Options s0) && negb (answer E runtime_IsFork w)),
             w, [])) as ->.
  { destruct (opt_Fork (svc_Options s0)); [|done]. by run_ask runtime_IsFork. }
  rewrite andThen_done.
  cbn [set_Context svc_Options svc_Name opt_Tags opt_ForceRegister
       opt_AutoStart svc_ServerScheme opt_Context].
  run_ask (runtime_IsRequired (svc_Name s0) (opt_Tags (svc_Options s0))).
  destruct (_ && negb (opt_ForceRegister _)); [done|].
  destruct (_ && negb (opt_AutoStart _)); [done|].
  rewrite run_bind. cbn [fst snd].
  destruct (byScheme !! svc_ServerScheme s0) as [sr|].
  - cbn [run]. apply Init_place_run.
  - rewrite run_bind.
    match goal with |- context [call ?a] => run_call a w;
      destruct (perform E a w) as [[srv|er] w1] end;
      cbn [andThen fst snd run app].
    + rewrite <- Init_place_run. by cbn [andThen app].
    + done.
Qed.

(** An invariant rule for range loops that follows the log: [J] relates
    the log so far and the loop state, [Q] the log and what a [return]
    carries, [P] is for the log of a loop that panics. *)
Definition hist_post {S V : Type} (J : Log -> S -> Prop) (Q : Log -> V -> Prop)
    (P : Log -> Prop) (h : Log) (r : Outcome (Flow S V) * W * Log) : Prop :=
  match r.1.1 with
  | Done (Continue s) => J (h ++ r.2) s
  | Done (Return v) => Q (h ++ r.2) v
  | Panicked _ => P (h ++ r.2)
  end.

Lemma run_range_hist {A S V : Type} (J : Log -> S -> Prop) (Q : Log -> V -> Prop)
    (P : Log -> Prop) (body : A -> S -> Prog (Flow S V)) (l : list A) :
  (forall x s w h, x ∈ l -> J h s -> hist_post J Q P h (run E (body x s) w)) ->
  forall s w h, J h s -> hist_post J Q P h (run E (range l body s) w).
Proof.
  induction l as [|x l IH]; intros Hbody s w h Hs.
  - unfold hist_post. cbn. by rewrite app_nil_r.
  - cbn [range]. rewrite run_bind.
    assert (x ∈ x :: l) as Hx by constructor.
    pose proof (Hbody x s w h Hx Hs) as Hstep. unfold hist_post in *.
    destruct (run E (body x s) w) as [[[[s'|v]|msg] w1] l1];
      cbn [andThen fst snd] in *.
    + assert (forall y s w h, y ∈ l -> J h s ->
                hist_post J Q P h (run E (body y s) w)) as Hbody'.
      { intros y s0 w0 h0 Hy. apply Hbody. by constructor. }
      pose proof (IH Hbody' s' w1 (h ++ l1) Hstep) as Hrest.
      unfold hist_post in Hrest.
      destruct (run E (range l body s') w1) as [[o w2] l2].
      cbn [fst snd] in *. by rewrite app_assoc.
    + cbn [run fst snd]. by rewrite app_nil_r.
    + done.
Qed.

(** The schemes of the servers that the calls of a log open, in order *)
Definition opened (h : Log) : list string :=
  flat_map (fun ev => match ev with
                      | Call (server_OpenServer _ scheme) => [scheme]
                      | _ => []
                      end) h.

(** A service as Init places it: under its own ID, with the manager's
    registry in its context and with a server. *)
Definition placed (m : manager) (id : string) (s : Service) : Prop :=
  svc_ID s = id
  /\ ctx_service_registry (opt_Context (svc_Options s)) = Some (reg m)
  /\ is_Some (opt_Server (svc_Options s)).

(** The calls of Init's loop: a server is opened with the manager's
    registry in the context; a service is registered in the manager's
    registry, with one option, the Node edge to the root, once it is placed,
    and only if it is required or its registration is forced. *)
Definition Init_call (m : manager) (ev : Event) : Prop :=
  match ev with
  | Call (server_OpenServer ctx _) => ctx_service_registry ctx = Some (reg m)
  | Call (Registry_Register r (ServiceItem s) oo) =>
      r = reg m
      /\ (exists rt, root m = Some rt /\ oo = [WithEdgeTo (item_ID rt) "Node" ∅])
      /\ placed m (svc_ID s) s
      /\ (opt_ForceRegister (svc_Options s) = true
          \/ exists w', answer E (runtime_IsRequired (svc_Name s)
                                    (opt_Tags (svc_Options s))) w' = true)
  | _ => False
  end.

(** The invariant of Init's loop, between the log [h] of the loop so far,
    the scheme cache [st.1] and the service map [st.2] *)
Definition Init_inv (m : manager) (h : Log) (st : Init_state) : Prop :=
  Forall (Init_call m) h
  /\ NoDup (opened h)
  /\ (forall scheme, scheme ∈ opened h <-> is_Some (st.1 !! scheme))
  /\ (forall id s,
        st.2 !! id = Some s ->
        services m !! id = Some s
        \/ (placed m id s
            /\ st.1 !! svc_ServerScheme s = opt_Server (svc_Options s)
            /\ exists oo, Call (Registry_Register (reg m) (ServiceItem s) oo) ∈ h))
  /\ (forall id, is_Some (services m !! id) -> is_Some (st.2 !! id)).

Definition Init_inv_return (m : manager) (h : Log)
    (v : error * gmap string Service) : Prop :=
  v.1 <> None /\ exists byScheme, Init_inv m h (byScheme, v.2).

Definition Init_inv_panic (m : manager) (h : Log) : Prop :=
  Forall (Init_call m) h /\ NoDup (opened h) /\ root m = None.

Lemma opened_app h l : opened (h ++ l) = opened h ++ opened l.
Proof. apply flat_map_app. Qed.

Lemma Init_inv_start m : Init_inv m [] (∅, services m).
Proof.
  split; [constructor|]. split; [constructor|]. split; [|split].
  - intros scheme. cbn. rewrite lookup_empty. split.
    + by intros ?%elem_of_nil.
    + by intros [? ?].
  - intros id s Hs. by left.
  - done.
Qed.

Lemma Init_inv_open m h byScheme svcs ctx scheme srv :
  Init_inv m h (byScheme, svcs) ->
  byScheme !! scheme = None ->
  ctx_service_registry ctx = Some (reg m) ->
  Init_inv m (h ++ [Call (server_OpenServer ctx scheme)])
    (<[scheme := srv]> byScheme, svcs).
Proof.
  intros (Hcalls & Hnodup & Hdom & Hsvcs & Hkeep) Hfresh Hctx.
  cbn [fst snd] in *.
  split; [|split; [|split; [|split]]]; cbn [fst snd].
  - apply Forall_app. split; [done|]. by constructor.
  - rewrite opened_app. cbn. apply NoDup_app. split; [done|]. split.
    + intros x Hx ->%list_elem_of_singleton. apply Hdom in Hx as [? Hx].
      congruence.
    + apply NoDup_singleton.
  - intros x. rewrite opened_app, elem_of_app. cbn.
    rewrite list_elem_of_singleton, Hdom.
    destruct (decide (x = scheme)) as [->|Hne].
    + rewrite lookup_insert_eq. split; [by eexists|by right].
    + rewrite lookup_insert_ne by done. split; [by intros [?|?]|by left].
  - intros id s Hs. destruct (Hsvcs id s Hs) as [?|(Hp & Hsr & oo & Hin)]; [by left|].
    right. split; [done|]. split.
    + rewrite lookup_insert_ne; [done|]. intros Heq. subst scheme.
      destruct Hp as (_ & _ & [sr Hsome]). congruence.
    + exists oo. apply elem_of_app. by left.
  - done.
Qed.

Lemma Init_inv_place m h (mustFork : bool) byScheme svcs s w l :
  Init_inv m (h ++ l) (byScheme, svcs) ->
  placed m (svc_ID s) s ->
  byScheme !! svc_ServerScheme s = opt_Server (svc_Options s) ->
  (opt_ForceRegister (svc_Options s) = true
   \/ exists w', answer E (runtime_IsRequired (svc_Name s)
                             (opt_Tags (svc_Options s))) w' = true) ->
  hist_post (Init_inv m) (Init_inv_return m) (Init_inv_panic m) h
    (Init_place m mustFork byScheme svcs s w l).
Proof.
  intros Hinv Hp Hsr Hreq. unfold Init_place, hist_post.
  destruct mustFork; [done|].
  destruct (root m) as [rt|] eqn:Hroot.
  2:{ cbn [fst snd]. destruct Hinv as (? & ? & _). by split. }
  set (register := Registry_Register (reg m) (ServiceItem s)
                     [WithEdgeTo (item_ID rt) "Node" ∅]).
  assert (Init_call m (Call register)) as Hcall.
  { split; [done|]. split; [by exists rt|]. by split. }
  destruct Hinv as (Hcalls & Hnodup & Hdom & Hsvcs & Hkeep). cbn [fst snd] in *.
  assert (opened (h ++ l ++ [Call register]) = opened (h ++ l)) as Hopened.
  { rewrite app_assoc, opened_app. cbn. by rewrite app_nil_r. }
  assert (Forall (Init_call m) (h ++ l ++ [Call register])) as Hcalls'.
  { rewrite app_assoc. apply Forall_app. split; [done|]. by constructor. }
  destruct (perform E register w).1 as [e|]; cbn [fst snd].
  - split; [done|]. exists byScheme.
    split; [done|]. split; [by rewrite Hopened|]. split; [by rewrite Hopened|].
    split; [|done]. cbn [fst snd].
    intros id s' Hs'. destruct (Hsvcs id s' Hs') as [?|(? & ? & oo & Hin)]; [by left|].
    right. split; [done|]. split; [done|]. exists oo.
    rewrite app_assoc. apply elem_of_app. by left.
  - split; [done|]. split; [by rewrite Hopened|]. split; [by rewrite Hopened|].
    cbn [fst snd]. split.
    + intros id s'. destruct (decide (id = svc_ID s)) as [->|Hne].
      * rewrite lookup_insert_eq. intros [= <-]. right.
        split; [done|]. split; [done|]. eexists.
        rewrite app_assoc. apply elem_of_app. right. by apply list_elem_of_singleton.
      * rewrite lookup_insert_ne by done. intros Hs'.
        destruct (Hsvcs id s' Hs') as [?|(? & ? & oo & Hin)]; [by left|].
        right. split; [done|]. split; [done|]. exists oo.
        rewrite app_assoc. apply elem_of_app. by left.
    + intros id Hid. destruct (decide (id = svc_ID s)) as [->|Hne].
      * by rewrite lookup_insert_eq.
      * rewrite lookup_insert_ne by done. by apply Hkeep.
Qed.

Lemma Init_candidate_inv m ss st w h :
  Init_inv m h st ->
  hist_post (Init_inv m) (Init_inv_return m) (Init_inv_panic m) h
    (run E (Init_candidate m ss st) w).
Proof.
  intros Hinv. rewrite Init_candidate_run. destruct st as [byScheme svcs].
  unfold Init_candidate_result.
  assert (hist_post (Init_inv m) (Init_inv_return m) (Init_inv_panic m) h
            (Done (Continue (byScheme, svcs)), w, [])) as Hskip.
  { unfold hist_post. cbn [fst snd]. by rewrite app_nil_r. }
  destruct (item_As_service ss) as [s0|]; [|done].
  destruct (negb _ && negb (opt_ForceRegister _)) eqn:Hreq; [done|].
  destruct (_ && negb (opt_AutoStart _)); [done|].
  assert (opt_ForceRegister (svc_Options s0) = true
          \/ exists w', answer E (runtime_IsRequired (svc_Name s0)
                                    (opt_Tags (svc_Options s0))) w' = true)
    as Hreq'.
  { apply andb_false_iff in Hreq as [Hr|Hf].
    - right. exists w. by apply negb_false_iff in Hr.
    - left. by apply negb_false_iff in Hf. }
  cbn [fst snd].
  destruct (byScheme !! svc_ServerScheme s0) as [sr|] eqn:Hcache.
  - apply Init_inv_place; [by rewrite app_nil_r| |done|done].
    split; [done|]. split; [done|]. by exists sr.
  - set (open := server_OpenServer _ _).
    destruct (perform E open w).1 as [srv|er] eqn:Hopen.
    + apply Init_inv_place; [|..|done].
      * by apply Init_inv_open.
      * split; [done|]. split; [done|]. by exists srv.
      * cbn. by rewrite lookup_insert_eq.
    + unfold hist_post. cbn [fst snd]. split; [done|].
      exists (<[svc_ServerScheme s0 := {| srv_addr := 1; srv_ID := EmptyString |}]>
                byScheme).
      by apply Init_inv_open.
Qed.

Lemma Init_loop_inv m candidates w :
  hist_post (Init_inv m) (Init_inv_return m) (Init_inv_panic m) []
    (run E (range candidates (Init_candidate m) (∅, services m)) w).
Proof.
  apply run_range_hist; [|apply Init_inv_start].
  intros ss st w' h _. apply Init_candidate_inv.
Qed.

(** *** Init: the whole method *)

(** The Node edge from the root [rt] to the server [sr] *)
Definition Init_edge (m : manager) (rt : Item) (sr : Server) : Action :=
  Registry_RegisterEdge (reg m) (item_ID rt) (srv_ID sr) "Node" ∅.

Lemma Init_servers_run m rt (l : list Server) srvs w :
  root m = Some rt ->
  run E (range_ l (Init_server m) srvs) w
  = (Done (foldl (fun acc sr => <[srv_ID sr := sr]> acc) srvs l),
     foldl (fun w sr => (perform E (Init_edge m rt sr) w).2) w l,
     map (fun sr => Call (Init_edge m rt sr)) l).
Proof.
  intros Hroot. revert srvs w. induction l as [|sr l IH]; intros srvs w; [done|].
  cbn [range_ foldl map]. rewrite run_bind. unfold Init_server at 1, root_ID.
  rewrite Hroot. cbn [bind]. rewrite run_bind.
  run_call (Registry_RegisterEdge (reg m) (item_ID rt) (srv_ID sr) "Node" ∅) w.
  unfold Init_edge at 1 2.
  destruct (perform E _ w) as [e w1]. cbn [andThen fst snd run app].
  by rewrite IH.
Qed.

(** The run of Init in terms of the run of its loop over the candidates *)
Definition Init_result (m : manager) (ctx : Context) (w : W)
    : Outcome (error * manager) * W * Log :=
  let open := registry_OpenRegistry ctx (srcUrl m) in
  match (perform E open w).1 with
  | Err err => (Done (Some err, m), (perform E open w).2, [Call open])
  | Ok srcReg =>
      let init := runtime_Init
                    (servicecontext_WithRegistry
                       (servercontext_WithRegistry ctx (reg m)) srcReg) (ns m) in
      let w2 := (perform E init (perform E open w).2).2 in
      match answer E (Registry_List srcReg [WithType ItemType_SERVICE]) w2 with
      | Err err => (Done (Some err, m), w2, [Call open; Call init])
      | Ok candidates =>
          match run E (range candidates (Init_candidate m) (∅, services m)) w2 with
          | (Done (Return (er, svcs)), w3, h) =>
              (Done (er, set_services m svcs), w3, [Call open; Call init] ++ h)
          | (Done (Continue (byScheme, svcs)), w3, h) =>
              match root m with
              | Some rt =>
                  (Done (None,
                         set_servers (set_services m svcs)
                           (foldl (fun acc sr => <[srv_ID sr := sr]> acc)
                              (servers m) (values byScheme))),
                   foldl (fun w sr => (perform E (Init_edge m rt sr) w).2) w3
                     (values byScheme),
                   [Call open; Call init] ++ h
                   ++ map (fun sr => Call (Init_edge m rt sr)) (values byScheme))
              | None =>
                  (Done (None, set_services m svcs), w3,
                   [Call open; Call init] ++ h)
              end
          | (Panicked msg, w3, h) => (Panicked msg, w3, [Call open; Call init] ++ h)
          end
      end
  end.

Lemma Init_run m ctx w : run E (Init m ctx) w = Init_result m ctx w.
Proof.
  unfold Init, Init_result. rewrite run_bind.
  run_call (registry_OpenRegistry ctx (srcUrl m)) w.
  destruct (perform E _ w) as [[srcReg|err] w1]; cbn [andThen fst snd run app];
    [|done].
  cbv zeta. rewrite run_bind.
  match goal with |- context [call ?a] => run_call a w1;
    destruct (perform E a w1) as [u w2] end.
  cbn [andThen fst snd app].
  run_ask (Registry_List srcReg [WithType ItemType_SERVICE]).
  destruct (answer E _ w2) as [candidates|err]; [|done].
  rewrite run_bind.
  destruct (run E (range candidates (Init_candidate m) (∅, services m)) w2)
    as [[[[[byScheme svcs]|[er svcs]]|msg] w3] h]; cbn [andThen fst snd].
  - change (root (set_services m svcs)) with (root m).
    destruct (root m) as [rt|] eqn:Hroot.
    + rewrite run_bind.
      rewrite (Init_servers_run (set_services m svcs) rt); [|done].
      cbn [andThen run]. by rewrite app_nil_r.
    + cbn [run]. by rewrite app_nil_r.
  - cbn [run]. by rewrite app_nil_r.
  - done.
Qed.

(** Splits the run of Init into its outcomes, with the invariant of the
    loop at hand. *)
Ltac Init_cases m ctx w :=
  rewrite ?Init_run in *; unfold Init_result in *; cbv zeta in *;
  let srcReg := fresh "srcReg" in
  let err := fresh "err" in
  let candidates := fresh "candidates" in
  destruct (perform E (registry_OpenRegistry ctx (srcUrl m)) w).1 as [srcReg|err];
  [ destruct (answer E (Registry_List srcReg [WithType ItemType_SERVICE]) _)
      as [candidates|err];
    [ match goal with
      | |- context [run E (range candidates (Init_candidate m) ?s) ?w2] =>
          let Hinv := fresh "Hinv" in
          let Hroot := fresh "Hroot" in
          let byScheme := fresh "byScheme" in
          let svcs := fresh "svcs" in
          let er := fresh "er" in
          let msg := fresh "msg" in
          let w3 := fresh "w3" in
          let h := fresh "h" in
          pose proof (Init_loop_inv m candidates w2) as Hinv;
          unfold hist_post in Hinv;
          destruct (run E (range candidates (Init_candidate m) s) w2)
            as [[[[[byScheme svcs]|[er svcs]]|msg] w3] h];
          cbn [fst snd app] in Hinv;
          [ destruct (root m) as [rt|] eqn:Hroot | | ]
      end
    | ]
  | ].

Lemma opened_Init_edges m rt (l : list Server) :
  opened (map (fun sr => Call (Init_edge m rt sr)) l) = [].
Proof. by induction l. Qed.

(** An event of Init's loop: a server is opened or a service registered *)
Definition loop_call (ev : Event) : Prop :=
  match ev with
  | Call (server_OpenServer _ _) => True
  | Call (Registry_Register _ _ _) => True
  | _ => False
  end.

Lemma loop_call_elem m rt (l : list Server) ev (pre1 pre2 : Action) h :
  loop_call ev ->
  ~ loop_call (Call pre1) -> ~ loop_call (Call pre2) ->
  ev ∈ Call pre1 :: Call pre2 :: h ++ map (fun sr => Call (Init_edge m rt sr)) l ->
  ev ∈ h.
Proof.
  intros Hev H1 H2 Hin.
  apply elem_of_cons in Hin as [->|Hin]; [done|].
  apply elem_of_cons in Hin as [->|Hin]; [done|].
  apply elem_of_app in Hin as [Hin|Hin]; [done|].
  apply list_elem_of_fmap in Hin as (sr & -> & _). done.
Qed.

Lemma loop_call_elem' ev (pre1 pre2 : Action) h :
  loop_call ev ->
  ~ loop_call (Call pre1) -> ~ loop_call (Call pre2) ->
  ev ∈ Call pre1 :: Call pre2 :: h -> ev ∈ h.
Proof.
  intros Hev H1 H2 Hin.
  apply elem_of_cons in Hin as [->|Hin]; [done|].
  by apply elem_of_cons in Hin as [->|Hin].
Qed.

(** X12. When the source registry cannot be opened, Init returns that
    error having made this one call.  When the source registry opens but
    cannot list its services, Init returns that error after runtime.Init,
    which it has called with the manager's registry as server registry and
    the source registry as service registry of the context, and with the
    namespace.  In both cases the manager is left as it was: no server is
    opened, nothing is registered. *)
Theorem Init_early_error m ctx w :
  let open := registry_OpenRegistry ctx (srcUrl m) in
  (forall err,
     (perform E open w).1 = Err err ->
     run E (Init m ctx) w = (Done (Some err, m), (perform E open w).2, [Call open]))
  /\ (forall srcReg err,
        (perform E open w).1 = Ok srcReg ->
        let init := runtime_Init
                      {| ctx_server_registry := Some (reg m);
                         ctx_service_registry := Some srcReg |} (ns m) in
        let w2 := (perform E init (perform E open w).2).2 in
        answer E (Registry_List srcReg [WithType ItemType_SERVICE]) w2 = Err err ->
        run E (Init m ctx) w = (Done (Some err, m), w2, [Call open; Call init])).
Proof.
  intros open. split.
  - intros err Hopen. rewrite Init_run. unfold Init_result. fold open.
    by rewrite Hopen.
  - intros srcReg err Hopen init w2 Hlist. rewrite Init_run. unfold Init_result.
    fold open. rewrite Hopen. cbv zeta.
    change (runtime_Init _ (ns m)) with init. fold w2. by rewrite Hlist.
Qed.

Ltac loop_elem Hin :=
  cbn [app] in Hin;
  first [apply loop_call_elem in Hin | apply loop_call_elem' in Hin];
  [|cbn; tauto..].

(** X13. Init opens at most one server per scheme, whatever the number of
    candidates that share the scheme, and it opens every server with a
    context whose service registry is the manager's registry. *)
Theorem Init_opens_each_scheme_once m ctx w :
  NoDup (opened (run E (Init m ctx) w).2)
  /\ forall ctx' scheme,
       Call (server_OpenServer ctx' scheme) ∈ (run E (Init m ctx) w).2 ->
       ctx_service_registry ctx' = Some (reg m).
Proof.
  assert (forall (h : Log) ctx' scheme,
            Forall (Init_call m) h ->
            Call (server_OpenServer ctx' scheme) ∈ h ->
            ctx_service_registry ctx' = Some (reg m)) as Hctx.
  { intros h ctx' scheme Hall Hin.
    by apply (proj1 (Forall_forall _ _) Hall) in Hin. }
  assert (forall (pre1 pre2 : Action) h l,
            ~ loop_call (Call pre1) -> ~ loop_call (Call pre2) ->
            opened l = [] ->
            opened ([Call pre1; Call pre2] ++ h ++ l) = opened h) as Hop.
  { intros pre1 pre2 h l H1 H2 Hl.
    rewrite !opened_app, Hl, app_nil_r.
    destruct pre1, pre2; cbn in *; tauto. }
  Init_cases m ctx w; cbn [fst snd].
  - destruct Hinv as (Hcalls & Hnodup & _). split.
    + rewrite Hop; [done|cbn; tauto..|apply opened_Init_edges].
    + intros ctx' scheme Hin. apply (Hctx h ctx' scheme Hcalls).
      by loop_elem Hin.
  - destruct Hinv as (Hcalls & Hnodup & _). split.
    + rewrite <- (app_nil_r h), Hop; [done|cbn; tauto..|done].
    + intros ctx' scheme Hin. apply (Hctx h ctx' scheme Hcalls).
      by loop_elem Hin.
  - destruct Hinv as (_ & bs & Hcalls & Hnodup & _). split.
    + rewrite <- (app_nil_r h), Hop; [done|cbn; tauto..|done].
    + intros ctx' scheme Hin. apply (Hctx h ctx' scheme Hcalls).
      by loop_elem Hin.
  - destruct Hinv as (Hcalls & Hnodup & _). split.
    + rewrite <- (app_nil_r h), Hop; [done|cbn; tauto..|done].
    + intros ctx' scheme Hin. apply (Hctx h ctx' scheme Hcalls).
      by loop_elem Hin.
  - split; [constructor|].
    intros ctx' scheme Hin. loop_elem Hin. by apply elem_of_nil in Hin.
  - split; [constructor|].
    intros ctx' scheme Hin.
    apply elem_of_cons in Hin as [[=]|Hin]. by apply elem_of_nil in Hin.
Qed.

(** The services that the calls of a log register, in order *)
Definition registered (h : Log) : list Service :=
  flat_map (fun ev => match ev with
                      | Call (Registry_Register _ (ServiceItem s) _) => [s]
                      | _ => []
                      end) h.

(** [m.services[s.ID()] = s] for the services of a list, in order *)
Definition retain (svcs : gmap string Service) (l : list Service)
    : gmap string Service :=
  foldl (fun acc s => <[svc_ID s := s]> acc) svcs l.

Lemma registered_app h l : registered (h ++ l) = registered h ++ registered l.
Proof. apply flat_map_app. Qed.

Lemma retain_snoc svcs l s : retain svcs (l ++ [s]) = <[svc_ID s := s]> (retain svcs l).
Proof. unfold retain. by rewrite foldl_app. Qed.

(** Along Init's loop the service map is the map of the manager updated
    with the services registered so far; a [return] comes with the map as
    it was before the last call. *)
Lemma Init_candidate_registered m ss st w h :
  st.2 = retain (services m) (registered h) ->
  hist_post (fun h st => st.2 = retain (services m) (registered h))
    (fun h v => exists h0 ev,
                  h = h0 ++ [ev] /\ v.2 = retain (services m) (registered h0))
    (fun _ => True) h (run E (Init_candidate m ss st) w).
Proof.
  intros Hst. rewrite Init_candidate_run. destruct st as [byScheme svcs].
  cbn [snd] in Hst. unfold Init_candidate_result, hist_post.
  destruct (item_As_service ss) as [s0|]; [|by rewrite app_nil_r].
  destruct (negb _ && negb (opt_ForceRegister _)); [by rewrite app_nil_r|].
  destruct (_ && negb (opt_AutoStart _)) eqn:Hskip; [by rewrite app_nil_r|].
  cbn [fst snd].
  assert (forall bs s w1 (l : Log),
            registered l = [] ->
            match (Init_place m (opt_Fork (svc_Options s0)
                                 && negb (answer E runtime_IsFork w))
                     bs svcs s w1 l).1.1 with
            | Done (Continue st') =>
                st'.2 = retain (services m)
                          (registered (h ++ (Init_place m
                             (opt_Fork (svc_Options s0)
                              && negb (answer E runtime_IsFork w))
                             bs svcs s w1 l).2))
            | Done (Return v) =>
                exists h0 ev,
                  h ++ (Init_place m (opt_Fork (svc_Options s0)
                                      && negb (answer E runtime_IsFork w))
                          bs svcs s w1 l).2 = h0 ++ [ev]
                  /\ v.2 = retain (services m) (registered h0)
            | Panicked _ => True
            end) as Hplace.
  { intros bs s w1 l Hl. unfold Init_place.
    destruct (_ && negb (answer E runtime_IsFork w)).
    - cbn [fst snd]. by rewrite registered_app, Hl, app_nil_r.
    - destruct (root m) as [rt|]; [|done].
      destruct (perform E _ w1).1 as [e|]; cbn [fst snd].
      + eexists (h ++ l), _. split; [by rewrite app_assoc|].
        by rewrite registered_app, Hl, app_nil_r.
      + rewrite app_assoc, registered_app, registered_app, Hl, app_nil_r.
        cbn [registered flat_map app]. by rewrite retain_snoc, Hst. }
  destruct (byScheme !! svc_ServerScheme s0) as [sr|].
  - by apply Hplace.
  - destruct (perform E _ w).1 as [srv|er].
    + by apply Hplace.
    + cbn [fst snd]. by eexists h, _.
Qed.

Lemma Init_loop_registered m candidates w :
  hist_post (fun h st => st.2 = retain (services m) (registered h))
    (fun h v => exists h0 ev,
                  h = h0 ++ [ev] /\ v.2 = retain (services m) (registered h0))
    (fun _ => True) []
    (run E (range candidates (Init_candidate m) (∅, services m)) w).
Proof.
  apply run_range_hist; [|done].
  intros ss st w' h _. apply Init_candidate_registered.
Qed.

Lemma registered_Init_edges m rt (l : list Server) :
  registered (map (fun sr => Call (Init_edge m rt sr)) l) = [].
Proof. by induction l. Qed.

(** What Init adds to the manager is placed and registered. *)
Lemma Init_places_services m ctx w er m' :
  (run E (Init m ctx) w).1.1 = Done (er, m') ->
  (ns m' = ns m /\ srcUrl m' = srcUrl m /\ reg m' = reg m /\ root m' = root m
   /\ rootIsFork m' = rootIsFork m /\ serveOptions m' = serveOptions m)
  /\ (forall id, is_Some (services m !! id) -> is_Some (services m' !! id))
  /\ (forall id s,
        services m' !! id = Some s ->
        services m !! id = Some s
        \/ (placed m id s
            /\ exists oo,
                Call (Registry_Register (reg m) (ServiceItem s) oo)
                ∈ (run E (Init m ctx) w).2)).
Proof.
  assert (forall (h : Log) bs svcs,
            Init_inv m h (bs, svcs) ->
            forall l1 l2 id s,
              svcs !! id = Some s ->
              services m !! id = Some s
              \/ (placed m id s
                  /\ exists oo,
                      Call (Registry_Register (reg m) (ServiceItem s) oo)
                      ∈ l1 ++ h ++ l2)) as Hplaced.
  { intros h bs svcs (_ & _ & _ & Hsvcs & _) l1 l2 id s Hs.
    destruct (Hsvcs id s Hs) as [?|(Hp & _ & oo & Hin)]; [by left|].
    right. split; [done|]. exists oo. rewrite !elem_of_app. auto. }
  Init_cases m ctx w; cbn [fst snd]; intros [= <- <-]; (split; [done|]).
  - split; [by apply Hinv|]. by eapply Hplaced.
  - split; [by apply Hinv|]. intros id s Hs.
    rewrite <- (app_nil_r h). by eapply Hplaced.
  - destruct Hinv as (_ & bs & Hinv). split; [by apply Hinv|].
    intros id s Hs. rewrite <- (app_nil_r h). by eapply Hplaced.
  - split; [done|]. by left.
  - split; [done|]. by left.
Qed.

(** The service map after Init is the map before it, updated in order with
    the services of the Register calls; when Init returns an error the last
    call of the log does not count. *)
Lemma Init_services_exact m ctx w er m' :
  (run E (Init m ctx) w).1.1 = Done (er, m') ->
  services m'
  = retain (services m)
      (registered (match er with
                   | None => (run E (Init m ctx) w).2
                   | Some _ => removelast (run E (Init m ctx) w).2
                   end)).
Proof.
  rewrite Init_run. unfold Init_result. cbv zeta.
  destruct (perform E (registry_OpenRegistry ctx (srcUrl m)) w).1 as [srcReg|err].
  2:{ cbn [fst snd]. by intros [= <- <-]. }
  destruct (answer E (Registry_List srcReg [WithType ItemType_SERVICE]) _)
    as [candidates|err].
  2:{ cbn [fst snd]. by intros [= <- <-]. }
  match goal with
  | |- context [run E (range candidates (Init_candidate m) ?s) ?w2] =>
      pose proof (Init_loop_inv m candidates w2) as Hinv;
      pose proof (Init_loop_registered m candidates w2) as Hreg;
      unfold hist_post in Hinv, Hreg;
      destruct (run E (range candidates (Init_candidate m) s) w2)
        as [[[[[byScheme svcs]|[er' svcs]]|msg] w3] h]
  end; cbn [fst snd app] in Hinv, Hreg.
  - destruct (root m) as [rt|]; cbn [fst snd]; intros [= <- <-];
      cbn [services set_services set_servers]; rewrite Hreg.
    + cbn [app registered flat_map].
      fold (registered (h ++ map (fun sr => Call (Init_edge m rt sr))
                                 (values byScheme))).
      by rewrite registered_app, registered_Init_edges, app_nil_r.
    + done.
  - cbn [fst snd]. intros [= <- <-]. cbn [services set_services].
    destruct Hinv as [Her _]. destruct Hreg as (h0 & ev & -> & ->).
    destruct er' as [e|]; [|done].
    by rewrite app_assoc, List.removelast_last, registered_app.
  - done.
Qed.

(** X14. Init changes nothing of the manager but its two maps, and it
    never drops a service: every ID retained before is retained after.  The
    service map after Init is exactly the map before it updated, in order,
    with the services of the Register calls that succeeded: all the
    Register calls of the log when Init returns nil, and all but the last
    call of the log when Init returns an error.  So the services registered
    before a failure stay retained when Init returns the error.  Every
    service that Init adds is retained under its own ID, with the manager's
    registry in its context and a server in its options, and it has been
    registered in the manager's registry. *)
Theorem Init_retains_placed_services m ctx w er m' :
  (run E (Init m ctx) w).1.1 = Done (er, m') ->
  (ns m' = ns m /\ srcUrl m' = srcUrl m /\ reg m' = reg m /\ root m' = root m
   /\ rootIsFork m' = rootIsFork m /\ serveOptions m' = serveOptions m)
  /\ services m'
     = retain (services m)
         (registered (match er with
                      | None => (run E (Init m ctx) w).2
                      | Some _ => removelast (run E (Init m ctx) w).2
                      end))
  /\ (forall id, is_Some (services m !! id) -> is_Some (services m' !! id))
  /\ (forall id s,
        services m' !! id = Some s ->
        services m !! id = Some s
        \/ (placed m id s
            /\ exists oo,
                Call (Registry_Register (reg m) (ServiceItem s) oo)
                ∈ (run E (Init m ctx) w).2)).
Proof.
  intros Hrun.
  destruct (Init_places_services m ctx w er m' Hrun) as (Hfields & Hkeep & Hplaced).
  split; [done|]. split; [by apply Init_services_exact|]. by split.
Qed.

(** X15. The candidates of one scheme share one server: two services that
    the same call of Init adds and whose server schemes are equal hold the
    same server object. *)
Theorem Init_shares_servers m ctx w er m' id1 s1 id2 s2 :
  (run E (Init m ctx) w).1.1 = Done (er, m') ->
  services m' !! id1 = Some s1 -> services m !! id1 <> Some s1 ->
  services m' !! id2 = Some s2 -> services m !! id2 <> Some s2 ->
  svc_ServerScheme s1 = svc_ServerScheme s2 ->
  opt_Server (svc_Options s1) = opt_Server (svc_Options s2)
  /\ is_Some (opt_Server (svc_Options s1)).
Proof.
  assert (forall (h : Log) bs svcs,
            Init_inv m h (bs, svcs) ->
            svcs !! id1 = Some s1 -> services m !! id1 <> Some s1 ->
            svcs !! id2 = Some s2 -> services m !! id2 <> Some s2 ->
            svc_ServerScheme s1 = svc_ServerScheme s2 ->
            opt_Server (svc_Options s1) = opt_Server (svc_Options s2)
            /\ is_Some (opt_Server (svc_Options s1))) as Hshare.
  { intros h bs svcs (_ & _ & _ & Hsvcs & _) H1 Hn1 H2 Hn2 Hscheme.
    destruct (Hsvcs id1 s1 H1) as [?|(Hp1 & Hsr1 & _)]; [done|].
    destruct (Hsvcs id2 s2 H2) as [?|(Hp2 & Hsr2 & _)]; [done|].
    cbn [fst] in *. split; [|by apply Hp1]. congruence. }
  Init_cases m ctx w; cbn [fst snd]; intros [= <- <-]; cbn [services set_services
    set_servers]; try done.
  - by eapply Hshare.
  - by eapply Hshare.
  - destruct Hinv as (_ & bs & Hinv). by eapply Hshare.
Qed.

(** X16. Init registers services only, each in the manager's registry and
    with a single option, the Node edge to the root; every service it
    registers is placed (see [placed]) and was required for the namespace,
    or has ForceRegister set. *)
Theorem Init_registers_required m ctx w r i oo :
  Call (Registry_Register r i oo) ∈ (run E (Init m ctx) w).2 ->
  exists s,
    i = ServiceItem s
    /\ r = reg m
    /\ (exists rt, root m = Some rt /\ oo = [WithEdgeTo (item_ID rt) "Node" ∅])
    /\ placed m (svc_ID s) s
    /\ (opt_ForceRegister (svc_Options s) = true
        \/ exists w', answer E (runtime_IsRequired (svc_Name s)
                                  (opt_Tags (svc_Options s))) w' = true).
Proof.
  assert (forall h : Log,
            Forall (Init_call m) h ->
            Call (Registry_Register r i oo) ∈ h ->
            exists s,
              i = ServiceItem s
              /\ r = reg m
              /\ (exists rt, root m = Some rt
                             /\ oo = [WithEdgeTo (item_ID rt) "Node" ∅])
              /\ placed m (svc_ID s) s
              /\ (opt_ForceRegister (svc_Options s) = true
                  \/ exists w', answer E (runtime_IsRequired (svc_Name s)
                                            (opt_Tags (svc_Options s))) w' = true))
    as Hreg.
  { intros h Hall Hin. apply (proj1 (Forall_forall _ _) Hall) in Hin.
    destruct i as [s|it]; [|done]. exists s. by destruct Hin as (? & ? & ? & ?). }
  Init_cases m ctx w; cbn [fst snd]; intros Hin.
  - loop_elem Hin. by apply (Hreg h); [apply Hinv|].
  - loop_elem Hin. by apply (Hreg h); [apply Hinv|].
  - loop_elem Hin. destruct Hinv as (_ & bs & Hinv). by apply (Hreg h); [apply Hinv|].
  - loop_elem Hin. by apply (Hreg h); [apply Hinv|].
  - loop_elem Hin. by apply elem_of_nil in Hin.
  - apply elem_of_cons in Hin as [[=]|Hin]. by apply elem_of_nil in Hin.
Qed.

(** The edges that the calls of a log draw: source, target and label *)
Definition edges_drawn (h : Log) : list (string * string * string) :=
  flat_map (fun ev => match ev with
                      | Call (Registry_RegisterEdge _ from to label _) =>
                          [(from, to, label)]
                      | _ => []
                      end) h.

Lemma edges_drawn_app h l : edges_drawn (h ++ l) = edges_drawn h ++ edges_drawn l.
Proof. apply flat_map_app. Qed.

Lemma edges_drawn_loop m (h : Log) : Forall (Init_call m) h -> edges_drawn h = [].
Proof.
  induction 1 as [|ev h Hev _ IH]; [done|].
  change (ev :: h) with ([ev] ++ h).
  rewrite edges_drawn_app, IH, app_nil_r. by destruct ev as [[]|].
Qed.

Lemma edges_drawn_Init_edges m rt (l : list Server) :
  edges_drawn (map (fun sr => Call (Init_edge m rt sr)) l)
  = map (fun sr => (item_ID rt, srv_ID sr, "Node")) l.
Proof. induction l as [|sr l IH]; [done|]. cbn. by rewrite <- IH. Qed.

Lemma foldl_insert_lookup (l : list Server) (acc : gmap string Server) id sr :
  foldl (fun acc sr => <[srv_ID sr := sr]> acc) acc l !! id = Some sr ->
  acc !! id = Some sr \/ (sr ∈ l /\ srv_ID sr = id).
Proof.
  revert acc. induction l as [|x l IH]; intros acc; cbn [foldl]; [by left|].
  intros H. apply IH in H as [H|[Hin Hid]].
  - destruct (decide (srv_ID x = id)) as [Heq|Hne].
    + rewrite <- Heq, lookup_insert_eq in H. injection H as ->.
      right. split; [by left|done].
    + rewrite lookup_insert_ne in H by done. by left.
  - right. split; [by right|done].
Qed.

Lemma opened_size (l : list string) (bs : gmap string Server) :
  NoDup l -> (forall x, x ∈ l <-> is_Some (bs !! x)) ->
  length l = length (values bs).
Proof.
  intros Hnd Hdom. unfold values. rewrite length_fmap.
  rewrite <- (length_fmap fst (map_to_list bs)).
  apply Permutation_length, NoDup_Permutation; [done|apply NoDup_fst_map_to_list|].
  intros x. rewrite Hdom, list_elem_of_fmap. split.
  - intros [sr Hsr]. exists (x, sr). split; [done|]. by apply elem_of_map_to_list.
  - intros ([y sr] & -> & Hin). apply elem_of_map_to_list in Hin. by exists sr.
Qed.

(** X17. Init retains servers and draws edges only when it succeeds with a
    root: when it returns an error, or when the manager has no root, the
    server map is left as it was and no edge is drawn.  When it returns nil
    with a root, it draws one edge per server it opened, each a Node edge
    from the root, and every server it adds to the map is retained under
    its own ID and is the target of one of these edges. *)
Theorem Init_servers_and_edges m ctx w er m' :
  (run E (Init m ctx) w).1.1 = Done (er, m') ->
  (er <> None \/ root m = None ->
   servers m' = servers m /\ edges_drawn (run E (Init m ctx) w).2 = [])
  /\ (forall rt,
        er = None -> root m = Some rt ->
        length (edges_drawn (run E (Init m ctx) w).2)
        = length (opened (run E (Init m ctx) w).2)
        /\ (forall e, e ∈ edges_drawn (run E (Init m ctx) w).2 ->
                      e.1.1 = item_ID rt /\ e.2 = "Node")
        /\ (forall id sr,
              servers m' !! id = Some sr ->
              servers m !! id = Some sr
              \/ (srv_ID sr = id
                  /\ (item_ID rt, id, "Node")
                     ∈ edges_drawn (run E (Init m ctx) w).2))).
Proof.
  Init_cases m ctx w; cbn [fst snd]; intros [= <- <-];
    cbn [servers set_servers set_services].
  - (* nil, with a root *)
    destruct Hinv as (Hcalls & Hnodup & Hdom & _). cbn [fst] in Hdom.
    assert (edges_drawn
              ([Call (registry_OpenRegistry ctx (srcUrl m));
                Call (runtime_Init
                        (servicecontext_WithRegistry
                           (servercontext_WithRegistry ctx (reg m)) srcReg) (ns m))]
               ++ h ++ map (fun sr => Call (Init_edge m rt sr)) (values byScheme))
            = map (fun sr => (item_ID rt, srv_ID sr, "Node")) (values byScheme))
      as ->.
    { rewrite !edges_drawn_app, (edges_drawn_loop m h Hcalls).
      by rewrite edges_drawn_Init_edges. }
    assert (opened
              ([Call (registry_OpenRegistry ctx (srcUrl m));
                Call (runtime_Init
                        (servicecontext_WithRegistry
                           (servercontext_WithRegistry ctx (reg m)) srcReg) (ns m))]
               ++ h ++ map (fun sr => Call (Init_edge m rt sr)) (values byScheme))
            = opened h) as ->.
    { rewrite !opened_app, opened_Init_edges. cbn. by rewrite app_nil_r. }
    split; [by intros [?|?]|].
    intros rt' _ [= <-]. split; [|split].
    + rewrite length_map. symmetry. by apply opened_size.
    + intros e Hin. by apply list_elem_of_fmap in Hin as (sr & -> & _).
    + intros id sr Hsr. apply foldl_insert_lookup in Hsr as [?|[Hin <-]];
        [by left|right]. split; [done|].
      apply list_elem_of_fmap. by exists sr.
  - (* nil, without root *)
    destruct Hinv as (Hcalls & _). split; [|by intros rt _ [=]].
    intros _. split; [done|].
    rewrite edges_drawn_app, (edges_drawn_loop m h Hcalls). done.
  - (* an error from the loop *)
    destruct Hinv as (Her & bs & Hcalls & _). cbn [fst] in Her.
    split; [|by intros rt ->].
    intros _. split; [done|].
    rewrite edges_drawn_app, (edges_drawn_loop m h Hcalls). done.
  - split; [done|]. by intros rt [=].
  - split; [done|]. by intros rt [=].
Qed.

(** X18. When the source registry offers nothing to place (it lists no
    item, or only items that are no services or that are neither required
    nor forced), Init returns nil after OpenRegistry and runtime.Init, its
    only calls, and leaves the manager as it was; this is so without a root
    too. *)
Theorem Init_nothing_to_place m ctx w srcReg candidates :
  let open := registry_OpenRegistry ctx (srcUrl m) in
  let init := runtime_Init
                {| ctx_server_registry := Some (reg m);
                   ctx_service_registry := Some srcReg |} (ns m) in
  let w2 := (perform E init (perform E open w).2).2 in
  (perform E open w).1 = Ok srcReg ->
  answer E (Registry_List srcReg [WithType ItemType_SERVICE]) w2 = Ok candidates ->
  (forall ss s,
     ss ∈ candidates -> item_As_service ss = Some s ->
     answer E (runtime_IsRequired (svc_Name s) (opt_Tags (svc_Options s))) w2
     = false
     /\ opt_ForceRegister (svc_Options s) = false) ->
  run E (Init m ctx) w = (Done (None, m), w2, [Call open; Call init]).
Proof.
  intros open init w2 Hopen Hlist Hskip.
  assert (run E (range candidates (Init_candidate m) (∅, services m)) w2
          = (Done (Continue (∅, services m)), w2, [])) as Hloop.
  { clear Hlist. induction candidates as [|ss candidates IH]; [done|].
    cbn [range]. rewrite run_bind, Init_candidate_run.
    assert (Init_candidate_result m ss (∅, services m) w2
            = (Done (Continue (∅, services m)), w2, [])) as ->.
    { unfold Init_candidate_result.
      destruct (item_As_service ss) as [s|] eqn:Hs; [|done].
      destruct (Hskip ss s) as [-> ->]; [by left|done|done]. }
    rewrite andThen_done. apply IH.
    intros ss' s Hin. apply Hskip. by right. }
  rewrite Init_run. unfold Init_result. fold open. rewrite Hopen. cbv zeta.
  change (runtime_Init _ (ns m)) with init. fold w2. rewrite Hlist, Hloop.
  rewrite app_nil_r. destruct (root m) as [rt|].
  - unfold values. rewrite map_to_list_empty. cbn. by destruct m.
  - by destruct m.
Qed.

(** *** WatchServicesConfigs *)

Local Abbreviation WatchServicesConfigs :=
  (WatchServicesConfigs StatusStopped StatusReady).

(** The service that a change of the key [kv] restarts, if any: the first
    item listed under the key, when it is a service with AutoRestart *)
Definition restarted_by (m : manager) (kv : KV) (w : W) : option Service :=
  match answer E (Registry_List (reg m) [WithName (Key kv)]) w with
  | Ok (ss0 :: _) =>
      match item_As_service ss0 with
      | Some svc => if opt_AutoRestart (svc_Options svc) then Some svc else None
      | None => None
      end
  | _ => None
  end.

Lemma WatchServicesConfigs_event_quiet m kv w :
  restarted_by m kv w = None ->
  run E (WatchServicesConfigs_event m kv) w = (Done tt, w, []).
Proof.
  unfold restarted_by, WatchServicesConfigs_event.
  run_ask (Registry_List (reg m) [WithName (Key kv)]).
  destruct (answer E _ w) as [[|ss0 rest]|e]; [done| |done].
  destruct (item_As_service ss0) as [svc|]; [|done].
  by destruct (opt_AutoRestart (svc_Options svc)).
Qed.

(** X19. The configuration watch makes one call, WatchMap on the path
    "services", and returns at once when that call fails.  When the watch
    opens, the events whose key restarts no service (nothing is listed under
    the key, the List call fails, the first listed item is no service, or
    its AutoRestart is unset) lead to no call: if no event of the stream
    restarts a service, the watch ends, once the stream is closed, without
    any other call. *)
Theorem WatchServicesConfigs_quiet m w :
  let watch := config_WatchMap "services" in
  (forall e,
     (perform E watch w).1 = Err e ->
     run E (WatchServicesConfigs m) w
     = (Done tt, (perform E watch w).2, [Call watch]))
  /\ (forall ch,
        (perform E watch w).1 = Ok ch ->
        (forall kv, kv ∈ ch -> restarted_by m kv (perform E watch w).2 = None) ->
        run E (WatchServicesConfigs m) w
        = (Done tt, (perform E watch w).2, [Call watch])).
Proof.
  intros watch. unfold WatchServicesConfigs.
  rewrite run_bind. run_call (config_WatchMap "services") w. fold watch.
  destruct (perform E watch w) as [[ch|e] w1]; cbn [fst snd andThen]; split.
  - by intros e [=].
  - intros ch' [= <-] Hquiet.
    assert (run E (range_ ch (fun kv _ => WatchServicesConfigs_event m kv) tt) w1
            = (Done tt, w1, [])) as ->; [|done].
    induction ch as [|kv ch IH]; [done|].
    cbn [range_]. rewrite run_bind, WatchServicesConfigs_event_quiet.
    + rewrite andThen_done. apply IH. intros kv' Hin. apply Hquiet. by right.
    + apply Hquiet. by left.
  - by intros e' [= <-].
  - by intros ch [=].
Qed.

(** *** ServeAll *)

Local Abbreviation ServeAll := (ServeAll MetaStatusKey StatusStopped).
Local Abbreviation ServeAll_group := (ServeAll_group MetaStatusKey StatusStopped).

(** How one pass of startServer for the server [srv] deals with the
    retained services, when each registry lookup is answered in some state
    of the environment: the services deferred to an arbiter and the services
    whose hooks are passed on, both in the order of the pass. *)
Inductive dealt (m : manager) (srv : option Server)
    : list Service -> list Service -> list Service -> Prop :=
| dealt_nil : dealt m srv [] [] []
| dealt_skip svc l ds hs :
    opt_Server (svc_Options svc) <> srv ->
    dealt m srv l ds hs -> dealt m srv (svc :: l) ds hs
| dealt_defer svc l ds hs :
    opt_Server (svc_Options svc) = srv ->
    opt_Unique (svc_Options svc) = true ->
    (exists w, incumbent m (svc_Name svc) w = true) ->
    dealt m srv l ds hs -> dealt m srv (svc :: l) (svc :: ds) hs
| dealt_hook svc l ds hs :
    opt_Server (svc_Options svc) = srv ->
    (opt_Unique (svc_Options svc) = false
     \/ exists w, incumbent m (svc_Name svc) w = false) ->
    dealt m srv l ds hs -> dealt m srv (svc :: l) ds (svc :: hs).

(** What one startServer logs and returns under any schedule: the spawns
    of the arbiters, then one call, Serve with the given options followed
    by the hooks of the services that are not deferred. *)
Definition startServer_shape (m : manager) (s : Server) (oo : list ServeOption)
    (l : Log) (o : Outcome error) : Prop :=
  exists ds hs,
    dealt m (Some s) (values (services m)) ds hs
    /\ l = arbiters ds
           ++ [Call (Server_Serve s (oo ++ flat_map serviceServeOptions hs))]
    /\ exists r, o = Done r.

Lemma any_startServer_loop m srv svcs opts l o :
  any E (range_ svcs
           (fun svc opts =>
              if decide (opt_Server (svc_Options svc) = srv) then
                let* running := (if opt_Unique (svc_Options svc)
                                 then regRunningService m (svc_Name svc)
                                 else Ret false) in
                if running then
                  let* _ := go (go_WatchUniqueNeedsStart svc) in
                  Ret opts
                else Ret (opts ++ serviceServeOptions svc)
              else Ret opts) opts) l o ->
  exists ds hs,
    dealt m srv svcs ds hs
    /\ l = arbiters ds
    /\ o = Done (opts ++ flat_map serviceServeOptions hs).
Proof.
  revert opts l o. induction svcs as [|svc svcs IH]; intros opts l o; cbn [range_].
  - intros [-> ->]. exists [], []. rewrite app_nil_r. by split; [constructor|].
  - destruct (decide (opt_Server (svc_Options svc) = srv)) as [Hs|Hs].
    + destruct (opt_Unique (svc_Options svc)) eqn:Hu.
      * unfold regRunningService at 1. cbn [bind ask any].
        intros [w H]. fold (listed m (svc_Name svc) w) in H.
        fold (incumbent m (svc_Name svc) w) in H.
        destruct (incumbent m (svc_Name svc) w) eqn:Hinc.
        -- cbn [bind go any] in H. destruct H as (l' & -> & H).
           apply IH in H as (ds & hs & Hd & -> & ->).
           exists (svc :: ds), hs. split; [|done].
           apply dealt_defer; [done|done|by exists w|done].
        -- cbn [bind] in H. apply IH in H as (ds & hs & Hd & -> & ->).
           exists ds, (svc :: hs). split; [|split; [done|]].
           ++ apply dealt_hook; [done|right; by exists w|done].
           ++ cbn [flat_map]. by rewrite app_assoc.
      * cbn [bind]. intros H. apply IH in H as (ds & hs & Hd & -> & ->).
        exists ds, (svc :: hs). split; [|split; [done|]].
        -- apply dealt_hook; [done|by left|done].
        -- cbn [flat_map]. by rewrite app_assoc.
    + cbn [bind]. intros H. apply IH in H as (ds & hs & Hd & -> & ->).
      exists ds, hs. split; [|done]. by apply dealt_skip.
Qed.

Lemma any_startServer m s oo l o :
  any E (startServer m (Some s) oo) l o -> startServer_shape m s oo l o.
Proof.
  unfold startServer. intros H.
  apply any_bind_inv in H as [(opts & l1 & l2 & -> & H1 & H2)|(msg & -> & H)].
  - apply any_startServer_loop in H1 as (ds & hs & Hd & -> & [= ->]).
    cbn [call any] in H2. destruct H2 as (w & l' & -> & -> & ->).
    exists ds, hs. split; [done|]. split; [done|]. by eexists.
  - by apply any_startServer_loop in H as (ds & hs & _ & _ & [=]).
Qed.

Lemma no_crash_startServer m (srvs : list Server) oo :
  ~ may_crash E ((fun sr => startServer m (Some sr) oo) <$> srvs).
Proof.
  unfold may_crash. rewrite Exists_exists.
  intros (t & Hin & l & msg & Ht).
  apply list_elem_of_fmap in Hin as (sr & -> & _).
  by apply any_startServer in Ht as (ds & hs & _ & _ & r & [=]).
Qed.

Lemma all_done_startServer m (srvs : list Server) oo ls es :
  all_done E ((fun sr => startServer m (Some sr) oo) <$> srvs) ls es ->
  Forall2 (fun sr l => exists o, startServer_shape m sr oo l o) srvs ls.
Proof.
  unfold all_done. revert ls es. induction srvs as [|sr srvs IH]; intros ls es H.
  - inversion H. constructor.
  - cbn [fmap list_fmap] in H.
    apply Forall3_cons_inv_l in H as (l0 & ls0 & e0 & es0 & -> & -> & Ht & Hts).
    constructor; [|by eapply IH].
    apply any_startServer in Ht. by exists (Done e0).
Qed.

(** X20. ServeAll itself makes no call: it replaces the serve options of
    the manager by the given ones and submits one startServer, with these
    options, for every retained server that reports Stopped, and for no
    other.  Under every schedule of the submitted goroutines, none of them
    panics and the log is an interleaving of one log per such server: the
    spawns of the arbiters of the deferred services, then a single call,
    Serve on that server, with the given options followed by the hooks of
    its services that are not deferred. *)
Theorem ServeAll_every_schedule m oo w :
  run E (ServeAll m oo) w
  = (Done (SetServeOptions m oo,
           map (fun srv => startServer (SetServeOptions m oo) (Some srv) oo)
             (with_status m StatusStopped w)), w, [])
  /\ every_schedule E (ServeAll_group m oo) w
       (fun o log =>
          (exists er, o = Done (SetServeOptions m oo, er))
          /\ exists logs,
              interleave logs log
              /\ Forall2
                   (fun sr l =>
                      exists o', startServer_shape (SetServeOptions m oo) sr oo l o')
                   (with_status m StatusStopped w) logs).
Proof.
  assert (run E (ServeAll m oo) w
          = (Done (SetServeOptions m oo,
                   map (fun srv => startServer (SetServeOptions m oo) (Some srv) oo)
                     (with_status m StatusStopped w)), w, [])) as Hrun.
  { unfold ServeAll. rewrite run_bind.
    rewrite (serversWithStatus_run (set_serveOptions m oo)).
    by cbn [andThen run]. }
  split; [done|].
  apply every_schedule_sees. intros log o H.
  unfold ServeAll_group in H. apply sees_bind_wait_free in H.
  2:{ unfold ServeAll. apply wait_free_bind; [|done].
      apply wait_free_range_. intros sr ss. cbn. intros b. by destruct b. }
  rewrite Hrun in H. destruct H as (l2 & -> & H). cbn [fst snd app] in H.
  change (map (fun srv => startServer (SetServeOptions m oo) (Some srv) oo)
            (with_status m StatusStopped w))
    with ((fun srv => startServer (SetServeOptions m oo) (Some srv) oo)
            <$> with_status m StatusStopped w) in H.
  cbn [bind errgroup sees app] in H. apply any_Wait in H.
  destruct H as [(ls & es & l1 & e & l3 & -> & Hall & Hint & Hjoin & Hk)|[Hc _]].
  2:{ by apply no_crash_startServer in Hc. }
  cbn in Hk. destruct Hk as [-> ->]. rewrite app_nil_r.
  split; [by exists e|]. exists ls. split; [done|].
  by eapply all_done_startServer.
Qed.

(** *** serversWithStatus, startServer: what they read and what they call *)

Lemma elem_of_values_iff {V : Type} (mp : gmap string V) (v : V) :
  v ∈ values mp <-> exists id, mp !! id = Some v.
Proof.
  split; [|intros [id H]; by eapply elem_of_values].
  unfold values. intros ([id v'] & -> & Hin)%list_elem_of_fmap.
  exists id. by apply elem_of_map_to_list.
Qed.

(** X21. serversWithStatus only reads: it makes no call and leaves the
    state as it is.  A server is in its result exactly when the manager
    retains it (under some ID) and it reports the status; the result is nil
    when no server is retained. *)
Theorem serversWithStatus_reads m status w :
  exists ss,
    run E (serversWithStatus m status) w = (Done ss, w, [])
    /\ (forall sr, sr ∈ ss
                   <-> (exists id, servers m !! id = Some sr)
                       /\ answer E (Server_Is sr status) w = true)
    /\ (servers m = ∅ -> ss = []).
Proof.
  exists (with_status m status w). split; [apply serversWithStatus_run|]. split.
  - intros sr. unfold with_status.
    rewrite list_elem_of_filter, elem_of_values_iff. tauto.
  - intros Hempty. unfold with_status, values.
    by rewrite Hempty, map_to_list_empty.
Qed.

(** X22. startServer ends with one call, Serve on the server, and returns
    what Serve returned; before it come only spawns of arbiters: it calls
    neither Start nor OnServe nor Stop, and no registry update.  The options
    of Serve begin with the given ones.  For a server to which no retained
    service is attached, the log is that single call, with exactly the given
    options. *)
Theorem startServer_one_call m s oo w :
  (exists ds opts',
     run E (startServer m (Some s) oo) w
     = (Done (perform E (Server_Serve s (oo ++ opts')) w).1,
        (perform E (Server_Serve s (oo ++ opts')) w).2,
        arbiters ds ++ [Call (Server_Serve s (oo ++ opts'))]))
  /\ ((forall id svc, services m !! id = Some svc ->
                      opt_Server (svc_Options svc) <> Some s) ->
      run E (startServer m (Some s) oo) w
      = (Done (perform E (Server_Serve s oo) w).1,
         (perform E (Server_Serve s oo) w).2, [Call (Server_Serve s oo)])).
Proof.
  rewrite startServer_run. cbv zeta. split.
  - exists (filter (fun svc => deferred m w svc = true) (attached m (Some s))),
      (flat_map serviceServeOptions
         (filter (fun svc => deferred m w svc = false) (attached m (Some s)))).
    by destruct (perform E _ w).
  - intros Hnone.
    assert (attached m (Some s) = []) as ->.
    { unfold attached.
      destruct (filter _ (values (services m))) as [|svc l] eqn:Hf; [done|].
      assert (svc ∈ svc :: l) as Hin by left. rewrite <- Hf in Hin.
      apply list_elem_of_filter in Hin as [Hsrv Hin].
      apply elem_of_values_iff in Hin as [id Hid].
      by destruct (Hnone id svc Hid). }
    rewrite !filter_nil. cbn [flat_map arbiters map app]. rewrite app_nil_r.
    by destruct (perform E _ w).
Qed.

End Properties.

(** ** The properties on concrete inputs *)

(** C6 on a run: restart of A, which stops and is started again. *)
Lemma WatchBroker_service_restart_witness :
  command_of (ex_message "restart" "A") = CommandRestart
  /\ (run (scripted ex_running)
        (WatchBroker_handler ex_MetaStatusKey ex_Stopped ex_Ready ex_m
           (ex_message "restart" "A")) 0).2
     = [Call (Service_Stop ex_A []); Call (Service_Start ex_A);
        Call (Service_OnServe ex_A)].
Proof.
  assert (command_of (ex_message "restart" "A") = CommandRestart) as H1
    by (vm_compute; reflexivity).
  assert (answer (scripted ex_running)
            (lookup_of ex_m (ex_message "restart" "A")) 0
          = Ok (ex_service_item ex_A ex_Ready).2) as H2
    by (vm_compute; reflexivity).
  assert ((WatchBroker_resolve ex_m (ex_service_item ex_A ex_Ready).2).1
          = Some ex_A) as H3 by (vm_compute; reflexivity).
  pose proof (WatchBroker_service_restart ex_MetaStatusKey ex_Stopped ex_Ready
                (scripted ex_running) ex_m (ex_message "restart" "A")
                (ex_service_item ex_A ex_Ready).2 ex_A 0 H1 H2 H3) as [Heq _].
  split; [exact H1|]. rewrite Heq. vm_compute. reflexivity.
Defined.

(** C6 on a run where the stop fails: the error comes back, and the stop
    is the only call. *)
Example WatchBroker_service_restart_stop_fails :
  run (scripted ex_stop_fails)
    (WatchBroker_handler ex_MetaStatusKey ex_Stopped ex_Ready ex_m
       (ex_message "restart" "A")) 0
  = (Done (Some (fmt_Errorf "stop failed")), 1, [Call (Service_Stop ex_A [])]).
Proof. vm_compute. reflexivity. Qed.

(** C1 on a run: start of the server grpc; nothing is called. *)
Lemma WatchBroker_server_command_dropped_witness :
  command_of (ex_message "start" "grpc") = CommandStart
  /\ WatchBroker_resolve ex_m (ex_server_item ex_grpc ex_Ready).2
     = (None, Some ex_grpc)
  /\ run (scripted ex_running)
       (WatchBroker_handler ex_MetaStatusKey ex_Stopped ex_Ready ex_m
          (ex_message "start" "grpc")) 0
     = (Done None, 0, []).
Proof.
  assert (command_of (ex_message "start" "grpc") = CommandStart) as H1
    by (vm_compute; reflexivity).
  assert (answer (scripted ex_running)
            (lookup_of ex_m (ex_message "start" "grpc")) 0
          = Ok (ex_server_item ex_grpc ex_Ready).2) as H2
    by (vm_compute; reflexivity).
  assert (WatchBroker_resolve ex_m (ex_server_item ex_grpc ex_Ready).2
          = (None, Some ex_grpc)) as H3 by (vm_compute; reflexivity).
  split; [exact H1|]. split; [exact H3|].
  exact (WatchBroker_server_command_dropped ex_MetaStatusKey ex_Stopped
           ex_Ready (scripted ex_running) ex_m (ex_message "start" "grpc")
           (ex_server_item ex_grpc ex_Ready).2 ex_grpc 0 (or_introl H1) H2 H3).
Defined.

(** C5 on a run: an unknown command for the server grpc is answered with
    nil; the same command for the service B is answered with the error. *)
Lemma WatchBroker_server_unsupported_nil_witness :
  command_of (ex_message "reload" "grpc") = "reload"
  /\ run (scripted ex_running)
       (WatchBroker_handler ex_MetaStatusKey ex_Stopped ex_Ready ex_m
          (ex_message "reload" "grpc")) 0
     = (Done None, 0, []).
Proof.
  assert (command_of (ex_message "reload" "grpc") = "reload") as H0
    by (vm_compute; reflexivity).
  assert (answer (scripted ex_running)
            (lookup_of ex_m (ex_message "reload" "grpc")) 0
          = Ok (ex_server_item ex_grpc ex_Ready).2) as H2
    by (vm_compute; reflexivity).
  assert (WatchBroker_resolve ex_m (ex_server_item ex_grpc ex_Ready).2
          = (None, Some ex_grpc)) as H3 by (vm_compute; reflexivity).
  split; [exact H0|].
  refine (proj1 (WatchBroker_server_unsupported_nil ex_MetaStatusKey ex_Stopped
           ex_Ready (scripted ex_running) ex_m (ex_message "reload" "grpc")
           (ex_server_item ex_grpc ex_Ready).2 ex_grpc 0 _ _ _ H2 H3));
    rewrite H0; discriminate.
Defined.

Example WatchBroker_service_unsupported_error :
  run (scripted ex_running)
    (WatchBroker_handler ex_MetaStatusKey ex_Stopped ex_Ready ex_m
       (ex_message "reload" "B")) 0
  = (Done (Some (fmt_Errorf "unsupported command reload")), 0, []).
Proof. vm_compute. reflexivity. Qed.

(** C2 on a run: the registration of the root node fails, NewManager leaves
    the root unset, and Init panics on the candidate A0. *)
Example NewManager_leaves_root_unset :
  (run (scripted ex_planning_no_root)
     (NewManager ex_NodeMetaPID ex_shared "mem://source" "main") 0).1.1
  = Done {| ns := "main"; srcUrl := "mem://source"; reg := ex_shared;
            root := None; rootIsFork := false; serveOptions := [];
            servers := ∅; services := ∅ |}.
Proof. vm_compute. reflexivity. Qed.

Lemma Init_panics_without_root_witness :
  root ex_rootless = None
  /\ (run (scripted ex_planning_no_root) (Init ex_rootless ex_ctx) 0).1.1
     = Panicked nil_dereference.
Proof.
  assert (root ex_rootless = None) as H1 by reflexivity.
  split; [exact H1|].
  rewrite (Init_panics_without_root (scripted ex_planning_no_root) ex_rootless
             ex_ctx 0 ex_source 1 tt 2 (ex_service_item ex_A0 ex_Stopped).2 []
             ex_A0 ex_grpc 3 H1).
  - reflexivity.
  - vm_compute. reflexivity.
  - vm_compute. reflexivity.
  - vm_compute. reflexivity.
  - reflexivity.
  - reflexivity.
  - left. reflexivity.
  - vm_compute. reflexivity.
Defined.

(** C3 on a run: D is Unique and another process shows a D that is
    Starting, so D is deferred; A is not Unique and its hooks are merged. *)
Lemma startServer_defers_unique_witness :
  services ex_m !! "D" = Some ex_D
  /\ opt_Server (svc_Options ex_D) = Some ex_grpc
  /\ defers_iff ex_MetaStatusKey ex_Stopped (scripted ex_D_starting_elsewhere)
       (opt_Unique (svc_Options ex_D) = true
        /\ shows ex_MetaStatusKey (scripted ex_D_starting_elsewhere) ex_m
             (svc_Name ex_D) 0 (fun st => st <> ex_Stopped))
       ex_m ex_grpc [] 0 ex_D.
Proof.
  assert (services ex_m !! "D" = Some ex_D) as H1 by (vm_compute; reflexivity).
  assert (opt_Server (svc_Options ex_D) = Some ex_grpc) as H2 by reflexivity.
  split; [exact H1|]. split; [exact H2|].
  exact (startServer_defers_unique ex_MetaStatusKey ex_Stopped
           (scripted ex_D_starting_elsewhere) ex_m ex_grpc [] 0 "D" ex_D H1 H2).
Defined.

Example startServer_defers_D :
  (run (scripted ex_D_starting_elsewhere)
     (startServer ex_MetaStatusKey ex_Stopped ex_m (Some ex_grpc) []) 0).2
  = [Spawn (go_WatchUniqueNeedsStart ex_D);
     Call (Server_Serve ex_grpc
             (serviceServeOptions ex_A ++ serviceServeOptions ex_B))].
Proof. vm_compute. reflexivity. Qed.

(** C3 as the spec words it fails on that run: D is deferred although no
    instance of D is Ready. *)
Lemma startServer_as_stated_counterexample :
  ~ startServer_as_stated ex_MetaStatusKey ex_Stopped ex_Ready
      (scripted ex_D_starting_elsewhere) ex_m ex_grpc [] 0 ex_D.
Proof.
  intros (hooks & r & w1 & log & Hrun & Hspawn & _).
  apply (f_equal snd) in Hrun. cbn [snd] in Hrun.
  rewrite startServer_defers_D in Hrun.
  change ([Spawn (go_WatchUniqueNeedsStart ex_D)]
          ++ [Call (Server_Serve ex_grpc
                      (serviceServeOptions ex_A ++ serviceServeOptions ex_B))]
          = log ++ [Call (Server_Serve ex_grpc ([] ++ hooks))]) in Hrun.
  apply app_inj_tail in Hrun as [<- _].
  destruct Hspawn as [Hs _].
  destruct (Hs ltac:(left)) as [_ (l & Hin & Hst)].
  apply list_elem_of_In in Hin. vm_compute in Hin.
  destruct Hin as [<-|[<-|[]]]; vm_compute in Hst; discriminate.
Qed.

(** C10 on a run: the registry is unreachable, and the Unique service D is
    started with the others. *)
Lemma regRunningService_list_error_witness :
  (forall name, exists e,
     answer (scripted ex_registry_down)
       (Registry_List (reg ex_m) [WithType ItemType_SERVICE; WithName name]) 0
     = Err e)
  /\ run (scripted ex_registry_down)
       (regRunningService ex_MetaStatusKey ex_Stopped ex_m "D") 0
     = (Done false, 0, [])
  /\ (run (scripted ex_registry_down)
        (startServer ex_MetaStatusKey ex_Stopped ex_m (Some ex_grpc) []) 0).2
     = [Call (Server_Serve ex_grpc
                (serviceServeOptions ex_A ++ serviceServeOptions ex_B
                 ++ serviceServeOptions ex_D))].
Proof.
  assert (forall name, exists e,
            answer (scripted ex_registry_down)
              (Registry_List (reg ex_m)
                 [WithType ItemType_SERVICE; WithName name]) 0
            = Err e) as H1.
  { intros name. eexists. reflexivity. }
  destruct (regRunningService_list_error ex_MetaStatusKey ex_Stopped
              (scripted ex_registry_down) ex_m 0 H1) as [Hreg Hstart].
  split; [exact H1|]. split; [apply Hreg|].
  rewrite Hstart. vm_compute. reflexivity.
Defined.



Example startService_start_fails :
  run (scripted ex_start_fails) (startService ex_Stopped ex_Ready ex_m ex_A) 0
  = (Done (Some (fmt_Errorf "start failed")), 1, [Call (Service_Start ex_A)]).
Proof. vm_compute. reflexivity. Qed.

Example startService_stopped_needs_restart :
  run (scripted ex_stopped_needs_restart)
    (startService ex_Stopped ex_Ready ex_m ex_A) 0
  = (Done None, 1,
     [Call (Server_Serve ex_grpc
              ([CallerOption "ambient"] ++ serviceServeOptions ex_A))]).
Proof. vm_compute. reflexivity. Qed.

(** C8 under the schedule that, of the services still to stop, always
    lets the second one move: B, D and A are stopped in that order, then
    grpc, then the root is deregistered. *)
Lemma StopAll_every_schedule_witness :
  exec (scripted ex_running) 30 (fun _ => [0; 1]) 0 (StopAll ex_Ready ex_m) 0
  = Some (Done tt, 5,
          [Call (Service_Stop ex_B [WithDeregisterFull]);
           Call (Service_Stop ex_D [WithDeregisterFull]);
           Call (Service_Stop ex_A [WithDeregisterFull]);
           Call (Server_Stop ex_grpc [WithDeregisterFull]);
           Call (Registry_Deregister ex_shared (Some ex_root)
                   [WithRegisterFailFast])])
  /\ StopAll_shape ex_Ready (scripted ex_running) ex_m 0 (Done tt)
       [Call (Service_Stop ex_B [WithDeregisterFull]);
        Call (Service_Stop ex_D [WithDeregisterFull]);
        Call (Service_Stop ex_A [WithDeregisterFull]);
        Call (Server_Stop ex_grpc [WithDeregisterFull]);
        Call (Registry_Deregister ex_shared (Some ex_root)
                [WithRegisterFailFast])]
  /\ (forall sv w',
        (perform (scripted ex_running) (Service_Stop sv [WithDeregisterFull]) w').1
        = None)
  /\ exists logs l1,
       [Call (Service_Stop ex_B [WithDeregisterFull]);
        Call (Service_Stop ex_D [WithDeregisterFull]);
        Call (Service_Stop ex_A [WithDeregisterFull]);
        Call (Server_Stop ex_grpc [WithDeregisterFull]);
        Call (Registry_Deregister ex_shared (Some ex_root)
                [WithRegisterFailFast])]
       = l1 ++ [Call (Registry_Deregister ex_shared (Some ex_root)
                        [WithRegisterFailFast])]
       /\ interleave logs l1
       /\ Forall2
            (fun sr l =>
               exists ss l0,
                 picked ex_Ready (scripted ex_running) (Some sr)
                   (values (services ex_m)) ss
                 /\ l0 ≡ₚ stops ss [WithDeregisterFull]
                 /\ l = l0 ++ [Call (Server_Stop sr [WithDeregisterFull])])
            [ex_grpc] logs.
Proof.
  assert (exec (scripted ex_running) 30 (fun _ => [0; 1]) 0
            (StopAll ex_Ready ex_m) 0
          = Some (Done tt, 5,
                  [Call (Service_Stop ex_B [WithDeregisterFull]);
                   Call (Service_Stop ex_D [WithDeregisterFull]);
                   Call (Service_Stop ex_A [WithDeregisterFull]);
                   Call (Server_Stop ex_grpc [WithDeregisterFull]);
                   Call (Registry_Deregister ex_shared (Some ex_root)
                           [WithRegisterFailFast])])) as Hex
    by (vm_compute; reflexivity).
  assert (forall sv w',
            (perform (scripted ex_running)
               (Service_Stop sv [WithDeregisterFull]) w').1 = None) as Hok
    by (intros sv w'; reflexivity).
  split; [exact Hex|]. split.
  - exact (proj2 (proj1 (proj2 (StopAll_every_schedule ex_Ready
                                  (scripted ex_running) ex_m 0))
                    (fun _ => [0; 1])) _ _ _ _ Hex).
  - split; [exact Hok|].
    exact (proj2 (proj2 (proj2 (StopAll_every_schedule ex_Ready
                                  (scripted ex_running) ex_m 0))
                    Hok (fun _ => [0; 1])) _ _ _ _ Hex).
Defined.

(** The shape of C8 requires the Stop of the server: in the running
    process, where no Stop fails, a log with the stops of A, B and D and the
    deregistration but without the Stop of grpc is none of StopAll's. *)
Example StopAll_shape_needs_server_stop :
  ~ StopAll_shape ex_Ready (scripted ex_running) ex_m 0 (Done tt)
      [Call (Service_Stop ex_A [WithDeregisterFull]);
       Call (Service_Stop ex_B [WithDeregisterFull]);
       Call (Service_Stop ex_D [WithDeregisterFull]);
       Call (Registry_Deregister ex_shared (Some ex_root)
               [WithRegisterFailFast])].
Proof.
  intros (_ & logs & l1 & Hlog & Hint & Hlogs).
  change (with_status (scripted ex_running) ex_m ex_Ready 0)
    with [ex_grpc] in Hlogs.
  apply Forall2_cons_inv_l in Hlogs as (l & logs' & Hl & Hnil & ->).
  apply Forall2_nil_inv_l in Hnil as ->.
  apply interleave_Permutation in Hint. cbn in Hint. rewrite app_nil_r in Hint.
  change [Call (Service_Stop ex_A [WithDeregisterFull]);
          Call (Service_Stop ex_B [WithDeregisterFull]);
          Call (Service_Stop ex_D [WithDeregisterFull]);
          Call (Registry_Deregister ex_shared (Some ex_root)
                  [WithRegisterFailFast])]
    with ([Call (Service_Stop ex_A [WithDeregisterFull]);
           Call (Service_Stop ex_B [WithDeregisterFull]);
           Call (Service_Stop ex_D [WithDeregisterFull])]
          ++ [Call (Registry_Deregister ex_shared (Some ex_root)
                      [WithRegisterFailFast])]) in Hlog.
  apply app_inj_tail in Hlog as [<- _].
  destruct Hl as (ss & o' & _ & l0 & _ & [(sv & w & e & _ & Hfail & _)|(w & _ & ->)]).
  - cbn in Hfail. discriminate Hfail.
  - assert (Call (Server_Stop ex_grpc [WithDeregisterFull])
            ∈ [Call (Service_Stop ex_A [WithDeregisterFull]);
               Call (Service_Stop ex_B [WithDeregisterFull]);
               Call (Service_Stop ex_D [WithDeregisterFull])]) as Hin.
    { rewrite Hint. apply elem_of_app. right. by apply list_elem_of_singleton. }
    repeat (apply elem_of_cons in Hin as [Hin|Hin]; [discriminate Hin|]).
    by apply elem_of_nil in Hin.
Qed.

(** The same for a Ready server none of whose services is Ready: StopAll
    stops the server, and the deregistration alone is no log of it. *)
Example StopAll_shape_idle_server :
  run (scripted ex_idle) (StopAll ex_Ready ex_m) 0
  = (Done tt, 2,
     [Call (Server_Stop ex_grpc [WithDeregisterFull]);
      Call (Registry_Deregister ex_shared (Some ex_root) [WithRegisterFailFast])])
  /\ ~ StopAll_shape ex_Ready (scripted ex_idle) ex_m 0 (Done tt)
        [Call (Registry_Deregister ex_shared (Some ex_root)
                 [WithRegisterFailFast])].
Proof.
  split; [vm_compute; reflexivity|].
  intros (_ & logs & l1 & Hlog & Hint & Hlogs).
  change (with_status (scripted ex_idle) ex_m ex_Ready 0)
    with [ex_grpc] in Hlogs.
  apply Forall2_cons_inv_l in Hlogs as (l & logs' & Hl & Hnil & ->).
  apply Forall2_nil_inv_l in Hnil as ->.
  apply interleave_Permutation in Hint. cbn in Hint. rewrite app_nil_r in Hint.
  change [Call (Registry_Deregister ex_shared (Some ex_root)
                  [WithRegisterFailFast])]
    with ([] ++ [Call (Registry_Deregister ex_shared (Some ex_root)
                         [WithRegisterFailFast])]) in Hlog.
  apply app_inj_tail in Hlog as [<- _].
  destruct Hl as (ss & o' & _ & l0 & _ & [(sv & w & e & _ & Hfail & _)|(w & _ & ->)]).
  - cbn in Hfail. discriminate Hfail.
  - apply Permutation_nil_l in Hint. by destruct l0.
Qed.

(** C8 on a run: the services of grpc are stopped, then grpc, then the root
    is deregistered. *)
Example StopAll_run :
  (run (scripted ex_running) (StopAll ex_Ready ex_m) 0).2
  = [Call (Service_Stop ex_A [WithDeregisterFull]);
     Call (Service_Stop ex_B [WithDeregisterFull]);
     Call (Service_Stop ex_D [WithDeregisterFull]);
     Call (Server_Stop ex_grpc [WithDeregisterFull]);
     Call (Registry_Deregister ex_shared (Some ex_root) [WithRegisterFailFast])].
Proof. vm_compute. reflexivity. Qed.

(** C8 on a run where the services fail to stop: grpc is not stopped, and
    the root is deregistered all the same. *)
Example StopAll_run_stop_fails :
  (run (scripted ex_stop_fails) (StopAll ex_Ready ex_m) 0).2
  = [Call (Service_Stop ex_A [WithDeregisterFull]);
     Call (Service_Stop ex_B [WithDeregisterFull]);
     Call (Service_Stop ex_D [WithDeregisterFull]);
     Call (Registry_Deregister ex_shared (Some ex_root) [WithRegisterFailFast])].
Proof. vm_compute. reflexivity. Qed.

(** C9 on runs: a change of the key A restarts A, whose AutoRestart is set;
    a change of the key B, whose AutoRestart is unset, does nothing; and so
    does a change of the key A when the first item listed under it is no
    service, although the second one is the service A. *)
Lemma WatchServicesConfigs_event_restarts_witness :
  (run (scripted ex_running)
     (WatchServicesConfigs_event ex_Stopped ex_Ready ex_m
        {| Key := "A"; Value := "changed" |}) 0).2
  = [Call (Service_Stop ex_A []); Call (Service_Start ex_A);
     Call (Service_OnServe ex_A)]
  /\ run (scripted ex_running)
       (WatchServicesConfigs_event ex_Stopped ex_Ready ex_m
          {| Key := "B"; Value := "changed" |}) 0
     = (Done tt, 0, [])
  /\ run (scripted ex_projection_first)
       (WatchServicesConfigs_event ex_Stopped ex_Ready ex_m
          {| Key := "A"; Value := "changed" |}) 0
     = (Done tt, 0, []).
Proof.
  destruct (WatchServicesConfigs_event_restarts ex_Stopped ex_Ready
              (scripted ex_running) ex_m {| Key := "A"; Value := "changed" |} 0)
    as [HA _].
  destruct (WatchServicesConfigs_event_restarts ex_Stopped ex_Ready
              (scripted ex_running) ex_m {| Key := "B"; Value := "changed" |} 0)
    as [_ HB].
  destruct (WatchServicesConfigs_event_restarts ex_Stopped ex_Ready
              (scripted ex_projection_first) ex_m
              {| Key := "A"; Value := "changed" |} 0)
    as [_ HP].
  split; [|split].
  - assert (answer (scripted ex_running)
              (Registry_List (reg ex_m) [WithName "A"]) 0
            = Ok [(ex_service_item ex_A ex_Ready).2]) as Hlist
      by (vm_compute; reflexivity).
    destruct (HA (ex_service_item ex_A ex_Ready).2 [] ex_A Hlist eq_refl eq_refl)
      as [Hrun _].
    rewrite Hrun. vm_compute. reflexivity.
  - apply HB. right. right.
    exists (ex_service_item ex_B ex_Ready).2, []. split.
    + vm_compute. reflexivity.
    + right. exists ex_B. split; reflexivity.
  - apply HP. right. right.
    exists (ex_remote_item "A@other" "A" ex_Ready).2,
      [(ex_service_item ex_A ex_Ready).2]. split.
    + vm_compute. reflexivity.
    + left. reflexivity.
Defined.

(** C9 as the spec words it fails: the registry lists two items under the
    key A, and the second one is the service A, whose AutoRestart is set;
    the first one is no service, and the event leads to no call. *)
Lemma WatchServicesConfigs_as_stated_counterexample :
  ~ WatchServicesConfigs_as_stated ex_Stopped ex_Ready
      (scripted ex_projection_first) ex_m {| Key := "A"; Value := "changed" |} 0.
Proof.
  intros H.
  destruct (H [(ex_remote_item "A@other" "A" ex_Ready).2;
               (ex_service_item ex_A ex_Ready).2]
              (ex_service_item ex_A ex_Ready).2 ex_A) as [l Hl].
  - vm_compute. reflexivity.
  - apply elem_of_cons. right. apply list_elem_of_singleton. reflexivity.
  - reflexivity.
  - reflexivity.
  - vm_compute in Hl. discriminate Hl.
Qed.

Example WatchServicesConfigs_event_first_item_only :
  run (scripted ex_projection_first)
    (WatchServicesConfigs_event ex_Stopped ex_Ready ex_m
       {| Key := "A"; Value := "changed" |}) 0
  = (Done tt, 0, []).
Proof. vm_compute. reflexivity. Qed.

(** C7 on a run: of the candidates C0 (fork-only) and A0, only A0 is
    registered and placed. *)
Lemma Init_drops_fork_only_witness :
  (forall w', answer (scripted ex_planning) runtime_IsFork w' = false)
  /\ (forall r s oo,
        Call (Registry_Register r (ServiceItem s) oo)
        ∈ (run (scripted ex_planning) (Init ex_fresh ex_ctx) 0).2 ->
        ~ fork_only s)
  /\ (forall er m' id s,
        (run (scripted ex_planning) (Init ex_fresh ex_ctx) 0).1.1
        = Done (er, m') ->
        services m' !! id = Some s ->
        services ex_fresh !! id = Some s \/ ~ fork_only s).
Proof.
  assert (forall w', answer (scripted ex_planning) runtime_IsFork w' = false)
    as H1 by (intros w'; reflexivity).
  split; [exact H1|].
  exact (Init_drops_fork_only (scripted ex_planning) ex_fresh ex_ctx 0 H1).
Defined.

Example Init_plans_A_only :
  exists m' : manager,
    (run (scripted ex_planning) (Init ex_fresh ex_ctx) 0).1.1 = Done (None, m')
    /\ services m' !! "C" = None
    /\ (svc_Name <$> services m' !! "A") = Some "A"
    /\ servers m' !! "grpc" = Some ex_grpc.
Proof. eexists. split; [vm_compute; reflexivity|]. vm_compute. done. Qed.

(** ** More properties on concrete inputs *)

(** X1 on runs: the registry is unreachable, and the error comes back; the
    item is unknown to the registry, and the handler returns nil. *)
Lemma WatchBroker_handler_lookup_error_witness :
  run (scripted ex_registry_down)
    (WatchBroker_handler ex_MetaStatusKey ex_Stopped ex_Ready ex_m
       (ex_message "stop" "A")) 0
  = (Done (Some (fmt_Errorf "registry unreachable")), 0, [])
  /\ run (scripted ex_running)
       (WatchBroker_handler ex_MetaStatusKey ex_Stopped ex_Ready ex_m
          (ex_message "stop" "nope")) 0
     = (Done None, 0, []).
Proof.
  split.
  - exact (WatchBroker_handler_lookup_error ex_MetaStatusKey ex_Stopped ex_Ready
             (scripted ex_registry_down) ex_m (ex_message "stop" "A")
             (fmt_Errorf "registry unreachable") 0 eq_refl).
  - exact (WatchBroker_handler_lookup_error ex_MetaStatusKey ex_Stopped ex_Ready
             (scripted ex_running) ex_m (ex_message "stop" "nope")
             os_ErrNotExist 0 eq_refl).
Defined.

(** X2 on a run: a restart of Z, which only another process runs. *)
Lemma WatchBroker_handler_unknown_item_witness :
  services ex_m !! "Z@other" = None
  /\ run (scripted ex_remote_only)
       (WatchBroker_handler ex_MetaStatusKey ex_Stopped ex_Ready ex_m
          (ex_message "restart" "Z")) 0
     = (Done None, 0, []).
Proof.
  assert (services ex_m !! "Z@other" = None) as H by (vm_compute; reflexivity).
  split; [exact H|].
  apply (WatchBroker_handler_unknown_item ex_MetaStatusKey ex_Stopped ex_Ready
           (scripted ex_remote_only) ex_m (ex_message "restart" "Z")
           (ex_remote_item "Z@other" "Z" ex_Ready).2 0).
  - vm_compute. reflexivity.
  - reflexivity.
  - reflexivity.
  - intros _. exact H.
  - intros Hf. discriminate Hf.
Defined.

(** X3 on runs: stop of A, and start of A on the running server. *)
Lemma WatchBroker_service_start_stop_witness :
  run (scripted ex_running)
    (WatchBroker_handler ex_MetaStatusKey ex_Stopped ex_Ready ex_m
       (ex_message "stop" "A")) 0
  = (Done None, 1, [Call (Service_Stop ex_A [])])
  /\ (run (scripted ex_running)
        (WatchBroker_handler ex_MetaStatusKey ex_Stopped ex_Ready ex_m
           (ex_message "start" "A")) 0).2
     = [Call (Service_Start ex_A); Call (Service_OnServe ex_A)].
Proof.
  assert (forall cmd,
            answer (scripted ex_running) (lookup_of ex_m (ex_message cmd "A")) 0
            = Ok (ex_service_item ex_A ex_Ready).2) as H1
    by (intros cmd; vm_compute; reflexivity).
  destruct (WatchBroker_service_start_stop ex_MetaStatusKey ex_Stopped ex_Ready
              (scripted ex_running) ex_m (ex_message "stop" "A")
              (ex_service_item ex_A ex_Ready).2 ex_A 0 (H1 "stop") eq_refl)
    as [_ Hstop].
  destruct (WatchBroker_service_start_stop ex_MetaStatusKey ex_Stopped ex_Ready
              (scripted ex_running) ex_m (ex_message "start" "A")
              (ex_service_item ex_A ex_Ready).2 ex_A 0 (H1 "start") eq_refl)
    as [Hstart _].
  split.
  - rewrite Hstop; [|vm_compute; reflexivity]. vm_compute. reflexivity.
  - rewrite Hstart; [|vm_compute; reflexivity]. vm_compute. reflexivity.
Defined.

(** X4 on a run: the registry answers with its projection of A, and the
    stop goes to the service A that the manager retains. *)
Lemma WatchBroker_handler_projection_witness :
  item_As_service (ex_remote_item "A" "A" ex_Ready).2 = None
  /\ services ex_m !! "A" = Some ex_A
  /\ run (scripted ex_projection)
       (WatchBroker_handler ex_MetaStatusKey ex_Stopped ex_Ready ex_m
          (ex_message "stop" "A")) 0
     = (Done None, 1, [Call (Service_Stop ex_A [])]).
Proof.
  assert (services ex_m !! "A" = Some ex_A) as H by (vm_compute; reflexivity).
  split; [reflexivity|]. split; [exact H|].
  destruct (WatchBroker_handler_projection ex_MetaStatusKey ex_Stopped ex_Ready
              (scripted ex_projection) ex_m (ex_message "stop" "A")
              (ex_remote_item "A" "A" ex_Ready).2 ex_A 0)
    as [Hstop _]; [vm_compute; reflexivity|reflexivity|reflexivity|reflexivity
                  |exact H|].
  rewrite Hstop; [|vm_compute; reflexivity]. vm_compute. reflexivity.
Defined.

(** X5 on a run: the configuration of N changes; N is stopped, and the
    restart panics because N has no server. *)
Lemma startService_nil_server_witness :
  opt_Server (svc_Options ex_N) = None
  /\ run (scripted ex_unplaced) (startService ex_Stopped ex_Ready ex_m ex_N) 0
     = (Panicked nil_dereference, 0, [])
  /\ run (scripted ex_unplaced)
       (WatchServicesConfigs_event ex_Stopped ex_Ready ex_m
          {| Key := "N"; Value := "changed" |}) 0
     = (Panicked nil_dereference, 1, [Call (Service_Stop ex_N [])]).
Proof.
  destruct (startService_nil_server ex_Stopped ex_Ready (scripted ex_unplaced)
              ex_m ex_N 0 eq_refl) as (Hrun & _ & Hevent).
  split; [reflexivity|]. split; [exact Hrun|].
  rewrite (Hevent {| Key := "N"; Value := "changed" |}
             (ex_service_item ex_N ex_Ready).2 []);
    [reflexivity|vm_compute; reflexivity|reflexivity|reflexivity|reflexivity].
Defined.

(** X6 on a run: the options are replaced, and the Stopped server grpc is
    served with the new ones and the hooks of A. *)
Lemma SetServeOptions_startService_witness :
  answer (scripted ex_stopped_needs_restart) (Server_Is ex_grpc ex_Stopped) 0 = true
  /\ run (scripted ex_stopped_needs_restart)
       (startService ex_Stopped ex_Ready
          (SetServeOptions ex_m [CallerOption "new"]) ex_A) 0
     = (Done None, 1,
        [Call (Server_Serve ex_grpc
                 [CallerOption "new"; WithBeforeServe (Service_Start_fn ex_A);
                  WithAfterServe (Service_OnServe_fn ex_A)])]).
Proof.
  split; [reflexivity|].
  exact (proj1 (SetServeOptions_startService ex_Stopped ex_Ready
                  (scripted ex_stopped_needs_restart) ex_m [CallerOption "new"]
                  ex_A ex_grpc 0 eq_refl eq_refl)).
Defined.

(** X8 on a run: the only listed instance of D carries no status. *)
Lemma regRunningService_missing_status_witness :
  ex_Stopped <> EmptyString
  /\ item_Metadata ex_bare_item.2 !! ex_MetaStatusKey = None
  /\ run (scripted ex_bare)
       (regRunningService ex_MetaStatusKey ex_Stopped ex_m "D") 0
     = (Done true, 0, []).
Proof.
  assert (ex_Stopped <> EmptyString) as H1 by discriminate.
  assert (item_Metadata ex_bare_item.2 !! ex_MetaStatusKey = None) as H2
    by reflexivity.
  split; [exact H1|]. split; [exact H2|].
  apply (regRunningService_missing_status ex_MetaStatusKey ex_Stopped
           (scripted ex_bare) ex_m "D" [ex_bare_item.2] ex_bare_item.2 0 H1).
  - vm_compute. reflexivity.
  - apply list_elem_of_singleton. reflexivity.
  - exact H2.
Defined.

(** X9 on a run: the registry lists a node of this process, a node of the
    parent and a second node of this process; the manager adopts the last
    one and calls nothing. *)
Lemma NewManager_adopts_current_witness :
  nodes (scripted ex_two_own_nodes) ex_shared 0
  = [(ex_node "mine" "4242").2; (ex_node "parent" "1").2;
     (ex_node "mine too" "4242").2]
  /\ is_current ex_NodeMetaPID (scripted ex_two_own_nodes) 0
       (ex_node "mine" "4242").2 = true
  /\ run (scripted ex_two_own_nodes)
       (NewManager ex_NodeMetaPID ex_shared "mem://source" "main") 0
     = (Done {| ns := "main"; srcUrl := "mem://source"; reg := ex_shared;
                root := Some (ex_node "mine too" "4242").2;
                rootIsFork := false; serveOptions := [];
                servers := ∅; services := ∅ |}, 0, []).
Proof.
  assert (nodes (scripted ex_two_own_nodes) ex_shared 0
          = [(ex_node "mine" "4242").2; (ex_node "parent" "1").2;
             (ex_node "mine too" "4242").2]) as H0 by reflexivity.
  assert ((ex_node "mine" "4242").2 ∈ nodes (scripted ex_two_own_nodes) ex_shared 0)
    as H1 by (rewrite H0; apply elem_of_cons; left; reflexivity).
  assert (is_current ex_NodeMetaPID (scripted ex_two_own_nodes) 0
            (ex_node "mine" "4242").2 = true) as H2 by (vm_compute; reflexivity).
  split; [exact H0|]. split; [exact H2|].
  destruct (NewManager_adopts_current ex_NodeMetaPID (scripted ex_two_own_nodes)
              ex_shared "mem://source" "main" (ex_node "mine" "4242").2 0 H1 H2)
    as (before & c & after & Hnodes & _ & Hafter & Hrun).
  assert (c = (ex_node "mine too" "4242").2) as <-; [|exact Hrun].
  rewrite H0 in Hnodes.
  assert (last (before ++ c :: after) = Some (ex_node "mine too" "4242").2)
    as Hend by (rewrite <- Hnodes; reflexivity).
  rewrite last_app, last_cons in Hend.
  destruct (last after) as [y|] eqn:Hlast.
  - injection Hend as ->. apply last_Some_elem_of, Hafter in Hlast.
    vm_compute in Hlast. discriminate Hlast.
  - injection Hend as ->. reflexivity.
Defined.

(** The own node is adopted when it is listed after the parent's node. *)
Example NewManager_adopts_after_parent :
  run (scripted ex_own_node)
    (NewManager ex_NodeMetaPID ex_shared "mem://source" "main") 0
  = (Done {| ns := "main"; srcUrl := "mem://source"; reg := ex_shared;
             root := Some (ex_node "mine" "4242").2;
             rootIsFork := false; serveOptions := [];
             servers := ∅; services := ∅ |}, 0, []).
Proof. vm_compute. reflexivity. Qed.

(** X10 on a run: only a node of the parent is listed; the manager creates
    and registers its node, and draws the Fork edge from the parent's. *)
Lemma NewManager_creates_root_witness :
  (run (scripted ex_forked)
     (NewManager ex_NodeMetaPID ex_shared "mem://source" "main") 0).2
  = [Call util_CreateNode;
     Call (Registry_Register ex_shared
             (PlainItem (perform (scripted ex_forked) util_CreateNode 0).1) []);
     Call (Registry_RegisterEdge ex_shared "parent" "node" "Fork" ∅)].
Proof.
  rewrite (NewManager_creates_root ex_NodeMetaPID (scripted ex_forked) ex_shared
             "mem://source" "main" 0).
  - vm_compute. reflexivity.
  - intros c Hin.
    change (nodes (scripted ex_forked) ex_shared 0)
      with [(ex_node "parent" "1").2] in Hin.
    apply list_elem_of_singleton in Hin. rewrite Hin. vm_compute. reflexivity.
Defined.

(** X12 on runs: the source registry does not open; and it opens but its
    List call fails. *)
Lemma Init_early_error_witness :
  run ex_closed (Init ex_fresh ex_ctx) 0
  = (Done (Some (fmt_Errorf "no such registry"), ex_fresh), 1,
     [Call (registry_OpenRegistry ex_ctx "mem://source")])
  /\ run (scripted ex_registry_down) (Init ex_fresh ex_ctx) 0
     = (Done (Some (fmt_Errorf "registry unreachable"), ex_fresh), 2,
        [Call (registry_OpenRegistry ex_ctx "mem://source");
         Call (runtime_Init
                 {| ctx_server_registry := Some ex_shared;
                    ctx_service_registry := Some ex_source |} "main")]).
Proof.
  split.
  - exact (proj1 (Init_early_error ex_closed ex_fresh ex_ctx 0)
             (fmt_Errorf "no such registry") eq_refl).
  - exact (proj2 (Init_early_error (scripted ex_registry_down) ex_fresh ex_ctx 0)
             ex_source (fmt_Errorf "registry unreachable") eq_refl eq_refl).
Defined.

Lemma ex_planned_run :
  (run (scripted ex_planning_two) (Init ex_fresh ex_ctx) 0).1.1
  = Done (None, ex_planned).
Proof. vm_compute. reflexivity. Qed.

(** X14 on a run where the registration of B0 fails after that of A0:
    Init returns the error, and A0 stays retained. *)
Lemma Init_retains_placed_services_witness :
  (run (scripted ex_register_B_fails) (Init ex_fresh ex_ctx) 0).1.1
  = Done (Some (fmt_Errorf "registration failed"), ex_half_planned)
  /\ map svc_ID
       (registered (run (scripted ex_register_B_fails) (Init ex_fresh ex_ctx) 0).2)
     = ["A"; "B"]
  /\ map svc_ID
       (registered
          (removelast (run (scripted ex_register_B_fails) (Init ex_fresh ex_ctx) 0).2))
     = ["A"]
  /\ services ex_half_planned
     = retain (services ex_fresh)
         (registered
            (removelast
               (run (scripted ex_register_B_fails) (Init ex_fresh ex_ctx) 0).2))
  /\ is_Some (services ex_half_planned !! "A")
  /\ services ex_half_planned !! "B" = None.
Proof.
  assert ((run (scripted ex_register_B_fails) (Init ex_fresh ex_ctx) 0).1.1
          = Done (Some (fmt_Errorf "registration failed"), ex_half_planned))
    as Hrun by (vm_compute; reflexivity).
  split; [exact Hrun|]. split; [vm_compute; reflexivity|].
  split; [vm_compute; reflexivity|]. split.
  - exact (proj1 (proj2 (Init_retains_placed_services
                           (scripted ex_register_B_fails) ex_fresh ex_ctx 0 _ _
                           Hrun))).
  - split; [vm_compute; by eexists|vm_compute; reflexivity].
Defined.

(** X14 on a run that succeeds: A0 and B0 are placed; each is retained under
    its ID, holds the manager's registry and a server. *)
Example Init_places_A0_and_B0 :
  map fst (map_to_list (services ex_planned)) ≡ₚ ["A"; "B"]
  /\ map svc_ID
       (registered (run (scripted ex_planning_two) (Init ex_fresh ex_ctx) 0).2)
     = ["A"; "B"].
Proof. split; vm_compute; reflexivity. Qed.

(** X15 on a run: A0 and B0 share the scheme grpc, and the one server that
    Init opened for it. *)
Lemma Init_shares_servers_witness :
  exists sA sB,
    services ex_planned !! "A" = Some sA
    /\ services ex_planned !! "B" = Some sB
    /\ svc_ServerScheme sA = svc_ServerScheme sB
    /\ opt_Server (svc_Options sA) = opt_Server (svc_Options sB)
    /\ is_Some (opt_Server (svc_Options sA)).
Proof.
  destruct (services ex_planned !! "A") as [sA|] eqn:HA;
    [|vm_compute in HA; discriminate HA].
  destruct (services ex_planned !! "B") as [sB|] eqn:HB;
    [|vm_compute in HB; discriminate HB].
  assert (svc_ServerScheme sA = svc_ServerScheme sB) as Hscheme.
  { vm_compute in HA, HB. injection HA as <-. injection HB as <-. reflexivity. }
  exists sA, sB. split; [reflexivity|]. split; [reflexivity|].
  split; [exact Hscheme|].
  apply (Init_shares_servers (scripted ex_planning_two) ex_fresh ex_ctx 0 None
           ex_planned "A" sA "B" sB ex_planned_run HA).
  - vm_compute. discriminate.
  - exact HB.
  - vm_compute. discriminate.
  - exact Hscheme.
Defined.

(** X16 on a run: the registration of A0, in the shared registry, with the
    edge to the root. *)
Lemma Init_registers_required_witness :
  exists s,
    Call (Registry_Register ex_shared (ServiceItem s)
            [WithEdgeTo "root" "Node" ∅])
    ∈ (run (scripted ex_planning) (Init ex_fresh ex_ctx) 0).2
    /\ svc_ID s = "A"
    /\ placed ex_fresh (svc_ID s) s
    /\ (opt_ForceRegister (svc_Options s) = true
        \/ exists w', answer (scripted ex_planning)
                        (runtime_IsRequired (svc_Name s)
                           (opt_Tags (svc_Options s))) w' = true).
Proof.
  set (s := set_Server
              (set_Context ex_A0
                 (servicecontext_WithRegistry ex_ctx ex_shared))
              {| srv_addr := 1; srv_ID := "grpc" |}).
  assert (Call (Registry_Register ex_shared (ServiceItem s)
                  [WithEdgeTo "root" "Node" ∅])
          ∈ (run (scripted ex_planning) (Init ex_fresh ex_ctx) 0).2) as Hin.
  { match goal with |- _ ∈ ?l =>
      let l' := eval vm_compute in l in change l with l' end.
    do 3 (apply elem_of_cons; right). apply elem_of_cons. left.
    vm_compute. reflexivity. }
  exists s. split; [exact Hin|]. split; [reflexivity|].
  destruct (Init_registers_required (scripted ex_planning) ex_fresh ex_ctx 0
              ex_shared (ServiceItem s) [WithEdgeTo "root" "Node" ∅] Hin)
    as (s' & Heq & _ & _ & Hplaced & Hreq).
  injection Heq as <-. split; [exact Hplaced|exact Hreq].
Defined.

(** X17 on runs: Init succeeds with a root, opens grpc once and draws one
    edge, from the root to grpc; and when the List call fails, no server is
    retained and no edge drawn. *)
Lemma Init_servers_and_edges_witness :
  edges_drawn (run (scripted ex_planning_two) (Init ex_fresh ex_ctx) 0).2
  = [("root", "grpc", "Node")]
  /\ opened (run (scripted ex_planning_two) (Init ex_fresh ex_ctx) 0).2 = ["grpc"]
  /\ (forall id sr,
        servers ex_planned !! id = Some sr ->
        servers ex_fresh !! id = Some sr
        \/ (srv_ID sr = id
            /\ (item_ID ex_root, id, "Node")
               ∈ edges_drawn
                   (run (scripted ex_planning_two) (Init ex_fresh ex_ctx) 0).2))
  /\ edges_drawn (run (scripted ex_registry_down) (Init ex_fresh ex_ctx) 0).2 = [].
Proof.
  split; [vm_compute; reflexivity|]. split; [vm_compute; reflexivity|]. split.
  - exact (proj2 (proj2 (proj2 (Init_servers_and_edges (scripted ex_planning_two)
                                  ex_fresh ex_ctx 0 None ex_planned
                                  ex_planned_run)
                           ex_root eq_refl eq_refl))).
  - assert ((run (scripted ex_registry_down) (Init ex_fresh ex_ctx) 0).1.1
            = Done (Some (fmt_Errorf "registry unreachable"), ex_fresh)) as Hrun
      by (vm_compute; reflexivity).
    apply (proj1 (Init_servers_and_edges (scripted ex_registry_down) ex_fresh
                    ex_ctx 0 _ _ Hrun)).
    left. discriminate.
Defined.

(** X18 on a run: the source registry of the running process is empty. *)
Lemma Init_nothing_to_place_witness :
  run (scripted ex_running) (Init ex_rootless ex_ctx) 0
  = (Done (None, ex_rootless), 2,
     [Call (registry_OpenRegistry ex_ctx "mem://source");
      Call (runtime_Init
              {| ctx_server_registry := Some ex_shared;
                 ctx_service_registry := Some ex_source |} "main")]).
Proof.
  apply (Init_nothing_to_place (scripted ex_running) ex_rootless ex_ctx 0
           ex_source []).
  - reflexivity.
  - vm_compute. reflexivity.
  - intros ss s Hin. by apply elem_of_nil in Hin.
Defined.

(** X19 on runs: the configuration cannot be watched; and the keys that
    change restart nothing. *)
Lemma WatchServicesConfigs_quiet_witness :
  run ex_unwatched (WatchServicesConfigs ex_Stopped ex_Ready ex_m) 0
  = (Done tt, 1, [Call (config_WatchMap "services")])
  /\ run (scripted ex_quiet_config)
       (WatchServicesConfigs ex_Stopped ex_Ready ex_m) 0
     = (Done tt, 1, [Call (config_WatchMap "services")]).
Proof.
  split.
  - exact (proj1 (WatchServicesConfigs_quiet ex_Stopped ex_Ready ex_unwatched
                    ex_m 0) (fmt_Errorf "no configuration") eq_refl).
  - apply (proj2 (WatchServicesConfigs_quiet ex_Stopped ex_Ready
                    (scripted ex_quiet_config) ex_m 0)
             [{| Key := "B"; Value := "changed" |};
              {| Key := "nope"; Value := "changed" |}] eq_refl).
    intros kv Hin. apply elem_of_cons in Hin as [->|Hin];
      [vm_compute; reflexivity|].
    apply list_elem_of_singleton in Hin as ->. vm_compute. reflexivity.
Defined.

(** X20 on a run: grpc is Stopped; D, which is Starting in another process,
    is left to an arbiter, and grpc is served with the hooks of A and B. *)
Example ServeAll_run :
  exec (scripted ex_all_stopped) 40 (fun _ => [0]) 0
    (ServeAll_group ex_MetaStatusKey ex_Stopped ex_m [CallerOption "all"]) 0
  = Some (Done (SetServeOptions ex_m [CallerOption "all"], None), 1,
          [Spawn (go_WatchUniqueNeedsStart ex_D);
           Call (Server_Serve ex_grpc
                   ([CallerOption "all"] ++ serviceServeOptions ex_A
                    ++ serviceServeOptions ex_B))]).
Proof. vm_compute. reflexivity. Qed.
